(** * MessageStore (app/src/flux/stores/message-store.ts)

    A shallow embedding of the [_MessageStore] class: the store's fields
    are a record, its methods are functions on a [World] that holds the
    store together with the collaborators it talks to (the focused-content
    store, the perspective store, the database with its in-flight
    queries, the timers of the event loop) and the list of effects it
    has emitted, in order. *)

From Stdlib Require Import ZArith Bool List Permutation Sorted.
From stdpp Require Import base strings list gmap.
Import ListNotations.
Local Open Scope string_scope.
Local Open Scope list_scope.

(** ** Models (the attributes the store reads) *)

Record File := mkFile { file_id : string }.

Record Contact := mkContact { email : string }.

Record Calendar := mkCalendar { cal_name : string }.

Record Folder := mkFolder { role : string }.

Record Thread := mkThread {
  thread_id : string;
  subject : string;
  participants : list Contact;
  thread_unread : bool
}.

(** [msg_isHidden] is the result of the model's [isHidden()] method, which
    is declared outside this file; [body], [snippet] and
    [replyToHeaderMessageId] may be null. *)
Record Message := mkMessage {
  msg_id : string;
  threadId : string;
  body : option string;
  snippet : option string;
  headerMessageId : string;
  replyToHeaderMessageId : option string;
  date : Z;
  draft : bool;
  unread : bool;
  files : list File;
  folder : Folder;
  msg_isHidden : bool
}.

Definition set_body (b : option string) (m : Message) : Message :=
  {| msg_id := msg_id m; threadId := threadId m; body := b;
     snippet := snippet m; headerMessageId := headerMessageId m;
     replyToHeaderMessageId := replyToHeaderMessageId m; date := date m;
     draft := draft m; unread := unread m; files := files m;
     folder := folder m; msg_isHidden := msg_isHidden m |}.

(** The values of [_itemsExpanded]: ['explicit' | 'default']. *)
Inductive Expansion := Explicit | Default.

#[global] Instance Expansion_eq_dec : EqDecision Expansion.
Proof. solve_decision. Defined.

(** JavaScript truthiness of a possibly-null string: null and the empty
    string are falsy. *)
Definition truthy (o : option string) : bool :=
  match o with
  | Some s => negb (String.eqb s "")
  | None => false
  end.

(** [Array.prototype.includes] on strings; the argument may be null. *)
Definition includes (l : list string) (o : option string) : bool :=
  match o with
  | Some s => existsb (String.eqb s) l
  | None => false
  end.

(** [Array.prototype.findIndex]: [None] stands for -1. *)
Fixpoint findIndex {A} (p : A -> bool) (l : list A) : option nat :=
  match l with
  | [] => None
  | x :: l' => if p x then Some 0%nat else S <$> findIndex p l'
  end.

(** [arr.splice(index, 1)] and [arr.splice(index, 0, item)]. *)
Definition splice_remove {A} (index : nat) (l : list A) : list A :=
  delete index l.

Definition splice_insert {A} (index : nat) (item : A) (l : list A) : list A :=
  take index l ++ item :: drop index l.

Definition FolderNamesHiddenByDefault : list string := ["spam"; "trash"].

(** ** The store *)

Record Store := mkStore {
  _showingHiddenItems : bool;
  _items : list Message;
  _thread : option Thread;
  _itemsExpanded : gmap string Expansion;
  _itemsLoading : bool;
  _lastMarkedAsReadThreadId : option string;
  _onFocusChangedTimer : option nat;       (* handle of the pending timer *)
  ownEmailAddresses : list string;
  strangerEmailAddress : string
}.

(** [_setStoreDefaults] together with the field initialisers. *)
Definition _setStoreDefaults : Store :=
  {| _showingHiddenItems := false; _items := []; _thread := None;
     _itemsExpanded := ∅; _itemsLoading := false;
     _lastMarkedAsReadThreadId := None; _onFocusChangedTimer := None;
     ownEmailAddresses := []; strangerEmailAddress := "" |}.

(** ** Public accessors

    [viewing] is [FocusedPerspectiveStore.current().categoriesSharedRole()]. *)

Definition items_filter (viewing : option string) (item : Message) : bool :=
  let viewingHiddenCategory := includes FolderNamesHiddenByDefault viewing in
  let inHidden := includes FolderNamesHiddenByDefault (Some (role (folder item))) in
  if viewingHiddenCategory then inHidden || draft item else negb inHidden.

Definition items (viewing : option string) (s : Store) : list Message :=
  if _showingHiddenItems s then _items s
  else List.filter (items_filter viewing) (_items s).

Definition threadId_ (s : Store) : option string := thread_id <$> _thread s.


Definition hasCollapsedItems (s : Store) : bool :=
  (size (_itemsExpanded s) <? length (_items s))%nat.

Definition numberOfHiddenItems (viewing : option string) (s : Store) : Z :=
  Z.of_nat (length (_items s)) - Z.of_nat (length (items viewing s)).

Definition itemIds (s : Store) : list string := map msg_id (_items s).

Definition itemsLoading (s : Store) : bool := _itemsLoading s.

(** ** _sortItemsForDisplay *)

Definition isReplyDraft (item : Message) : bool :=
  draft item && truthy (replyToHeaderMessageId item).

(** First loop: [for (index = items.length - 1; index >= 0; index--)];
    the argument [n] is [index + 1]. *)
Fixpoint isolate_loop (n : nat) (items itemsInReplyTo : list Message)
  : list Message * list Message :=
  match n with
  | O => (items, itemsInReplyTo)
  | S index =>
      match items !! index with
      | Some item =>
          if isReplyDraft item
          then isolate_loop index (splice_remove index items) (itemsInReplyTo ++ [item])
          else isolate_loop index items itemsInReplyTo
      | None => isolate_loop index items itemsInReplyTo
      end
  end.

(** Inner loop: [for (index = 0; index < items.length; index++)]; [fuel]
    is [items.length - index]. The result is [Some] of the list after the
    [splice] when a target was found ([item = null; break]), [None] when
    the loop ran to the end. *)
Fixpoint scan_loop (fuel index : nat) (item : Message) (items : list Message)
  : option (list Message) :=
  match fuel with
  | O => None
  | S fuel' =>
      match items !! index with
      | Some other =>
          if bool_decide (replyToHeaderMessageId item = Some (headerMessageId other))
          then Some (splice_insert (index + 1) item items)
          else scan_loop fuel' (S index) item items
      | None => None
      end
  end.

(** Second loop: [for (item of itemsInReplyTo)]. *)
Fixpoint reinsert_loop (itemsInReplyTo items : list Message) : list Message :=
  match itemsInReplyTo with
  | [] => items
  | item :: rest =>
      match scan_loop (length items) 0 item items with
      | Some items' => reinsert_loop rest items'
      | None => reinsert_loop rest (items ++ [item])
      end
  end.

Definition _sortItemsForDisplay (items : list Message) : list Message :=
  let '(items, itemsInReplyTo) := isolate_loop (length items) items [] in
  reinsert_loop itemsInReplyTo items.

(** The re-threading as the specification words it: take the reply drafts
    out, then put each one back right after the first message whose
    [headerMessageId] is the draft's reference, or at the end. *)
Fixpoint insert_after_target (d : Message) (l : list Message) : list Message :=
  match l with
  | [] => [d]
  | other :: l' =>
      if bool_decide (replyToHeaderMessageId d = Some (headerMessageId other))
      then other :: d :: l'
      else other :: insert_after_target d l'
  end.

Definition rethread (items : list Message) : list Message :=
  fold_left (fun acc d => insert_after_target d acc)
    (rev (List.filter isReplyDraft items))
    (List.filter (fun m => negb (isReplyDraft m)) items).

(** [items.sort((a, b) => (a.date > b.date) ? 1 : -1)]. The comparator
    never answers 0, so for equal dates the order is whatever the engine's
    insertion step makes of it; the model is the insertion sort that
    places an element before the first one whose date is not smaller.
    For pairwise different dates every sorting algorithm agrees with it. *)
Fixpoint insert_by_date (a : Message) (l : list Message) : list Message :=
  match l with
  | [] => [a]
  | b :: l' => if (date a >? date b)%Z then b :: insert_by_date a l' else a :: b :: l'
  end.

Definition sort_by_date (l : list Message) : list Message :=
  fold_left (fun acc a => insert_by_date a acc) l [].

(** ** _expandItemsToDefault *)

(** [visibleItems.forEach((item, idx) => { if (item.draft) lastDraftIdx = idx })] *)
Fixpoint lastDraftIdx_loop (idx : Z) (visibleItems : list Message) (lastDraftIdx : Z) : Z :=
  match visibleItems with
  | [] => lastDraftIdx
  | item :: rest =>
      lastDraftIdx_loop (idx + 1) rest (if draft item then idx else lastDraftIdx)
  end.

Definition expands_by_default (len lastDraftIdx idx : Z) (item : Message) : bool :=
  unread item || (idx =? lastDraftIdx)%Z || (idx =? len - 1)%Z.

(** [for (let idx = 0; idx < visibleItems.length; idx++)] *)
Fixpoint expand_loop (len lastDraftIdx idx : Z) (rest : list Message)
    (expanded : gmap string Expansion) : gmap string Expansion :=
  match rest with
  | [] => expanded
  | item :: rest' =>
      expand_loop len lastDraftIdx (idx + 1) rest'
        (if expands_by_default len lastDraftIdx idx item
         then <[msg_id item := Default]> expanded else expanded)
  end.

Definition expand_defaults (visibleItems : list Message)
    (expanded : gmap string Expansion) : gmap string Expansion :=
  let lastDraftIdx := lastDraftIdx_loop 0 visibleItems (-1) in
  expand_loop (Z.of_nat (length visibleItems)) lastDraftIdx 0 visibleItems expanded.

(** ** The world around the store *)

(** Continuations of in-flight database queries. [KMessages] carries the
    identity of the [messagesToList] array that its closure shares with
    the other continuations of the same [_fetchFromCachePart2] call. *)
Inductive Cont :=
| KCalendars                                            (* _fetchFromCache *)
| KThreads (search : string)                            (* fetchThreads *)
| KMessages (pile : nat) (index : nat) (ofThread : string). (* _fetchFromCachePart2 *)

Inductive QueryResult :=
| RCalendars (ownEmailCalendars : list Calendar)
| RThreads (foundThreads : list Thread)
| RMessages (found : list Message).

Inductive TimerCallback :=
| TFocus                                                (* _onFocusChanged *)
| TMarkAsRead (markAsReadId : string).                  (* _markAsRead *)

Record Timer := mkTimer { handle : nat; deadline : Z; callback : TimerCallback }.

(** What the store does to its collaborators and observers. *)
Inductive Effect :=
| Trigger                                   (* this.trigger() *)
| SetTitle (title : string)                 (* getCurrentWindow().setTitle *)
| FetchBodies (missing : list Message)      (* Actions.fetchBodies *)
| FetchFile (file : File)                   (* Actions.fetchFile *)
| QueueTask (thread : Thread)               (* taskForInvertingUnread, canBeUndone: false *)
| Uncaught.                                 (* a TypeError leaving a continuation *)

Record World := mkWorld {
  store : Store;
  focused : option Thread;        (* FocusedContentStore.focused('thread') *)
  viewing : option string;        (* ...current().categoriesSharedRole() *)
  markAsReadDelay : Z;            (* core.reading.markAsReadDelay *)
  now : Z;                        (* clock, in ms *)
  next_handle : nat;
  timers : list Timer;            (* armed timers, in the order they were armed *)
  pending : list Cont;            (* queries in flight *)
  piles : list (list Message);    (* the messagesToList arrays *)
  effects : list Effect           (* oldest first *)
}.

Definition initial_world : World :=
  {| store := _setStoreDefaults; focused := None; viewing := None;
     markAsReadDelay := 500; now := 0; next_handle := 0; timers := [];
     pending := []; piles := []; effects := [] |}.

(** Field updates. *)
Definition upd_store (f : Store -> Store) (w : World) : World :=
  {| store := f (store w); focused := focused w; viewing := viewing w;
     markAsReadDelay := markAsReadDelay w; now := now w;
     next_handle := next_handle w; timers := timers w; pending := pending w;
     piles := piles w; effects := effects w |}.

Definition set_focused (x : option Thread) (w : World) : World :=
  {| store := store w; focused := x; viewing := viewing w;
     markAsReadDelay := markAsReadDelay w; now := now w;
     next_handle := next_handle w; timers := timers w; pending := pending w;
     piles := piles w; effects := effects w |}.

Definition set_viewing (x : option string) (w : World) : World :=
  {| store := store w; focused := focused w; viewing := x;
     markAsReadDelay := markAsReadDelay w; now := now w;
     next_handle := next_handle w; timers := timers w; pending := pending w;
     piles := piles w; effects := effects w |}.

Definition set_now (x : Z) (w : World) : World :=
  {| store := store w; focused := focused w; viewing := viewing w;
     markAsReadDelay := markAsReadDelay w; now := x;
     next_handle := next_handle w; timers := timers w; pending := pending w;
     piles := piles w; effects := effects w |}.

Definition set_timers (n : nat) (x : list Timer) (w : World) : World :=
  {| store := store w; focused := focused w; viewing := viewing w;
     markAsReadDelay := markAsReadDelay w; now := now w;
     next_handle := n; timers := x; pending := pending w;
     piles := piles w; effects := effects w |}.

Definition set_pending (x : list Cont) (w : World) : World :=
  {| store := store w; focused := focused w; viewing := viewing w;
     markAsReadDelay := markAsReadDelay w; now := now w;
     next_handle := next_handle w; timers := timers w; pending := x;
     piles := piles w; effects := effects w |}.

Definition set_piles (x : list (list Message)) (w : World) : World :=
  {| store := store w; focused := focused w; viewing := viewing w;
     markAsReadDelay := markAsReadDelay w; now := now w;
     next_handle := next_handle w; timers := timers w; pending := pending w;
     piles := x; effects := effects w |}.

Definition emit (es : list Effect) (w : World) : World :=
  {| store := store w; focused := focused w; viewing := viewing w;
     markAsReadDelay := markAsReadDelay w; now := now w;
     next_handle := next_handle w; timers := timers w; pending := pending w;
     piles := piles w; effects := effects w ++ es |}.

Definition set_showingHiddenItems (x : bool) (s : Store) : Store :=
  {| _showingHiddenItems := x; _items := _items s; _thread := _thread s;
     _itemsExpanded := _itemsExpanded s; _itemsLoading := _itemsLoading s;
     _lastMarkedAsReadThreadId := _lastMarkedAsReadThreadId s;
     _onFocusChangedTimer := _onFocusChangedTimer s;
     ownEmailAddresses := ownEmailAddresses s;
     strangerEmailAddress := strangerEmailAddress s |}.

Definition set_items (x : list Message) (s : Store) : Store :=
  {| _showingHiddenItems := _showingHiddenItems s; _items := x; _thread := _thread s;
     _itemsExpanded := _itemsExpanded s; _itemsLoading := _itemsLoading s;
     _lastMarkedAsReadThreadId := _lastMarkedAsReadThreadId s;
     _onFocusChangedTimer := _onFocusChangedTimer s;
     ownEmailAddresses := ownEmailAddresses s;
     strangerEmailAddress := strangerEmailAddress s |}.

Definition set_thread (x : option Thread) (s : Store) : Store :=
  {| _showingHiddenItems := _showingHiddenItems s; _items := _items s; _thread := x;
     _itemsExpanded := _itemsExpanded s; _itemsLoading := _itemsLoading s;
     _lastMarkedAsReadThreadId := _lastMarkedAsReadThreadId s;
     _onFocusChangedTimer := _onFocusChangedTimer s;
     ownEmailAddresses := ownEmailAddresses s;
     strangerEmailAddress := strangerEmailAddress s |}.

Definition set_itemsExpanded (x : gmap string Expansion) (s : Store) : Store :=
  {| _showingHiddenItems := _showingHiddenItems s; _items := _items s; _thread := _thread s;
     _itemsExpanded := x; _itemsLoading := _itemsLoading s;
     _lastMarkedAsReadThreadId := _lastMarkedAsReadThreadId s;
     _onFocusChangedTimer := _onFocusChangedTimer s;
     ownEmailAddresses := ownEmailAddresses s;
     strangerEmailAddress := strangerEmailAddress s |}.

Definition set_itemsLoading (x : bool) (s : Store) : Store :=
  {| _showingHiddenItems := _showingHiddenItems s; _items := _items s; _thread := _thread s;
     _itemsExpanded := _itemsExpanded s; _itemsLoading := x;
     _lastMarkedAsReadThreadId := _lastMarkedAsReadThreadId s;
     _onFocusChangedTimer := _onFocusChangedTimer s;
     ownEmailAddresses := ownEmailAddresses s;
     strangerEmailAddress := strangerEmailAddress s |}.

Definition set_lastMarkedAsReadThreadId (x : option string) (s : Store) : Store :=
  {| _showingHiddenItems := _showingHiddenItems s; _items := _items s; _thread := _thread s;
     _itemsExpanded := _itemsExpanded s; _itemsLoading := _itemsLoading s;
     _lastMarkedAsReadThreadId := x;
     _onFocusChangedTimer := _onFocusChangedTimer s;
     ownEmailAddresses := ownEmailAddresses s;
     strangerEmailAddress := strangerEmailAddress s |}.

Definition set_onFocusChangedTimer (x : option nat) (s : Store) : Store :=
  {| _showingHiddenItems := _showingHiddenItems s; _items := _items s; _thread := _thread s;
     _itemsExpanded := _itemsExpanded s; _itemsLoading := _itemsLoading s;
     _lastMarkedAsReadThreadId := _lastMarkedAsReadThreadId s;
     _onFocusChangedTimer := x;
     ownEmailAddresses := ownEmailAddresses s;
     strangerEmailAddress := strangerEmailAddress s |}.

Definition set_ownEmailAddresses (x : list string) (s : Store) : Store :=
  {| _showingHiddenItems := _showingHiddenItems s; _items := _items s; _thread := _thread s;
     _itemsExpanded := _itemsExpanded s; _itemsLoading := _itemsLoading s;
     _lastMarkedAsReadThreadId := _lastMarkedAsReadThreadId s;
     _onFocusChangedTimer := _onFocusChangedTimer s;
     ownEmailAddresses := x;
     strangerEmailAddress := strangerEmailAddress s |}.

Definition set_strangerEmailAddress (x : string) (s : Store) : Store :=
  {| _showingHiddenItems := _showingHiddenItems s; _items := _items s; _thread := _thread s;
     _itemsExpanded := _itemsExpanded s; _itemsLoading := _itemsLoading s;
     _lastMarkedAsReadThreadId := _lastMarkedAsReadThreadId s;
     _onFocusChangedTimer := _onFocusChangedTimer s;
     ownEmailAddresses := ownEmailAddresses s;
     strangerEmailAddress := x |}.

(** [setTimeout] and [clearTimeout]. *)
Definition setTimeout (cb : TimerCallback) (delay : Z) (w : World) : nat * World :=
  let h := next_handle w in
  (h, set_timers (S h) (timers w ++ [mkTimer h (now w + delay) cb]) w).

Definition clearTimeout (h : nat) (w : World) : World :=
  set_timers (next_handle w)
    (List.filter (fun tm => negb (handle tm =? h)%nat) (timers w)) w.

(** Handing a query to the database with a continuation for its result. *)
Definition query_then (k : Cont) (w : World) : World :=
  set_pending (pending w ++ [k]) w.

Definition trigger (w : World) : World := emit [Trigger] w.

(** ** Private methods *)

Definition _setWindowTitle (w : World) : World :=
  let title := "Mailspring" +:+
    match _thread (store w) with
    | Some th => " · " +:+ subject th
    | None => ""
    end in
  emit [SetTitle title] w.

Definition _fetchMissingBodies (items : list Message) (w : World) : World :=
  let missing := List.filter (fun i => bool_decide (body i = None)) items in
  if (0 <? length missing)%nat then emit [FetchBodies missing] w else w.

(** [this._itemsExpanded[key]], read for its truthiness. [_itemsExpanded]
    is a plain object ([{}]), so the lookup finds the object's own entry
    and, failing that, the property of that name which every plain object
    inherits from [Object.prototype]. The own values are the strings
    ['default'] and ['explicit'], the inherited ones are functions (for
    [__proto__], the prototype object): all of them truthy. Writing is
    modelled as insertion into the own entries, which is what JavaScript
    does for every key but [__proto__]. *)
Definition ObjectPrototypeProperties : list string :=
  ["constructor"; "__defineGetter__"; "__defineSetter__"; "hasOwnProperty";
   "__lookupGetter__"; "__lookupSetter__"; "isPrototypeOf"; "propertyIsEnumerable";
   "toString"; "valueOf"; "__proto__"; "toLocaleString"].

Definition inherited (key : string) : bool :=
  existsb (String.eqb key) ObjectPrototypeProperties.

Definition truthy_property (obj : gmap string Expansion) (key : string) : bool :=
  match obj !! key with
  | Some _ => true
  | None => inherited key
  end.

Definition _fetchExpandedAttachments (items : list Message) (w : World) : World :=
  emit (flat_map (fun item =>
          if truthy_property (_itemsExpanded (store w)) (msg_id item)
          then map FetchFile (files item)
          else []) items) w.

Definition _expandItemsToDefault (w : World) : World :=
  upd_store (fun s =>
    set_itemsExpanded (expand_defaults (items (viewing w) s) (_itemsExpanded s)) s) w.

Definition _expandItem (item : Message) (w : World) : World :=
  let w := upd_store (fun s =>
             set_itemsExpanded (<[msg_id item := Explicit]> (_itemsExpanded s)) s) w in
  _fetchExpandedAttachments [item] w.

Definition _collapseItem (item : Message) (w : World) : World :=
  upd_store (fun s => set_itemsExpanded (delete (msg_id item) (_itemsExpanded s)) s) w.

Definition _markAsRead (w : World) : World :=
  match _thread (store w) with
  | None => w
  | Some th =>
      if bool_decide (_lastMarkedAsReadThreadId (store w) = Some (thread_id th)) then w
      else
        let w := upd_store (set_lastMarkedAsReadThreadId (Some (thread_id th))) w in
        if thread_unread th then
          if (markAsReadDelay w <? 0)%Z then w
          else snd (setTimeout (TMarkAsRead (thread_id th)) (markAsReadDelay w) w)
        else w
  end.

(** The body of the timer armed by [_markAsRead]. *)
Definition markAsRead_timeout (markAsReadId : string) (w : World) : World :=
  match _thread (store w) with
  | Some th =>
      if negb (String.eqb markAsReadId (thread_id th)) || negb (thread_unread th)
      then w
      else emit [QueueTask th] w
  | None => w
  end.

(** *** The fetch: _fetchFromCache, fetchThreads, _fetchFromCachePart2 *)

Definition _fetchFromCache (w : World) : World :=
  match _thread (store w) with
  | None => w
  | Some _ => query_then KCalendars w
  end.

Definition fetchThreads (w : World) : World :=
  let email := strangerEmailAddress (store w) in
  if String.eqb email "" then w
  else query_then (KThreads ("from:" +:+ email)) w.

(** The continuation of the calendar query. Reading
    [self._thread.participants] throws when the thread has become null. *)
Definition fetchFromCache_then (ownEmailCalendars : list Calendar) (w : World) : World :=
  let w := upd_store (set_ownEmailAddresses (map cal_name ownEmailCalendars)) w in
  match _thread (store w) with
  | None => emit [Uncaught] w
  | Some th =>
      let w := fold_left (fun w value =>
                 let isStrangerEmail :=
                   negb (existsb (String.eqb (email value)) (ownEmailAddresses (store w))) in
                 if isStrangerEmail
                 then upd_store (set_strangerEmailAddress (email value)) w
                 else w) (participants th) w in
      fetchThreads w
  end.

(** [for (const [index, thread] of threads.entries())]: one message query
    per found thread, all sharing the fresh [messagesToList]. *)
Fixpoint part2_loop (pile index : nat) (threads : list Thread) (w : World) : World :=
  match threads with
  | [] => w
  | thread :: rest =>
      part2_loop pile (S index) rest (query_then (KMessages pile index (thread_id thread)) w)
  end.

Definition _fetchFromCachePart2 (threads : list Thread) (w : World) : World :=
  let pile := length (piles w) in
  part2_loop pile 0 threads (set_piles (piles w ++ [[]]) w).

Definition fill_body (message : Message) : Message :=
  if truthy (body message) then message
  else
    match snippet message with
    | Some s =>
        if truthy (Some s) then set_body (Some ("SNIPPET: " +:+ s)) message
        else set_body (Some "MESSAGE TOO OLD") message
    | None => set_body (Some "MESSAGE TOO OLD") message
    end.

(** The continuation of one message query of [_fetchFromCachePart2]. *)
Definition part2_then (pile : nat) (found : list Message) (w : World) : World :=
  let messagesToList := default [] (piles w !! pile) ++ map fill_body found in
  let w := set_piles (<[pile := messagesToList]> (piles w)) w in
  let w := upd_store (set_items
             (List.filter (fun m => negb (msg_isHidden m)) messagesToList)) w in
  let w := upd_store (fun s => set_items (_sortItemsForDisplay (_items s)) s) w in
  let w := upd_store (fun s => set_items (sort_by_date (_items s)) s) w in
  let w := _expandItemsToDefault w in
  let w := if _itemsLoading (store w)
           then _fetchMissingBodies (_items (store w)) w else w in
  let w := _fetchExpandedAttachments (_items (store w)) w in
  let w := upd_store (set_itemsLoading false) w in
  let w := _markAsRead w in
  trigger w.

(** *** Focus changes *)

Definition _onApplyFocusChange (w : World) : World :=
  let focused := focused w in
  let w := match focused with
           | None => upd_store (set_lastMarkedAsReadThreadId None) w
           | Some _ => w
           end in
  if bool_decide (threadId_ (store w) = (thread_id <$> focused)) then w
  else
    let w := upd_store (fun s =>
               set_itemsExpanded ∅
                 (set_showingHiddenItems false
                   (set_itemsLoading true
                     (set_items [] (set_thread focused s))))) w in
    let w := trigger w in
    let w := _setWindowTitle w in
    _fetchFromCache w.

Definition _onFocusChanged (impactsThread : bool) (w : World) : World :=
  if negb impactsThread then w
  else
    let w := match _onFocusChangedTimer (store w) with
             | None => _onApplyFocusChange w
             | Some h => clearTimeout h w
             end in
    let '(h, w) := setTimeout TFocus 100 w in
    upd_store (set_onFocusChangedTimer (Some h)) w.

(** The body of the timer armed by [_onFocusChanged]. *)
Definition focusChanged_timeout (w : World) : World :=
  _onApplyFocusChange (upd_store (set_onFocusChangedTimer None) w).

(** *** Database changes *)

Inductive ChangeType := persist | unpersist | other_type.

(** [change.objectClass] is the class of [change.objects]. *)
Inductive ChangeObjects :=
| MessageObjects (objs : list Message)
| ThreadObjects (objs : list Thread)
| OtherObjects.

Record DatabaseChangeRecord := mkChange {
  change_type : ChangeType;
  objects : ChangeObjects
}.

Definition not_hidden (m : Message) : bool := negb (msg_isHidden m).

Definition _onDataChanged (change : DatabaseChangeRecord) (w : World) : World :=
  match _thread (store w) with
  | None => w
  | Some th =>
      match objects change with
      | MessageObjects objs =>
          let inDisplayedThread :=
            existsb (fun obj => String.eqb (threadId obj) (thread_id th)) objs in
          if negb inDisplayedThread then w
          else
            match objs with
            | [item] =>
                if draft item then
                  let itemIndex :=
                    findIndex (fun msg => String.eqb (msg_id msg) (msg_id item))
                      (_items (store w)) in
                  match change_type change, itemIndex with
                  | persist, None =>
                      let w := upd_store (fun s =>
                                 set_items (List.filter not_hidden (_items s ++ [item])) s) w in
                      let w := upd_store (fun s =>
                                 set_items (_sortItemsForDisplay (_items s)) s) w in
                      let w := _expandItemsToDefault w in
                      trigger w
                  | unpersist, Some itemIndex =>
                      let w := upd_store (fun s =>
                                 set_items (List.filter not_hidden (_items s)) s) w in
                      let w := upd_store (fun s =>
                                 set_items (splice_remove itemIndex (_items s)) s) w in
                      let w := _expandItemsToDefault w in
                      trigger w
                  | _, _ => _fetchFromCache w
                  end
                else _fetchFromCache w
            | _ => _fetchFromCache w
            end
      | ThreadObjects objs =>
          match List.find (fun t => String.eqb (thread_id t) (thread_id th)) objs with
          | Some updatedThread =>
              _fetchFromCache (upd_store (set_thread (Some updatedThread)) w)
          | None => w
          end
      | OtherObjects => w
      end
  end.

(** *** Actions

    [_onPopoutThread], [_onFocusThreadMainWindow] and
    [_onExtensionsChanged] neither read nor write the fields of the store
    and are left out. *)

Definition _onPerspectiveChanged (w : World) : World := trigger w.

Definition _onToggleAllMessagesExpanded (w : World) : World :=
  let w := if hasCollapsedItems (store w)
           then fold_left (fun w i => _expandItem i w) (_items (store w)) w
           else fold_left (fun w i => _collapseItem i w)
                  (take (length (_items (store w)) - 1) (_items (store w))) w in
  trigger w.

Definition _onToggleHiddenMessages (w : World) : World :=
  let w := upd_store (fun s =>
             set_showingHiddenItems (negb (_showingHiddenItems s)) s) w in
  let w := _expandItemsToDefault w in
  let w := _fetchExpandedAttachments (_items (store w)) w in
  trigger w.

Definition _onToggleMessageIdExpanded (id : string) (w : World) : World :=
  match List.find (fun i => String.eqb (msg_id i) id) (_items (store w)) with
  | None => w
  | Some item =>
      let w := if truthy_property (_itemsExpanded (store w)) id
               then _collapseItem item w
               else _expandItem item w in
      trigger w
  end.

(** ** The event loop *)

Inductive Event :=
| DataChanged (change : DatabaseChangeRecord)       (* DatabaseStore triggers *)
| FocusChanged (impactsThread : bool) (focused : option Thread)
                                                    (* FocusedContentStore triggers *)
| PerspectiveChanged (viewing : option string)      (* FocusedPerspectiveStore triggers *)
| ToggleMessageIdExpanded (id : string)
| ToggleAllMessagesExpanded
| ToggleHiddenMessages
| Resolve (k : nat) (r : QueryResult)               (* the k-th query in flight answers *)
| Idle.                                             (* nothing but time passing *)

Definition run_callback (cb : TimerCallback) (w : World) : World :=
  match cb with
  | TFocus => focusChanged_timeout w
  | TMarkAsRead markAsReadId => markAsRead_timeout markAsReadId w
  end.

(** A due timer runs unless it was cleared in the meantime. *)
Definition fire (tm : Timer) (w : World) : World :=
  if existsb (fun x => (handle x =? handle tm)%nat) (timers w)
  then run_callback (callback tm) (clearTimeout (handle tm) w)
  else w.

Fixpoint insert_by_deadline (tm : Timer) (l : list Timer) : list Timer :=
  match l with
  | [] => [tm]
  | x :: l' =>
      if (deadline tm <? deadline x)%Z then tm :: x :: l'
      else x :: insert_by_deadline tm l'
  end.

(** The timers due at time [t], earliest deadline first, and in the order
    they were armed among equal deadlines. *)
Definition due_timers (t : Z) (l : list Timer) : list Timer :=
  fold_left (fun acc tm => insert_by_deadline tm acc)
    (List.filter (fun tm => (deadline tm <=? t)%Z) l) [].

Definition advance (t : Z) (w : World) : World :=
  set_now (Z.max (now w) t) (fold_left (fun w tm => fire tm w) (due_timers t (timers w)) w).

Definition resolve (k : nat) (r : QueryResult) (w : World) : World :=
  match pending w !! k, r with
  | Some KCalendars, RCalendars ownEmailCalendars =>
      fetchFromCache_then ownEmailCalendars (set_pending (delete k (pending w)) w)
  | Some (KThreads _), RThreads foundThreads =>
      _fetchFromCachePart2 foundThreads (set_pending (delete k (pending w)) w)
  | Some (KMessages pile _ _), RMessages found =>
      part2_then pile found (set_pending (delete k (pending w)) w)
  | _, _ => w
  end.

Definition handle_event (e : Event) (w : World) : World :=
  match e with
  | DataChanged change => _onDataChanged change w
  | FocusChanged impactsThread focused =>
      _onFocusChanged impactsThread (set_focused focused w)
  | PerspectiveChanged viewing => _onPerspectiveChanged (set_viewing viewing w)
  | ToggleMessageIdExpanded id => _onToggleMessageIdExpanded id w
  | ToggleAllMessagesExpanded => _onToggleAllMessagesExpanded w
  | ToggleHiddenMessages => _onToggleHiddenMessages w
  | Resolve k r => resolve k r w
  | Idle => w
  end.

(** Event [e] arrives at time [t]: the timers that are due run first. *)
Definition deliver (t : Z) (e : Event) (w : World) : World :=
  handle_event e (advance t w).

Fixpoint run (evs : list (Z * Event)) (w : World) : World :=
  match evs with
  | [] => w
  | (t, e) :: rest => run rest (deliver t e w)
  end.

(** ** Vocabulary of the statements *)

(** Number of messages of [l] whose id is [i]. *)
Definition occurrences (i : string) (l : list Message) : nat :=
  length (List.filter (fun m => String.eqb (msg_id m) i) l).

Definition has_body (m : Message) : bool := truthy (body m).

(** The default-expand rule for the message at position [k] of the
    visible list: unread, or the last draft, or the last message. *)
Definition default_rule (visible : list Message) (k : nat) (item : Message) : Prop :=
  unread item = true
  \/ (draft item = true /\
      forall j item', (k < j)%nat -> visible !! j = Some item' -> draft item' = false)
  \/ S k = length visible.

Definition not_task (e : Effect) : bool :=
  match e with QueueTask _ => false | _ => true end.

(** What the observers and the database see of a world, apart from the
    clock, the timers and the mark-as-read tasks that the timers of
    [_markAsRead] queue. *)
Definition view (w : World) : Store * list Effect * list Cont * list (list Message) :=
  (set_onFocusChangedTimer None (store w), List.filter not_task (effects w),
   pending w, piles w).

(** Two facts that hold of every world the event loop can reach: the
    cached list holds no message that [isHidden()], and the accumulated
    query results all carry a body. *)
Definition items_not_hidden (w : World) : Prop :=
  Forall (fun m => not_hidden m = true) (_items (store w)).

Definition piles_have_bodies (w : World) : Prop :=
  Forall (Forall (fun m => has_body m = true)) (piles w).

(** The timers are armed with fresh handles. *)
Definition handles_fresh (w : World) : Prop :=
  Forall (fun tm => (handle tm < next_handle w)%nat) (timers w).

Definition count_triggers (es : list Effect) : nat :=
  length (List.filter (fun e => match e with Trigger => true | _ => false end) es).

(** ** Sample data *)

Module Sample.

Definition message (i t : string) (d : Z) (isDraft isUnread : bool)
    (inReplyTo : option string) : Message :=
  {| msg_id := i; threadId := t; body := Some "text"; snippet := None;
     headerMessageId := "h-" +:+ i; replyToHeaderMessageId := inReplyTo;
     date := d; draft := isDraft; unread := isUnread; files := [];
     folder := mkFolder "inbox"; msg_isHidden := false |}.

Definition me : Calendar := mkCalendar "me@example.com".

Definition threadA : Thread :=
  mkThread "A" "Lunch" [mkContact "me@example.com"; mkContact "bob@example.com"] false.
Definition threadA2 : Thread :=
  mkThread "A2" "Dinner" [mkContact "me@example.com"; mkContact "bob@example.com"] false.
Definition threadB : Thread :=
  mkThread "B" "Invoice" [mkContact "me@example.com"; mkContact "eve@example.com"] false.
Definition threadC : Thread :=
  mkThread "C" "Minutes" [mkContact "me@example.com"; mkContact "dan@example.com"] false.

Definition m1 : Message := message "m1" "A" 1 false false None.
Definition m2 : Message := message "m2" "A" 2 false false None.
Definition d1 : Message := message "d1" "A" 3 true false (Some "h-m1").
Definition d2 : Message := message "d2" "A" 4 true false None.
Definition u0 : Message := message "u0" "A" 0 false true None.
Definition a2 : Message := message "a2" "A2" 5 false false None.
Definition junk : Message :=
  {| msg_id := "junk"; threadId := "A"; body := Some "text"; snippet := None;
     headerMessageId := "h-junk"; replyToHeaderMessageId := None;
     date := 8; draft := false; unread := false; files := [];
     folder := mkFolder "spam"; msg_isHidden := false |}.

(** A message that arrives without a body and with a snippet, and one
    with neither. *)
Definition bare : Message :=
  {| msg_id := "bare"; threadId := "A"; body := None; snippet := Some "hi";
     headerMessageId := "h-bare"; replyToHeaderMessageId := None;
     date := 6; draft := false; unread := false; files := [];
     folder := mkFolder "inbox"; msg_isHidden := false |}.
Definition old : Message :=
  {| msg_id := "old"; threadId := "A"; body := None; snippet := None;
     headerMessageId := "h-old"; replyToHeaderMessageId := None;
     date := 7; draft := false; unread := false; files := [];
     folder := mkFolder "inbox"; msg_isHidden := false |}.

(** Thread A gets the focus at time 0, the calendar query and the thread
    search answer; the message query of thread A is then in flight. *)
Definition focus_A (found : list Thread) : list (Z * Event) :=
  [ (0%Z, FocusChanged true (Some threadA));
    (10%Z, Resolve 0 (RCalendars [me]));
    (20%Z, Resolve 0 (RThreads found)) ].

Definition fetching_A : World := run (focus_A [threadA]) initial_world.

(** ... and the message query answers with [found]. *)
Definition loaded_A (found : list Message) : World :=
  deliver 30 (Resolve 0 (RMessages found)) fetching_A.

End Sample.

(** ** The claims that fail, as they are worded *)


Module Scenario.
Import Sample.



End Scenario.

(** The unpersist fast path as C7 words it: remove the message, filter,
    re-sort. *)
Definition unpersist_removes_and_resorts (w : World) (item : Message) : Prop :=
  let w' := _onDataChanged (mkChange unpersist (MessageObjects [item])) w in
  exists idx removed,
    _items (store w) !! idx = Some removed /\ msg_id removed = msg_id item
    /\ _items (store w')
       = _sortItemsForDisplay (List.filter not_hidden (delete idx (_items (store w)))).

(** The invariant of the expansion map as C6 words it. *)
Definition expansion_within_list (w : World) : Prop :=
  forall i, is_Some (_itemsExpanded (store w) !! i) -> In i (itemIds (store w)).

Module Unpersist.
Import Sample.

(** Thread A is loaded with its four messages, the draft [d2] last; then
    [d2] is deleted. *)
Definition loading : list (Z * Event) :=
  focus_A [threadA] ++ [(30%Z, Resolve 0 (RMessages [m1; m2; d1; d2]))].

Definition loaded : World := run loading initial_world.

Definition draft_removed : World :=
  deliver 40 (DataChanged (mkChange unpersist (MessageObjects [d2]))) loaded.

End Unpersist.

Module Stale.
Import Sample.

(** Thread A is loaded with two read messages and a draft; then the draft
    is deleted. *)
Definition loading : list (Z * Event) :=
  focus_A [threadA] ++ [(30%Z, Resolve 0 (RMessages [m1; m2; d2]))].

Definition loaded : World := run loading initial_world.

Definition draft_removed : World :=
  deliver 40 (DataChanged (mkChange unpersist (MessageObjects [d2]))) loaded.

End Stale.

(** The placeholder as C9 words it: a message that arrives without a body
    and with a snippet is listed with the snippet text as its body. *)
Definition loads_snippet_as_body (delivered : list Message) (w' : World) : Prop :=
  forall m s, In m delivered -> body m = None -> snippet m = Some s ->
    In (set_body (Some s) m) (_items (store w')).

Module Race.
Import Sample.

(** The message query of thread A is in flight when the focus moves to
    [target] at time 200; the query answers at time 210. *)
Definition refocused (target : option Thread) : World :=
  deliver 200 (FocusChanged true target) fetching_A.

Definition late_answer (target : option Thread) : World :=
  deliver 210 (Resolve 0 (RMessages [m1; m2])) (refocused target).

End Race.

Module Cycle.
Import Sample.

(** One fetch for thread A in which the thread search finds two threads:
    two message queries are in flight, and answer one after the other. *)
Definition two_queries : World := run (focus_A [threadA; threadA2]) initial_world.
Definition first_answer : World :=
  deliver 30 (Resolve 0 (RMessages [m1; m2])) two_queries.
Definition second_answer : World :=
  deliver 40 (Resolve 0 (RMessages [a2])) first_answer.

(** ... and one in which it finds none. *)
Definition no_query : World := run (focus_A []) initial_world.

End Cycle.

Module Unread.
Import Sample.

(** An unread thread is focused and loaded at time 30; the mark-as-read
    delay of 500 ms has passed at time 600. *)
Definition threadU : Thread :=
  mkThread "U" "News" [mkContact "me@example.com"; mkContact "bob@example.com"] true.

Definition loaded : World :=
  run [ (0%Z, FocusChanged true (Some threadU));
        (10%Z, Resolve 0 (RCalendars [me]));
        (20%Z, Resolve 0 (RThreads [threadU]));
        (30%Z, Resolve 0 (RMessages [u0; m1])) ] initial_world.

Definition later : World := deliver 600 Idle loaded.

End Unread.

(** ** The debounce of _onFocusChanged *)

Definition is_focus_timer (tm : Timer) : bool :=
  match callback tm with TFocus => true | TMarkAsRead _ => false end.

(** The part of a world that the timers live in, and what holds of it in
    every world the event loop can reach: handles are fresh and distinct,
    and an armed timer of [_onFocusChanged] is the one the store holds. *)
Definition timer_state (w : World) : list Timer * nat * option nat :=
  (timers w, next_handle w, _onFocusChangedTimer (store w)).

Definition sound (ts : list Timer * nat * option nat) : Prop :=
  let '(l, n, held) := ts in
  Forall (fun tm => (handle tm < n)%nat) l
  /\ List.NoDup (map handle l)
  /\ Forall (fun tm => is_focus_timer tm = true -> held = Some (handle tm)) l.

(** The timers were armed with fresh handles, and a timer of
    [_onFocusChanged] that is still armed is the one the store holds and
    is not due by time [t]. *)
Definition calm (t : Z) (w : World) : Prop :=
  handles_fresh w
  /\ Forall (fun tm =>
        is_focus_timer tm = true ->
        _onFocusChangedTimer (store w) = Some (handle tm) /\ (t < deadline tm)%Z)
       (timers w).

(** The world right after a focus change that arrived at time [t] with
    entity [X]: the focus timer runs out at [t + 100]; [v] is what can be
    seen of the store. *)
Definition debouncing (t : Z) (X : option Thread)
    (v : Store * list Effect * list Cont * list (list Message)) (w : World) : Prop :=
  view w = v /\ focused w = X /\ now w = t
  /\ exists h rest,
       _onFocusChangedTimer (store w) = Some h
       /\ next_handle w = S h
       /\ timers w = rest ++ [mkTimer h (t + 100) TFocus]
       /\ Forall (fun tm => is_focus_timer tm = false /\ (handle tm < h)%nat) rest.

Module Burst.
Import Sample.

(** Three focus changes 50 ms apart on an idle store, then quiet. *)
Definition first : World := deliver 0 (FocusChanged true (Some threadA)) initial_world.
Definition second : World := deliver 50 (FocusChanged true (Some threadB)) first.
Definition third : World := deliver 100 (FocusChanged true (Some threadC)) second.
Definition settled : World := deliver 300 Idle third.

(** The same three while the timer of an earlier focus change, to thread
    A at time 0, is still running. *)
Definition second' : World := deliver 40 (FocusChanged true (Some threadB)) first.
Definition third' : World := deliver 80 (FocusChanged true (Some threadC)) second'.
Definition fourth' : World := deliver 120 (FocusChanged true (Some threadA2)) third'.
Definition settled' : World := deliver 300 Idle fourth'.

End Burst.

(** The coalescing as C4 words it: of three focus changes in a burst, the
    first two change nothing that can be seen, and the third is applied
    when the timer runs out. *)
Definition applies_only_the_last (w : World) (t1 t2 t3 T : Z)
    (A B C : option Thread) : Prop :=
  let w1 := deliver t1 (FocusChanged true A) w in
  let w2 := deliver t2 (FocusChanged true B) w1 in
  let w3 := deliver t3 (FocusChanged true C) w2 in
  let w4 := deliver T Idle w3 in
  view w1 = view w /\ view w2 = view w /\ view w3 = view w
  /\ view w4 = view (_onApplyFocusChange (set_focused C w)).

(** ** Vocabulary of the further properties *)

(** The messages that stay where they are when the list is re-threaded. *)
Definition stays_put (m : Message) : bool := negb (isReplyDraft m).

(** Ascending dates, ties allowed. *)
Definition by_date (a b : Message) : Prop := (date a <= date b)%Z.

(** The participants of a thread that are none of the user's own
    addresses, as the continuation of [_fetchFromCache] tells them. *)
Definition strangers (own : list string) (th : Thread) : list Contact :=
  List.filter (fun value => negb (existsb (String.eqb (email value)) own))
    (participants th).

(** The effects the store is never seen to emit: a request for message
    bodies, and a mark-as-read task for a thread that is read. *)
Definition never_emitted (e : Effect) : bool :=
  match e with
  | FetchBodies _ => true
  | QueueTask th => negb (thread_unread th)
  | _ => false
  end.

(** The attachments of the messages of [l] that count as expanded -- those
    whose lookup in the expansion object is truthy -- in order. *)
Definition expanded_files (expanded : gmap string Expansion) (l : list Message)
  : list Effect :=
  flat_map (fun item =>
    if truthy_property expanded (msg_id item) then map FetchFile (files item) else []) l.

(** A query in flight that appends to [messagesToList] number [pile]. *)
Definition writes_to (pile : nat) (q : Cont) : bool :=
  match q with
  | KMessages p _ _ => (p =? pile)%nat
  | _ => false
  end.

(** Every message query in flight appends to an array that exists. *)
Definition piles_allocated (w : World) : Prop :=
  Forall (fun q => forall pile, writes_to pile q = true -> (pile < length (piles w))%nat)
    (pending w).

(** The handlers that at most start a fetch. *)
Definition starts_at_most_a_fetch (w w' : World) : Prop :=
  piles w' = piles w
  /\ (pending w' = pending w \/ pending w' = pending w ++ [KCalendars]).

(** * Properties *)

(** ** Lists *)

Lemma filter_length_perm {A} (p : A -> bool) (l l' : list A) :
  Permutation l l' -> length (List.filter p l) = length (List.filter p l').
Proof.
  induction 1 as [|x l l' _ IH|x y l|l l' l'' _ IH1 _ IH2]; cbn [List.filter].
  - done.
  - destruct (p x); cbn [length]; congruence.
  - destruct (p x), (p y); done.
  - congruence.
Qed.

Lemma filter_split_perm {A} (p : A -> bool) (l : list A) :
  Permutation (List.filter p l ++ List.filter (fun x => negb (p x)) l) l.
Proof.
  induction l as [|x l IH]; cbn [List.filter]; [done|].
  destruct (p x); cbn [negb app].
  - by constructor.
  - rewrite <- Permutation_middle. by constructor.
Qed.

Lemma findIndex_None {A} (p : A -> bool) (l : list A) :
  findIndex p l = None <-> List.filter p l = [].
Proof.
  induction l as [|x l IH]; cbn [findIndex List.filter]; [done|].
  destruct (p x); [split; discriminate|].
  rewrite <- IH. destruct (findIndex p l); cbn [fmap option_fmap option_map];
    split; intros H; (discriminate || done).
Qed.

Lemma findIndex_Some {A} (p : A -> bool) (l : list A) (i : nat) :
  findIndex p l = Some i ->
  exists x, l !! i = Some x /\ p x = true /\
    forall j y, (j < i)%nat -> l !! j = Some y -> p y = false.
Proof.
  revert i. induction l as [|x l IH]; intros i; cbn [findIndex]; [discriminate|].
  destruct (p x) eqn:Hx.
  - intros [= <-]. exists x. repeat split; [done|]. intros j y Hj. lia.
  - destruct (findIndex p l) as [i'|]; cbn [fmap option_fmap option_map]; [|discriminate].
    intros [= <-]. destruct (IH i' eq_refl) as (y & Hy & Hpy & Hlt).
    exists y. repeat split; [done..|].
    intros [|j] z Hj Hz; cbn in Hz; [congruence|]. apply (Hlt j); [lia|done].
Qed.

(** ** _sortItemsForDisplay *)

Lemma isolate_loop_spec (pre post acc : list Message) :
  isolate_loop (length pre) (pre ++ post) acc =
  (List.filter (fun m => negb (isReplyDraft m)) pre ++ post,
   acc ++ rev (List.filter isReplyDraft pre)).
Proof.
  revert post acc. induction pre as [|x pre IH] using rev_ind; intros post acc.
  - simpl. by rewrite app_nil_r.
  - rewrite length_app, Nat.add_1_r. cbn [isolate_loop].
    rewrite <- app_assoc. cbn [app].
    rewrite (list_lookup_middle pre post x (length pre) eq_refl).
    rewrite !List.filter_app. cbn [List.filter].
    destruct (isReplyDraft x) eqn:Hx; cbn [negb].
    + unfold splice_remove. rewrite delete_middle, IH.
      rewrite rev_app_distr, !app_nil_r. cbn [rev app].
      by rewrite <- app_assoc.
    + rewrite IH, !app_nil_r, <- app_assoc. done.
Qed.

Lemma scan_loop_spec (item : Message) (post pre : list Message) :
  Forall (fun other => replyToHeaderMessageId item <> Some (headerMessageId other)) pre ->
  match scan_loop (length post) (length pre) item (pre ++ post) with
  | Some l => l
  | None => (pre ++ post) ++ [item]
  end = pre ++ insert_after_target item post.
Proof.
  revert pre. induction post as [|other post IH]; intros pre Hpre.
  - simpl. by rewrite app_nil_r.
  - cbn [length scan_loop insert_after_target].
    rewrite (list_lookup_middle pre post other (length pre) eq_refl).
    case_bool_decide as Hm.
    + unfold splice_insert.
      replace (pre ++ other :: post) with ((pre ++ [other]) ++ post) by (by rewrite <- app_assoc).
      replace (length pre + 1)%nat with (length (pre ++ [other])) by (rewrite length_app; simpl; lia).
      rewrite take_app_length, drop_app_length. by rewrite <- app_assoc.
    + specialize (IH (pre ++ [other])).
      rewrite length_app, Nat.add_1_r, <- app_assoc in IH. cbn [app] in IH.
      rewrite IH; [by rewrite <- app_assoc|].
      apply Forall_app; split; [done|]. by constructor.
Qed.

Lemma reinsert_loop_spec (drafts items : list Message) :
  reinsert_loop drafts items =
  fold_left (fun acc d => insert_after_target d acc) drafts items.
Proof.
  revert items. induction drafts as [|d drafts IH]; intros items; [done|].
  cbn [reinsert_loop fold_left].
  pose proof (scan_loop_spec d items [] (List.Forall_nil _)) as H.
  cbn [length app] in H.
  destruct (scan_loop (length items) 0 d items); rewrite IH, H; done.
Qed.

Lemma sortItemsForDisplay_rethread (items : list Message) :
  _sortItemsForDisplay items = rethread items.
Proof.
  unfold _sortItemsForDisplay, rethread.
  pose proof (isolate_loop_spec items [] []) as H.
  rewrite !app_nil_r in H. rewrite H. cbn [app].
  apply reinsert_loop_spec.
Qed.

Lemma insert_after_target_perm (d : Message) (l : list Message) :
  Permutation (insert_after_target d l) (d :: l).
Proof.
  induction l as [|x l IH]; cbn [insert_after_target]; [done|].
  case_bool_decide.
  - apply perm_swap.
  - rewrite IH. apply perm_swap.
Qed.

Lemma insert_after_target_absent (d : Message) (l : list Message) :
  Forall (fun other => replyToHeaderMessageId d <> Some (headerMessageId other)) l ->
  insert_after_target d l = l ++ [d].
Proof.
  induction 1 as [|x l Hx _ IH]; cbn [insert_after_target app]; [done|].
  rewrite bool_decide_false by done. by rewrite IH.
Qed.

Lemma fold_insert_after_target_perm (drafts base : list Message) :
  Permutation (fold_left (fun acc d => insert_after_target d acc) drafts base)
              (drafts ++ base).
Proof.
  revert base. induction drafts as [|d drafts IH]; intros base; cbn [fold_left app]; [done|].
  rewrite IH, insert_after_target_perm. by rewrite Permutation_middle.
Qed.

Lemma sortItemsForDisplay_perm (items : list Message) :
  Permutation (_sortItemsForDisplay items) items.
Proof.
  rewrite sortItemsForDisplay_rethread. unfold rethread.
  rewrite fold_insert_after_target_perm, <- Permutation_rev.
  apply filter_split_perm.
Qed.

Lemma insert_by_date_perm (a : Message) (l : list Message) :
  Permutation (insert_by_date a l) (a :: l).
Proof.
  induction l as [|b l IH]; cbn [insert_by_date]; [done|].
  destruct (date a >? date b)%Z; [|done].
  rewrite IH. apply perm_swap.
Qed.

Lemma sort_by_date_perm (l : list Message) : Permutation (sort_by_date l) l.
Proof.
  unfold sort_by_date.
  assert (forall acc, Permutation (fold_left (fun acc a => insert_by_date a acc) l acc)
                        (l ++ acc)) as H.
  { induction l as [|a l IH]; intros acc; cbn [fold_left app]; [done|].
    rewrite IH, insert_by_date_perm. by rewrite Permutation_middle. }
  rewrite H. by rewrite app_nil_r.
Qed.

Lemma filter_none {A} (p : A -> bool) (l : list A) :
  Forall (fun x => p x = false) l -> List.filter p l = [].
Proof.
  induction 1 as [|x l Hx _ IH]; cbn [List.filter]; [done|]. by rewrite Hx.
Qed.

Lemma filter_all {A} (p : A -> bool) (l : list A) :
  Forall (fun x => p x = true) l -> List.filter p l = l.
Proof.
  induction 1 as [|x l Hx _ IH]; cbn [List.filter]; [done|]. by rewrite Hx, IH.
Qed.

Lemma insert_after_target_found (d target : Message) (before after : list Message) :
  Forall (fun other => replyToHeaderMessageId d <> Some (headerMessageId other)) before ->
  replyToHeaderMessageId d = Some (headerMessageId target) ->
  insert_after_target d (before ++ target :: after) = before ++ target :: d :: after.
Proof.
  intros Hb Ht. induction Hb as [|x l Hx _ IH]; cbn [insert_after_target app].
  - by rewrite bool_decide_true.
  - rewrite bool_decide_false by done. by rewrite IH.
Qed.

Lemma rethread_single (pre post : list Message) (D : Message) :
  Forall (fun m => isReplyDraft m = false) (pre ++ post) ->
  isReplyDraft D = true ->
  rethread (pre ++ D :: post) = insert_after_target D (pre ++ post).
Proof.
  intros Hbase HD. apply Forall_app in Hbase as [Hpre Hpost].
  unfold rethread. rewrite !List.filter_app. cbn [List.filter]. rewrite HD.
  cbn [negb]. rewrite !(filter_none isReplyDraft) by done.
  rewrite !filter_all; [done|..].
  - eapply Forall_impl; [exact Hpost|]. cbn. by intros ? ->.
  - eapply Forall_impl; [exact Hpre|]. cbn. by intros ? ->.
Qed.

(** C3. For every list, [_sortItemsForDisplay] takes the drafts that carry
    an in-reply-to reference out of the list and puts each one back right
    after the first message, scanning forward, whose [headerMessageId] is
    that reference, or at the end when there is none ([rethread]). For a
    single such draft [D] in a list whose other messages are [before ++
    target :: after], with [target] the first one [D] replies to, the
    result is [before ++ target :: D :: after]; without a target it is the
    other messages followed by [D]; and base order [M1; M2] with a draft
    [D] in reply to [M1] gives [M1; D; M2], wherever [D] stood. *)
Theorem sortItemsForDisplay_rethreads_reply_drafts :
  (forall items, _sortItemsForDisplay items = rethread items)
  /\ (forall pre post before target after D,
        pre ++ post = before ++ target :: after ->
        Forall (fun m => isReplyDraft m = false) (pre ++ post) ->
        isReplyDraft D = true ->
        Forall (fun other =>
          replyToHeaderMessageId D <> Some (headerMessageId other)) before ->
        replyToHeaderMessageId D = Some (headerMessageId target) ->
        _sortItemsForDisplay (pre ++ D :: post) = before ++ target :: D :: after)
  /\ (forall pre post D,
        Forall (fun m => isReplyDraft m = false) (pre ++ post) ->
        isReplyDraft D = true ->
        Forall (fun other =>
          replyToHeaderMessageId D <> Some (headerMessageId other)) (pre ++ post) ->
        _sortItemsForDisplay (pre ++ D :: post) = (pre ++ post) ++ [D])
  /\ (forall pre post M1 M2 D,
        pre ++ post = [M1; M2] ->
        isReplyDraft M1 = false -> isReplyDraft M2 = false ->
        draft D = true -> headerMessageId M1 <> "" ->
        replyToHeaderMessageId D = Some (headerMessageId M1) ->
        _sortItemsForDisplay (pre ++ D :: post) = [M1; D; M2]).
Proof.
  split; [exact sortItemsForDisplay_rethread|].
  assert (forall pre post before target after D,
        pre ++ post = before ++ target :: after ->
        Forall (fun m => isReplyDraft m = false) (pre ++ post) ->
        isReplyDraft D = true ->
        Forall (fun other =>
          replyToHeaderMessageId D <> Some (headerMessageId other)) before ->
        replyToHeaderMessageId D = Some (headerMessageId target) ->
        _sortItemsForDisplay (pre ++ D :: post) = before ++ target :: D :: after) as Hfound.
  { intros pre post before target after D Heq Hbase HD Hbefore Htarget.
    rewrite sortItemsForDisplay_rethread, rethread_single, Heq by done.
    by apply insert_after_target_found. }
  split; [exact Hfound|]. split.
  - intros pre post D Hbase HD Habsent.
    rewrite sortItemsForDisplay_rethread, rethread_single by done.
    by apply insert_after_target_absent.
  - intros pre post M1 M2 D Heq H1 H2 Hdraft Hne Href.
    apply (Hfound pre post [] M1 [M2] D); [done| |..|done].
    + rewrite Heq. by repeat constructor.
    + unfold isReplyDraft. rewrite Hdraft, Href. cbn.
      destruct (String.eqb_spec (headerMessageId M1) ""); done.
    + constructor.
Qed.

Lemma sortItemsForDisplay_rethreads_reply_drafts_witness :
  _sortItemsForDisplay [Sample.m1; Sample.m2; Sample.d1]
  = [Sample.m1; Sample.d1; Sample.m2].
Proof.
  apply (proj2 (proj2 (proj2 sortItemsForDisplay_rethreads_reply_drafts))
           [Sample.m1; Sample.m2] [] Sample.m1 Sample.m2 Sample.d1);
    try reflexivity.
  discriminate.
Defined.

(** ** The public accessors *)

(** C10. While [_showingHiddenItems] is set, [items()] is the whole cached
    list, unfiltered, and [numberOfHiddenItems()] is 0. *)
Theorem items_unfiltered_when_showing_hidden (viewing : option string) (s : Store) :
  _showingHiddenItems s = true ->
  items viewing s = _items s /\ numberOfHiddenItems viewing s = 0%Z.
Proof.
  intros H. unfold numberOfHiddenItems, items. rewrite H. split; [done|lia].
Qed.

Lemma items_unfiltered_when_showing_hidden_witness :
  let s := set_showingHiddenItems true
             (set_items [Sample.m1; Sample.junk] _setStoreDefaults) in
  items (Some "inbox") s = _items s /\ numberOfHiddenItems (Some "inbox") s = 0%Z.
Proof.
  apply items_unfiltered_when_showing_hidden. reflexivity.
Defined.

(** ** _expandItemsToDefault *)

Lemma lastDraftIdx_loop_spec (l : list Message) (idx acc : Z) :
  (Forall (fun m => draft m = false) l /\ lastDraftIdx_loop idx l acc = acc)
  \/ (exists k item, l !! k = Some item /\ draft item = true
        /\ (forall j item', (k < j)%nat -> l !! j = Some item' -> draft item' = false)
        /\ lastDraftIdx_loop idx l acc = (idx + Z.of_nat k)%Z).
Proof.
  revert idx acc. induction l as [|x l IH]; intros idx acc; cbn [lastDraftIdx_loop].
  - left. by split.
  - destruct (IH (idx + 1)%Z (if draft x then idx else acc))
      as [[Hall Hr]|(k & item & Hk & Hd & Hlast & Hr)].
    + destruct (draft x) eqn:Hx.
      * right. exists 0%nat, x. repeat split; [done| |lia].
        intros [|j] item' Hj Hl; [lia|]. cbn in Hl.
        rewrite Forall_lookup in Hall. by eapply Hall.
      * left. split; [by constructor|done].
    + right. exists (S k), item. repeat split; [done..| |lia].
      intros [|j] item' Hj Hl; [lia|]. cbn in Hl. apply (Hlast j); [lia|done].
Qed.

(** The index test of the loop says what [default_rule] says. *)
Lemma expands_by_default_rule (visible : list Message) (k : nat) (item : Message) :
  visible !! k = Some item ->
  expands_by_default (Z.of_nat (length visible))
    (lastDraftIdx_loop 0 visible (-1)) (Z.of_nat k) item = true
  <-> default_rule visible k item.
Proof.
  intros Hk. unfold expands_by_default, default_rule.
  pose proof (lookup_lt_Some _ _ _ Hk) as Hlt.
  rewrite !orb_true_iff, !Z.eqb_eq.
  destruct (lastDraftIdx_loop_spec visible 0 (-1))
    as [[Hall ->]|(k' & item' & Hk' & Hd & Hlast & ->)].
  - split.
    + intros [[?|?]|?]; [tauto|lia|right; right; lia].
    + intros [?|[[Hd _]|?]]; [tauto| |right; lia].
      rewrite Forall_lookup in Hall. specialize (Hall _ _ Hk). congruence.
  - split.
    + intros [[?|?]|?]; [tauto| |right; right; lia].
      assert (k = k') as -> by lia. assert (item = item') as -> by congruence.
      right; left. by split.
    + intros [?|[[Hd' Hlast']|?]]; [tauto| |right; lia].
      left; right. destruct (Nat.lt_total k k') as [Hlt'|[->|Hgt]]; [|lia|].
      * specialize (Hlast' _ _ Hlt' Hk'). congruence.
      * specialize (Hlast _ _ Hgt Hk). congruence.
Qed.

Lemma expand_loop_lookup (len ld : Z) (rest : list Message) (idx : Z)
    (m : gmap string Expansion) (i : string) :
  ((exists k item, rest !! k = Some item /\ msg_id item = i
      /\ expands_by_default len ld (idx + Z.of_nat k) item = true)
   /\ expand_loop len ld idx rest m !! i = Some Default)
  \/ ((forall k item, rest !! k = Some item -> msg_id item = i ->
         expands_by_default len ld (idx + Z.of_nat k) item = false)
      /\ expand_loop len ld idx rest m !! i = m !! i).
Proof.
  revert idx m. induction rest as [|x rest IH]; intros idx m; cbn [expand_loop].
  - right. split; [|done]. intros k item Hk. by rewrite lookup_nil in Hk.
  - destruct (IH (idx + 1)%Z
               (if expands_by_default len ld idx x then <[msg_id x:=Default]> m else m))
      as [[(k & item & Hk & Hi & He) Hr]|[Hnone Hr]].
    + left. split; [|done]. exists (S k), item. repeat split; [done..|].
      by replace (idx + Z.of_nat (S k))%Z with (idx + 1 + Z.of_nat k)%Z by lia.
    + destruct (expands_by_default len ld idx x) eqn:Hx.
      * destruct (decide (msg_id x = i)) as [Heq|Hne].
        -- left. split.
           ++ exists 0%nat, x. repeat split; [done..|]. by rewrite Z.add_0_r.
           ++ rewrite Hr, <- Heq. apply lookup_insert_eq.
        -- right. split.
           ++ intros [|k] item Hk Hi; cbn in Hk.
              ** congruence.
              ** replace (idx + Z.of_nat (S k))%Z with (idx + 1 + Z.of_nat k)%Z by lia.
                 by apply Hnone.
           ++ rewrite Hr. by apply lookup_insert_ne.
      * right. split; [|done].
        intros [|k] item Hk Hi; cbn in Hk.
        -- rewrite Z.add_0_r. congruence.
        -- replace (idx + Z.of_nat (S k))%Z with (idx + 1 + Z.of_nat k)%Z by lia.
           by apply Hnone.
Qed.

Lemma expand_defaults_marks (visible : list Message) (m : gmap string Expansion)
    (k : nat) (item : Message) :
  visible !! k = Some item -> default_rule visible k item ->
  expand_defaults visible m !! msg_id item = Some Default.
Proof.
  intros Hk Hrule. unfold expand_defaults.
  destruct (expand_loop_lookup (Z.of_nat (length visible))
              (lastDraftIdx_loop 0 visible (-1)) visible 0 m (msg_id item))
    as [[_ Hr]|[Hnone _]]; [done|].
  specialize (Hnone k item Hk eq_refl). rewrite Z.add_0_l in Hnone.
  apply (expands_by_default_rule visible k item Hk) in Hrule. congruence.
Qed.


Lemma expand_defaults_lookup_Some (visible : list Message) (m : gmap string Expansion)
    (i : string) (e : Expansion) :
  expand_defaults visible m !! i = Some e ->
  m !! i = Some e \/ (e = Default /\ exists k item,
     visible !! k = Some item /\ msg_id item = i /\ default_rule visible k item).
Proof.
  unfold expand_defaults.
  destruct (expand_loop_lookup (Z.of_nat (length visible))
              (lastDraftIdx_loop 0 visible (-1)) visible 0 m i)
    as [[(k & item & Hk & Hi & He) Hr]|[_ Hr]]; rewrite Hr; [|by left].
  intros [= <-]. right. split; [done|]. exists k, item. repeat split; [done..|].
  rewrite Z.add_0_l in He. by apply (expands_by_default_rule visible k item Hk).
Qed.


Lemma expand_defaults_lookup (visible : list Message) (m : gmap string Expansion)
    (i : string) :
  expand_defaults visible m !! i = Some Default
  \/ expand_defaults visible m !! i = m !! i.
Proof.
  unfold expand_defaults.
  destruct (expand_loop_lookup (Z.of_nat (length visible))
              (lastDraftIdx_loop 0 visible (-1)) visible 0 m i)
    as [[_ Hr]|[_ Hr]]; [by left|by right].
Qed.

Lemma expand_defaults_grows (visible : list Message) (m : gmap string Expansion)
    (i : string) :
  is_Some (m !! i) -> is_Some (expand_defaults visible m !! i).
Proof.
  intros [e He]. destruct (expand_defaults_lookup visible m i) as [->| ->]; by eexists.
Qed.




(** ** What each method leaves alone *)

Lemma fetchFromCache_frame (w : World) :
  store (_fetchFromCache w) = store w /\ piles (_fetchFromCache w) = piles w
  /\ effects (_fetchFromCache w) = effects w /\ timers (_fetchFromCache w) = timers w
  /\ viewing (_fetchFromCache w) = viewing w.
Proof. unfold _fetchFromCache. by destruct (_thread (store w)). Qed.

Lemma markAsRead_frame (w : World) :
  _items (store (_markAsRead w)) = _items (store w)
  /\ _itemsExpanded (store (_markAsRead w)) = _itemsExpanded (store w)
  /\ _thread (store (_markAsRead w)) = _thread (store w)
  /\ _itemsLoading (store (_markAsRead w)) = _itemsLoading (store w)
  /\ _showingHiddenItems (store (_markAsRead w)) = _showingHiddenItems (store w)
  /\ piles (_markAsRead w) = piles w /\ effects (_markAsRead w) = effects w
  /\ pending (_markAsRead w) = pending w /\ viewing (_markAsRead w) = viewing w.
Proof.
  unfold _markAsRead. destruct (_thread (store w)) as [th|] eqn:Hth; [|done].
  case_bool_decide; [done|]. destruct (thread_unread th); [|done].
  cbn. destruct (markAsReadDelay w <? 0)%Z; done.
Qed.

Lemma fetchExpandedAttachments_frame (l : list Message) (w : World) :
  store (_fetchExpandedAttachments l w) = store w
  /\ piles (_fetchExpandedAttachments l w) = piles w
  /\ pending (_fetchExpandedAttachments l w) = pending w
  /\ timers (_fetchExpandedAttachments l w) = timers w
  /\ viewing (_fetchExpandedAttachments l w) = viewing w.
Proof. done. Qed.

Lemma fetchMissingBodies_frame (l : list Message) (w : World) :
  store (_fetchMissingBodies l w) = store w
  /\ piles (_fetchMissingBodies l w) = piles w
  /\ pending (_fetchMissingBodies l w) = pending w
  /\ timers (_fetchMissingBodies l w) = timers w
  /\ viewing (_fetchMissingBodies l w) = viewing w.
Proof. unfold _fetchMissingBodies. by case_match. Qed.

Lemma part2_loop_frame (pile : nat) (threads : list Thread) (index : nat) (w : World) :
  store (part2_loop pile index threads w) = store w
  /\ piles (part2_loop pile index threads w) = piles w
  /\ effects (part2_loop pile index threads w) = effects w
  /\ timers (part2_loop pile index threads w) = timers w
  /\ pending (part2_loop pile index threads w)
     = pending w ++ imap (fun k th => KMessages pile (index + k) (thread_id th)) threads.
Proof.
  revert index w. induction threads as [|th threads IH]; intros index w; cbn [part2_loop imap].
  - by rewrite app_nil_r.
  - destruct (IH (S index) (query_then (KMessages pile index (thread_id th)) w))
      as (-> & -> & -> & -> & ->).
    repeat split. cbn. rewrite <- app_assoc. cbn. f_equal. f_equal.
    + by rewrite Nat.add_0_r.
    + apply imap_ext. intros k x _. cbn. f_equal. lia.
Qed.

Lemma stranger_fold_frame (l : list Contact) (w : World) :
  let w' := fold_left (fun w value =>
              if negb (existsb (String.eqb (email value)) (ownEmailAddresses (store w)))
              then upd_store (set_strangerEmailAddress (email value)) w
              else w) l w in
  _items (store w') = _items (store w)
  /\ _itemsExpanded (store w') = _itemsExpanded (store w)
  /\ _thread (store w') = _thread (store w)
  /\ piles w' = piles w /\ effects w' = effects w /\ pending w' = pending w
  /\ timers w' = timers w.
Proof.
  revert w. induction l as [|value l IH]; intros w; cbn [fold_left]; [done|].
  cbv zeta in IH. 
  destruct (negb (existsb (String.eqb (email value)) (ownEmailAddresses (store w)))).
  - destruct (IH (upd_store (set_strangerEmailAddress (email value)) w))
      as (-> & -> & -> & -> & -> & -> & ->). done.
  - apply IH.
Qed.

Lemma fetchFromCache_then_frame (cals : list Calendar) (w : World) :
  _items (store (fetchFromCache_then cals w)) = _items (store w)
  /\ _itemsExpanded (store (fetchFromCache_then cals w)) = _itemsExpanded (store w)
  /\ _thread (store (fetchFromCache_then cals w)) = _thread (store w)
  /\ piles (fetchFromCache_then cals w) = piles w
  /\ timers (fetchFromCache_then cals w) = timers w.
Proof.
  unfold fetchFromCache_then. cbn [store upd_store _thread set_ownEmailAddresses].
  destruct (_thread (store w)) as [th|] eqn:Hth; [|by rewrite ?Hth].
  unfold fetchThreads.
  match goal with |- context [fold_left ?f ?l ?w0] =>
    pose proof (stranger_fold_frame l w0) as H; cbv zeta in H;
    set (w' := fold_left f l w0) in * end.
  destruct H as (H1 & H2 & H3 & H4 & H5 & H6 & H7).
  destruct (String.eqb (strangerEmailAddress (store w')) ""); cbn;
    rewrite ?H1, ?H2, ?H3, ?H4, ?H7; done.
Qed.

(** ** What each method does *)

Lemma count_triggers_app (es es' : list Effect) :
  count_triggers (es ++ es') = (count_triggers es + count_triggers es')%nat.
Proof. unfold count_triggers. by rewrite List.filter_app, length_app. Qed.

Lemma count_triggers_files (fs : list File) : count_triggers (map FetchFile fs) = 0%nat.
Proof. by induction fs. Qed.

Lemma count_triggers_attachments (m : gmap string Expansion) (l : list Message) :
  count_triggers (flat_map (fun item =>
     if truthy_property m (msg_id item) then map FetchFile (files item) else []) l)
  = 0%nat.
Proof.
  induction l as [|x l IH]; cbn [flat_map]; [done|].
  rewrite count_triggers_app, IH. destruct (truthy_property m (msg_id x)); [|done].
  by rewrite count_triggers_files.
Qed.

Lemma part2_then_spec (pile : nat) (found : list Message) (w : World) :
  let l := default [] (piles w !! pile) ++ map fill_body found in
  let w' := part2_then pile found w in
  _items (store w') = sort_by_date (_sortItemsForDisplay (List.filter not_hidden l))
  /\ piles w' = <[pile := l]> (piles w)
  /\ _itemsExpanded (store w')
     = expand_defaults (items (viewing w') (store w')) (_itemsExpanded (store w))
  /\ _thread (store w') = _thread (store w)
  /\ _itemsLoading (store w') = false
  /\ pending w' = pending w
  /\ count_triggers (effects w') = S (count_triggers (effects w)).
Proof.
  intros l w'. subst w'. unfold part2_then. fold l.
  set (w1 := _expandItemsToDefault _).
  set (w2 := if _itemsLoading (store w1) then _ else w1).
  assert (store w2 = store w1 /\ piles w2 = piles w1 /\ pending w2 = pending w1
          /\ viewing w2 = viewing w1 /\ count_triggers (effects w2) = count_triggers (effects w1))
    as (Hs2 & Hp2 & Hq2 & Hv2 & He2).
  { subst w2. destruct (_itemsLoading (store w1)); [|done].
    unfold _fetchMissingBodies. case_match; [|done]. repeat split.
    cbn [emit effects]. by rewrite count_triggers_app, Nat.add_0_r. }
  set (w3 := _fetchExpandedAttachments _ w2).
  assert (count_triggers (effects w3) = count_triggers (effects w2)) as He3.
  { subst w3. unfold _fetchExpandedAttachments. cbn [emit effects].
    by rewrite count_triggers_app, count_triggers_attachments, Nat.add_0_r. }
  set (w4 := upd_store (set_itemsLoading false) w3).
  destruct (markAsRead_frame w4) as (Hi & Hm & Ht & Hl & Hh & Hp & He & Hq & Hv).
  cbn [trigger emit store piles pending effects viewing].
  unfold items. rewrite Hi, Hm, Ht, Hl, Hh, Hp, He, Hq, Hv.
  rewrite count_triggers_app.
  change (effects w4) with (effects w3). rewrite He3, He2.
  subst w4 w3. cbn [upd_store store piles pending effects viewing set_itemsLoading
    _items _itemsExpanded _thread _itemsLoading _showingHiddenItems
    _fetchExpandedAttachments emit].
  rewrite Hs2, Hp2, Hq2, Hv2. subst w1.
  repeat split. unfold _expandItemsToDefault. cbn [effects upd_store set_piles].
  change (count_triggers [Trigger]) with 1%nat. lia.
Qed.

Lemma items_incl (viewing : option string) (s : Store) (x : Message) :
  In x (items viewing s) -> In x (_items s).
Proof.
  unfold items. destruct (_showingHiddenItems s); [done|].
  intros H. by apply List.filter_In in H as [H _].
Qed.

Lemma expand_defaults_dom (visible : list Message) (m : gmap string Expansion)
    (i : string) :
  is_Some (expand_defaults visible m !! i) ->
  is_Some (m !! i) \/ In i (map msg_id visible).
Proof.
  intros [e He]. apply expand_defaults_lookup_Some in He.
  destruct He as [He|[_ (k & item & Hk & <- & _)]]; [by left; exists e|].
  right. apply in_map. apply list_elem_of_In. by eapply list_elem_of_lookup_2.
Qed.

Lemma onApplyFocusChange_spec (w : World) :
  let w' := _onApplyFocusChange w in
  piles w' = piles w /\ timers w' = timers w /\ next_handle w' = next_handle w
  /\ focused w' = focused w /\ now w' = now w
  /\ _onFocusChangedTimer (store w') = _onFocusChangedTimer (store w)
  /\ ((threadId_ (store w) = thread_id <$> focused w
       /\ _items (store w') = _items (store w)
       /\ _itemsExpanded (store w') = _itemsExpanded (store w)
       /\ _thread (store w') = _thread (store w)
       /\ effects w' = effects w /\ pending w' = pending w)
      \/ (threadId_ (store w) <> (thread_id <$> focused w)
          /\ _items (store w') = []
          /\ _itemsExpanded (store w') = ∅
          /\ _thread (store w') = focused w
          /\ _itemsLoading (store w') = true
          /\ _showingHiddenItems (store w') = false
          /\ effects w' = effects w ++
               [Trigger; SetTitle ("Mailspring" +:+
                  match focused w with
                  | Some th => " · " +:+ subject th
                  | None => ""
                  end)]
          /\ pending w' = pending w ++
               match focused w with Some _ => [KCalendars] | None => [] end)).
Proof.
  unfold _onApplyFocusChange.
  set (w0 := match focused w with
             | Some _ => w
             | None => upd_store (set_lastMarkedAsReadThreadId None) w
             end).
  assert (threadId_ (store w0) = threadId_ (store w) /\ piles w0 = piles w
          /\ timers w0 = timers w /\ next_handle w0 = next_handle w
          /\ focused w0 = focused w /\ now w0 = now w
          /\ _onFocusChangedTimer (store w0) = _onFocusChangedTimer (store w)
          /\ _items (store w0) = _items (store w)
          /\ _itemsExpanded (store w0) = _itemsExpanded (store w)
          /\ _thread (store w0) = _thread (store w)
          /\ effects w0 = effects w /\ pending w0 = pending w)
    as (H1 & H2 & H3 & H4 & H5 & H6 & H7 & H8 & H9 & H10 & H11 & H12).
  { subst w0. destruct (focused w) eqn:Hf; cbn; rewrite ?Hf; done. }
  rewrite H1. case_bool_decide as Hsame.
  - rewrite H2, H3, H4, H5, H6, H7. do 6 (split; [done|]). left. by repeat split.
  - unfold _fetchFromCache, _setWindowTitle, trigger.
    cbn [upd_store store emit set_itemsExpanded set_showingHiddenItems
           set_itemsLoading set_items set_thread _thread].
    destruct (focused w) as [th|] eqn:Hf; cbn; rewrite ?H2, ?H3, ?H4, ?H5, ?H6, ?H7,
      ?H11, ?H12; do 6 (split; [done|]); right; repeat split; try done;
      by rewrite <- ?app_assoc, ?app_nil_r.
Qed.

Lemma onDataChanged_spec (change : DatabaseChangeRecord) (w : World) :
  let w' := _onDataChanged change w in
  let same_id item := fun msg => String.eqb (msg_id msg) (msg_id item) in
  piles w' = piles w /\ timers w' = timers w /\ viewing w' = viewing w
  /\ _showingHiddenItems (store w') = _showingHiddenItems (store w)
  /\ ((_items (store w') = _items (store w)
       /\ _itemsExpanded (store w') = _itemsExpanded (store w)
       /\ effects w' = effects w)
      \/ (exists item,
            change = mkChange persist (MessageObjects [item])
            /\ findIndex (same_id item) (_items (store w)) = None
            /\ _items (store w')
               = _sortItemsForDisplay (List.filter not_hidden (_items (store w) ++ [item]))
            /\ _itemsExpanded (store w')
               = expand_defaults (items (viewing w') (store w')) (_itemsExpanded (store w))
            /\ effects w' = effects w ++ [Trigger]
            /\ pending w' = pending w)
      \/ (exists item idx,
            change = mkChange unpersist (MessageObjects [item])
            /\ findIndex (same_id item) (_items (store w)) = Some idx
            /\ _items (store w')
               = splice_remove idx (List.filter not_hidden (_items (store w)))
            /\ _itemsExpanded (store w')
               = expand_defaults (items (viewing w') (store w')) (_itemsExpanded (store w))
            /\ effects w' = effects w ++ [Trigger]
            /\ pending w' = pending w)).
Proof.
  cbv zeta. unfold _onDataChanged.
  assert (forall w0, store w0 = store w \/ (exists t, store w0 = set_thread t (store w)) ->
            piles w0 = piles w -> timers w0 = timers w -> viewing w0 = viewing w ->
            effects w0 = effects w ->
            piles (_fetchFromCache w0) = piles w /\ timers (_fetchFromCache w0) = timers w
            /\ viewing (_fetchFromCache w0) = viewing w
            /\ _showingHiddenItems (store (_fetchFromCache w0)) = _showingHiddenItems (store w)
            /\ ((_items (store (_fetchFromCache w0)) = _items (store w)
                 /\ _itemsExpanded (store (_fetchFromCache w0)) = _itemsExpanded (store w)
                 /\ effects (_fetchFromCache w0) = effects w) \/ False)) as Hfetch.
  { intros w0 Hs Hp Ht Hv He.
    destruct (fetchFromCache_frame w0) as (-> & -> & -> & -> & ->).
    destruct Hs as [->|[t ->]]; repeat split; try done; by left. }
  assert (forall P Q R : Prop, P \/ False -> P \/ Q \/ R) as Hweak by tauto.
  destruct (_thread (store w)) as [th|]; [|repeat split; by left].
  destruct change as [ty [objs|objs|]]; cbn [objects change_type].
  - destruct (negb (existsb _ objs)); [repeat split; by left|].
    destruct objs as [|item [|item' objs]].
    + destruct (Hfetch w) as (? & ? & ? & ? & ?); auto 10.
    + destruct (draft item); [|destruct (Hfetch w) as (? & ? & ? & ? & ?); auto 10].
      destruct (findIndex (fun msg => String.eqb (msg_id msg) (msg_id item))
                  (_items (store w))) as [idx|] eqn:Hidx; destruct ty;
        try (destruct (Hfetch w) as (? & ? & ? & ? & ?); by auto 10).
      * repeat split. right; right. exists item, idx. by repeat split.
      * repeat split. right; left. exists item. by repeat split.
    + destruct (Hfetch w) as (? & ? & ? & ? & ?); auto 10.
  - destruct (List.find _ objs) as [updatedThread|]; [|repeat split; by left].
    destruct (Hfetch (upd_store (set_thread (Some updatedThread)) w))
      as (? & ? & ? & ? & ?); eauto 10.
  - repeat split; by left.
Qed.

(** ** The fast paths of _onDataChanged *)

Lemma findIndex_In (i : string) (l : list Message) :
  In i (map msg_id l) ->
  exists idx, findIndex (fun msg => String.eqb (msg_id msg) i) l = Some idx.
Proof.
  intros Hin.
  destruct (findIndex (fun msg => String.eqb (msg_id msg) i) l) as [idx|] eqn:H; [by exists idx|].
  apply findIndex_None in H. apply in_map_iff in Hin as (m & <- & Hm).
  assert (In m (List.filter (fun msg => String.eqb (msg_id msg) (msg_id m)) l)) as Hf.
  { apply List.filter_In. split; [done|]. apply String.eqb_refl. }
  rewrite H in Hf. destruct Hf.
Qed.

Lemma unpersist_fast_path_spec (w : World) (th : Thread) (item : Message) :
  _thread (store w) = Some th ->
  threadId item = thread_id th ->
  draft item = true ->
  items_not_hidden w ->
  In (msg_id item) (itemIds (store w)) ->
  let w' := _onDataChanged (mkChange unpersist (MessageObjects [item])) w in
  exists idx removed,
    _items (store w) !! idx = Some removed /\ msg_id removed = msg_id item
    /\ (forall j y, (j < idx)%nat -> _items (store w) !! j = Some y ->
          msg_id y <> msg_id item)
    /\ _items (store w') = delete idx (_items (store w))
    /\ items_not_hidden w'
    /\ _itemsExpanded (store w')
       = expand_defaults (items (viewing w') (store w')) (_itemsExpanded (store w))
    /\ effects w' = effects w ++ [Trigger]
    /\ pending w' = pending w.
Proof.
  intros Hth Htid Hdraft Hnh Hin w'.
  destruct (findIndex_In _ _ Hin) as [idx Hidx].
  destruct (findIndex_Some _ _ _ Hidx) as (removed & Hk & Hid & Hfirst).
  exists idx, removed.
  assert (w' = trigger (_expandItemsToDefault
            (upd_store (fun s => set_items (splice_remove idx (_items s)) s)
              (upd_store (fun s => set_items (List.filter not_hidden (_items s)) s) w))))
    as ->.
  { subst w'. unfold _onDataChanged. rewrite Hth. cbn [objects change_type existsb].
    rewrite Htid, String.eqb_refl, Hdraft. cbn [orb negb]. by rewrite Hidx. }
  assert (List.filter not_hidden (_items (store w)) = _items (store w)) as Hfilter
    by (by apply filter_all).
  cbn [trigger emit _expandItemsToDefault upd_store store set_itemsExpanded set_items
         _items _itemsExpanded effects pending viewing].
  unfold items. cbn [_showingHiddenItems _items]. rewrite Hfilter.
  split; [done|]. split; [by apply String.eqb_eq|]. split.
  { intros j y Hj Hy Heq. specialize (Hfirst j y Hj Hy).
    rewrite Heq, String.eqb_refl in Hfirst. discriminate. }
  split; [done|]. split; [|done].
  unfold items_not_hidden.
  cbn [trigger emit _expandItemsToDefault upd_store store set_itemsExpanded set_items _items].
  rewrite Hfilter. by apply Forall_delete.
Qed.




Lemma filter_filter_le {A} (p q : A -> bool) (l : list A) :
  (length (List.filter p (List.filter q l)) <= length (List.filter p l))%nat.
Proof.
  induction l as [|x l IH]; cbn [List.filter]; [done|].
  destruct (q x), (p x) eqn:Hp; cbn [List.filter length]; rewrite ?Hp; cbn [length]; lia.
Qed.

Lemma occurrences_items_le (i : string) (viewing : option string) (s : Store) :
  (occurrences i (items viewing s) <= occurrences i (_items s))%nat.
Proof.
  unfold items, occurrences. destruct (_showingHiddenItems s); [done|].
  apply filter_filter_le.
Qed.

Lemma persist_keeps_single (w : World) (item : Message) :
  (occurrences (msg_id item) (_items (store w)) <= 1)%nat ->
  (occurrences (msg_id item)
     (_items (store (_onDataChanged (mkChange persist (MessageObjects [item])) w)))
   <= 1)%nat.
Proof.
  intros Hbefore.
  destruct (onDataChanged_spec (mkChange persist (MessageObjects [item])) w)
    as (_ & _ & _ & _ & [(-> & _)|[(item' & Hc & Hidx & -> & _)|(item' & idx & Hc & _)]]);
    [done| |discriminate Hc].
  injection Hc as <-. apply findIndex_None in Hidx.
  unfold occurrences.
  rewrite (filter_length_perm _ _ _ (sortItemsForDisplay_perm _)).
  etransitivity; [apply filter_filter_le|].
  rewrite List.filter_app, Hidx. cbn [List.filter app].
  by rewrite String.eqb_refl.
Qed.

(** C8. Applying the same single-object [persist] notification twice in
    succession does not duplicate the message: if its id occurred at most
    once in the cached list before, it occurs at most once after both
    applications, in the cached list and in the list [items()] shows.
    (The second application finds the message present and starts a fetch
    instead of appending.) *)
Theorem persist_twice_no_duplicate (w : World) (item : Message) :
  (occurrences (msg_id item) (_items (store w)) <= 1)%nat ->
  let change := mkChange persist (MessageObjects [item]) in
  let w2 := _onDataChanged change (_onDataChanged change w) in
  (occurrences (msg_id item) (_items (store w2)) <= 1)%nat
  /\ (occurrences (msg_id item) (items (viewing w2) (store w2)) <= 1)%nat.
Proof.
  intros Hbefore change w2.
  assert (occurrences (msg_id item) (_items (store w2)) <= 1)%nat as H.
  { subst w2 change. by do 2 apply persist_keeps_single. }
  split; [done|]. etransitivity; [apply occurrences_items_le|done].
Qed.

Lemma persist_twice_no_duplicate_witness :
  let change := mkChange persist (MessageObjects [Sample.d2]) in
  let w2 := _onDataChanged change
              (_onDataChanged change (Sample.loaded_A [Sample.m1; Sample.m2])) in
  (occurrences "d2" (_items (store w2)) <= 1)%nat
  /\ (occurrences "d2" (items (viewing w2) (store w2)) <= 1)%nat.
Proof.
  apply (persist_twice_no_duplicate (Sample.loaded_A [Sample.m1; Sample.m2]) Sample.d2).
  vm_compute. lia.
Defined.

(** ** The event loop, step by step *)

Lemma fire_spec (tm : Timer) (w : World) :
  piles (fire tm w) = piles w
  /\ ((_items (store (fire tm w)) = _items (store w)
       /\ _itemsExpanded (store (fire tm w)) = _itemsExpanded (store w))
      \/ (_items (store (fire tm w)) = []
          /\ _itemsExpanded (store (fire tm w)) = ∅)).
Proof.
  unfold fire. destruct (existsb _ (timers w)); [|by split; [|left]].
  destruct (callback tm) as [|markAsReadId]; cbn [run_callback].
  - unfold focusChanged_timeout.
    destruct (onApplyFocusChange_spec
                (upd_store (set_onFocusChangedTimer None) (clearTimeout (handle tm) w)))
      as (Hp & _ & _ & _ & _ & _ & [(_ & Hi & Hm & _)|(_ & Hi & Hm & _)]).
    + split; [done|]. left. by rewrite Hi, Hm.
    + split; [done|]. by right.
  - unfold markAsRead_timeout.
    cbn [clearTimeout set_timers store]. destruct (_thread (store w)); [|by split; [|left]].
    case_match; by split; [|left].
Qed.

Lemma advance_spec (t : Z) (w : World) :
  piles (advance t w) = piles w
  /\ ((_items (store (advance t w)) = _items (store w)
       /\ _itemsExpanded (store (advance t w)) = _itemsExpanded (store w))
      \/ (_items (store (advance t w)) = []
          /\ _itemsExpanded (store (advance t w)) = ∅)).
Proof.
  unfold advance. cbn [set_now store piles].
  generalize (due_timers t (timers w)). intros due. revert w.
  induction due as [|tm due IH]; intros w; cbn [fold_left]; [by split; [|left]|].
  destruct (IH (fire tm w)) as (-> & H), (fire_spec tm w) as (-> & H').
  split; [done|]. destruct H as [[-> ->]|[-> ->]]; [done|by right].
Qed.

Lemma expandItem_fold_spec (l : list Message) (w : World) :
  let w' := fold_left (fun w i => _expandItem i w) l w in
  _items (store w') = _items (store w) /\ piles w' = piles w
  /\ forall i, is_Some (_itemsExpanded (store w') !! i) ->
       is_Some (_itemsExpanded (store w) !! i) \/ In i (map msg_id l).
Proof.
  revert w. induction l as [|x l IH]; intros w; cbn [fold_left]; [by auto|].
  destruct (IH (_expandItem x w)) as (Hi & Hp & Hm). cbv zeta.
  rewrite Hi, Hp. split; [done|]. split; [done|].
  intros i Hsome. destruct (Hm i Hsome) as [H|H]; [|right; by right].
  cbn in H. destruct (decide (msg_id x = i)) as [<-|Hne]; [right; by left|].
  rewrite lookup_insert_ne in H by done. by left.
Qed.

Lemma collapseItem_fold_spec (l : list Message) (w : World) :
  let w' := fold_left (fun w i => _collapseItem i w) l w in
  _items (store w') = _items (store w) /\ piles w' = piles w
  /\ forall i, is_Some (_itemsExpanded (store w') !! i) ->
       is_Some (_itemsExpanded (store w) !! i).
Proof.
  revert w. induction l as [|x l IH]; intros w; cbn [fold_left]; [by auto|].
  destruct (IH (_collapseItem x w)) as (Hi & Hp & Hm). cbv zeta.
  rewrite Hi, Hp. split; [done|]. split; [done|].
  intros i Hsome. specialize (Hm i Hsome). cbn in Hm.
  destruct (decide (msg_id x = i)) as [<-|Hne].
  - rewrite lookup_delete_eq in Hm. by destruct Hm.
  - by rewrite lookup_delete_ne in Hm.
Qed.

Lemma onFocusChanged_spec (impactsThread : bool) (w : World) :
  let w' := _onFocusChanged impactsThread w in
  piles w' = piles w
  /\ ((_items (store w') = _items (store w)
       /\ _itemsExpanded (store w') = _itemsExpanded (store w))
      \/ (_items (store w') = [] /\ _itemsExpanded (store w') = ∅)).
Proof.
  unfold _onFocusChanged. destruct impactsThread; cbn [negb]; [|by split; [|left]].
  destruct (_onFocusChangedTimer (store w)) as [h|].
  - by split; [|left].
  - cbn [setTimeout upd_store store piles set_timers set_onFocusChangedTimer
           _items _itemsExpanded].
    destruct (onApplyFocusChange_spec w)
      as (Hp & _ & _ & _ & _ & _ & [(_ & Hi & Hm & _)|(_ & Hi & Hm & _)]).
    + split; [done|]. left. by rewrite Hi, Hm.
    + split; [done|]. by right.
Qed.

Lemma find_some_In {A} (p : A -> bool) (l : list A) (x : A) :
  List.find p l = Some x -> In x l /\ p x = true.
Proof. apply List.find_some. Qed.

(** What one event does to the expansion map, the cached list and the
    query results. *)
Lemma handle_event_expansion (e : Event) (w : World) (i : string) :
  is_Some (_itemsExpanded (store (handle_event e w)) !! i) ->
  is_Some (_itemsExpanded (store w) !! i)
  \/ In i (itemIds (store (handle_event e w))).
Proof.
  unfold itemIds. destruct e as [change|imp f|v|id| | |k r|]; cbn [handle_event].
  - destruct (onDataChanged_spec change w)
      as (_ & _ & _ & _ & [(_ & -> & _)|[(item & _ & _ & _ & -> & _)
                                        |(item & idx & _ & _ & _ & -> & _)]]);
      [by left| |]; intros H; apply expand_defaults_dom in H as [H|H]; auto;
      right; apply in_map_iff in H as (m & <- & Hm); apply in_map;
      by eapply items_incl.
  - destruct (onFocusChanged_spec imp (set_focused f w))
      as (_ & [(_ & ->)|(_ & ->)]); [by left|].
    rewrite lookup_empty. intros []; discriminate.
  - by left.
  - unfold _onToggleMessageIdExpanded.
    destruct (List.find _ (_items (store w))) as [item|] eqn:Hfind; [|by left].
    apply find_some_In in Hfind as [Hin Hid]. apply String.eqb_eq in Hid.
    destruct (truthy_property (_itemsExpanded (store w)) id) eqn:Hm; cbn.
    + intros H. left. destruct (decide (msg_id item = i)) as [<-|Hne].
      * rewrite lookup_delete_eq in H. by destruct H.
      * by rewrite lookup_delete_ne in H.
    + intros H. destruct (decide (msg_id item = i)) as [<-|Hne].
      * right. by apply in_map.
      * left. by rewrite lookup_insert_ne in H.
  - unfold _onToggleAllMessagesExpanded. cbn [trigger emit store].
    destruct (hasCollapsedItems (store w)).
    + destruct (expandItem_fold_spec (_items (store w)) w) as (-> & _ & H). apply H.
    + destruct (collapseItem_fold_spec
                  (take (length (_items (store w)) - 1) (_items (store w))) w)
        as (_ & _ & H). intros Hi. left. by apply H.
  - unfold _onToggleHiddenMessages.
    cbn. intros H. apply expand_defaults_dom in H as [H|H]; [by left|].
    right. apply in_map_iff in H as (m & <- & Hm). apply in_map.
    by apply items_incl in Hm.
  - unfold resolve.
    destruct (pending w !! k) as [[|search|pile index ofThread]|]; [| | |by left];
      destruct r as [cals|threads|found]; try by left.
    + destruct (fetchFromCache_then_frame cals (set_pending (delete k (pending w)) w))
        as (_ & -> & _). by left.
    + unfold _fetchFromCachePart2.
      match goal with |- context [part2_loop ?p ?n ?l ?w0] =>
        destruct (part2_loop_frame p l n w0) as (-> & _) end. by left.
    + destruct (part2_then_spec pile found (set_pending (delete k (pending w)) w))
        as (_ & _ & Hm & _). cbv zeta in Hm. rewrite Hm.
      intros H. apply expand_defaults_dom in H as [H|H]; [by left|].
      right. apply in_map_iff in H as (m & <- & Hin). apply in_map.
      by apply items_incl in Hin.
  - by left.
Qed.

(** ** The expansion map and the list *)

(** The unpersist fast path takes a message out of the list and keeps
    every entry of the expansion map, that of the removed message too. *)
Lemma unpersist_fast_path_keeps_entries (w : World) (th : Thread) (item : Message)
    (i : string) :
  _thread (store w) = Some th ->
  threadId item = thread_id th ->
  draft item = true ->
  items_not_hidden w ->
  In (msg_id item) (itemIds (store w)) ->
  is_Some (_itemsExpanded (store w) !! i) ->
  is_Some (_itemsExpanded
             (store (_onDataChanged (mkChange unpersist (MessageObjects [item])) w)) !! i).
Proof.
  intros Hth Htid Hdraft Hnh Hin Hi.
  destruct (unpersist_fast_path_spec w th item Hth Htid Hdraft Hnh Hin)
    as (idx & removed & _ & _ & _ & _ & _ & Hm & _).
  cbv zeta in Hm. rewrite Hm. by apply expand_defaults_grows.
Qed.

(** C6 fails on the code. Thread A is loaded with the read messages [m1]
    and [m2] and the draft [d2], the one message that is expanded by
    default; the map holds the id of a listed message only. Then [d2] is
    unpersisted: the fast path takes [d2] out of the list and leaves its
    entry in the map, so the map holds an id that is not in the list. The
    list is now [m1; m2] and the map holds [d2] and [m2]:
    [hasCollapsedItems], which compares the two counts, answers false
    although [m1] is collapsed, and "toggle all" collapses instead of
    expanding -- it changes nothing. The sibling path, a focus transition
    to another thread, does empty the map together with the list. *)
Theorem stale_expansion_entry_hides_collapsed_message :
  expansion_within_list Stale.loaded
  /\ ~ expansion_within_list Stale.draft_removed
  /\ _items (store Stale.draft_removed) = [Sample.m1; Sample.m2]
  /\ _itemsExpanded (store Stale.draft_removed)
     = {["d2" := Default; "m2" := Default]}
  /\ hasCollapsedItems (store Stale.draft_removed) = false
  /\ _itemsExpanded (store (_onToggleAllMessagesExpanded Stale.draft_removed))
     = _itemsExpanded (store Stale.draft_removed)
  /\ _itemsExpanded (store (_onApplyFocusChange
        (set_focused (Some Sample.threadB) Stale.draft_removed))) = ∅.
Proof.
  assert (_itemsExpanded (store Stale.loaded) = {["d2" := Default]}) as Hloaded
    by (vm_compute; reflexivity).
  assert (_itemsExpanded (store Stale.draft_removed)
          = {["d2" := Default; "m2" := Default]}) as Hremoved
    by (vm_compute; reflexivity).
  split; [|split; [|split; [|split; [|split; [|split]]]]].
  - intros i Hi. rewrite Hloaded in Hi. destruct (decide (i = "d2")) as [->|Hne].
    + vm_compute. tauto.
    + rewrite lookup_singleton_ne in Hi by done. destruct Hi as [x Hx]. discriminate Hx.
  - intros H. specialize (H "d2").
    assert (is_Some (_itemsExpanded (store Stale.draft_removed) !! "d2")) as Hi
      by (rewrite Hremoved; vm_compute; eauto).
    specialize (H Hi). vm_compute in H.
    repeat (destruct H as [H|H]; [discriminate H|]). destruct H.
  - vm_compute. reflexivity.
  - exact Hremoved.
  - vm_compute. reflexivity.
  - vm_compute. reflexivity.
  - vm_compute. reflexivity.
Qed.

(** ** Two invariants of the event loop *)

Lemma filter_Forall {A} (p : A -> bool) (l : list A) :
  Forall (fun x => p x = true) (List.filter p l).
Proof.
  apply List.Forall_forall. intros x Hx. by apply List.filter_In in Hx as [_ Hx].
Qed.

Lemma fill_body_has_body (m : Message) : has_body (fill_body m) = true.
Proof.
  unfold has_body, fill_body. destruct (truthy (body m)) eqn:Hb; [done|].
  destruct (snippet m) as [s|]; [|done]. by destruct (truthy (Some s)).
Qed.

Lemma fill_body_not_hidden (m : Message) : not_hidden (fill_body m) = not_hidden m.
Proof.
  unfold fill_body. destruct (truthy (body m)); [done|].
  destruct (snippet m) as [s|]; [|done]. by destruct (truthy (Some s)).
Qed.

Lemma handle_event_invariants (e : Event) (w : World) :
  items_not_hidden w -> piles_have_bodies w ->
  items_not_hidden (handle_event e w) /\ piles_have_bodies (handle_event e w).
Proof.
  unfold items_not_hidden, piles_have_bodies. intros Hnh Hpb.
  destruct e as [change|imp f|v|id| | |k r|]; cbn [handle_event].
  - destruct (onDataChanged_spec change w)
      as (-> & _ & _ & _ & [(-> & _)|[(item & _ & _ & -> & _)
                                        |(item & idx & _ & _ & -> & _)]]);
      (split; [|done]); [done| |].
    + eapply Permutation_Forall; [symmetry; apply sortItemsForDisplay_perm|].
      apply filter_Forall.
    + apply Forall_delete, filter_Forall.
  - destruct (onFocusChanged_spec imp (set_focused f w))
      as (-> & [(-> & _)|(-> & _)]); by split.
  - by split.
  - unfold _onToggleMessageIdExpanded.
    destruct (List.find _ (_items (store w))); [|by split].
    by destruct (truthy_property (_itemsExpanded (store w)) id).
  - unfold _onToggleAllMessagesExpanded. cbn [trigger emit store piles].
    destruct (hasCollapsedItems (store w)).
    + by destruct (expandItem_fold_spec (_items (store w)) w) as (-> & -> & _).
    + by destruct (collapseItem_fold_spec
                  (take (length (_items (store w)) - 1) (_items (store w))) w)
        as (-> & -> & _).
  - by split.
  - unfold resolve.
    destruct (pending w !! k) as [[|search|pile index ofThread]|]; [| | |by split];
      destruct r as [cals|threads|found]; try by split.
    + by destruct (fetchFromCache_then_frame cals (set_pending (delete k (pending w)) w))
        as (-> & _ & _ & -> & _).
    + unfold _fetchFromCachePart2.
      match goal with |- context [part2_loop ?p ?n ?l ?w0] =>
        destruct (part2_loop_frame p l n w0) as (-> & -> & _) end.
      split; [done|]. cbn. apply Forall_app. split; [done|]. by repeat constructor.
    + destruct (part2_then_spec pile found (set_pending (delete k (pending w)) w))
        as (-> & -> & _). cbn [set_pending piles].
      assert (Forall (fun m => has_body m = true)
                (default [] (piles w !! pile) ++ map fill_body found)) as Hl.
      { apply Forall_app. split.
        - destruct (piles w !! pile) as [l|] eqn:Hl; [|by constructor].
          by eapply Forall_lookup_1 in Hpb.
        - apply List.Forall_forall. intros m Hm.
          apply in_map_iff in Hm as (m0 & <- & _). apply fill_body_has_body. }
      split.
      * eapply Permutation_Forall; [symmetry; apply sort_by_date_perm|].
        eapply Permutation_Forall; [symmetry; apply sortItemsForDisplay_perm|].
        apply filter_Forall.
      * by apply Forall_insert.
  - by split.
Qed.

Lemma deliver_invariants (t : Z) (e : Event) (w : World) :
  items_not_hidden w -> piles_have_bodies w ->
  items_not_hidden (deliver t e w) /\ piles_have_bodies (deliver t e w).
Proof.
  intros Hnh Hpb. apply handle_event_invariants.
  - unfold items_not_hidden.
    destruct (advance_spec t w) as (_ & [(-> & _)|(-> & _)]); [done|constructor].
  - unfold piles_have_bodies. by destruct (advance_spec t w) as (-> & _).
Qed.

Lemma run_invariants (evs : list (Z * Event)) (w : World) :
  items_not_hidden w -> piles_have_bodies w ->
  items_not_hidden (run evs w) /\ piles_have_bodies (run evs w).
Proof.
  revert w. induction evs as [|[t e] evs IH]; intros w Hnh Hpb; cbn [run]; [done|].
  destruct (deliver_invariants t e w Hnh Hpb). by apply IH.
Qed.

Lemma reachable_invariants (evs : list (Z * Event)) :
  items_not_hidden (run evs initial_world)
  /\ piles_have_bodies (run evs initial_world).
Proof. apply run_invariants; by constructor. Qed.

(** ** The unpersist fast path *)

(** C7, as amended. In every state the store can reach, a single-object
    [unpersist] notification for a draft of the focused thread whose id
    is in the cached list takes the first message with that id out of the
    list and no other, keeps the list free of hidden messages, recomputes
    the expansion defaults and triggers once, without a query -- and
    without re-sorting: the other messages stay in the order they had. *)
Theorem unpersist_fast_path_removes_item (evs : list (Z * Event)) (th : Thread)
    (item : Message) :
  let w := run evs initial_world in
  _thread (store w) = Some th ->
  threadId item = thread_id th ->
  draft item = true ->
  In (msg_id item) (itemIds (store w)) ->
  let w' := _onDataChanged (mkChange unpersist (MessageObjects [item])) w in
  exists idx removed,
    _items (store w) !! idx = Some removed /\ msg_id removed = msg_id item
    /\ (forall j y, (j < idx)%nat -> _items (store w) !! j = Some y ->
          msg_id y <> msg_id item)
    /\ _items (store w') = delete idx (_items (store w))
    /\ items_not_hidden w'
    /\ _itemsExpanded (store w')
       = expand_defaults (items (viewing w') (store w')) (_itemsExpanded (store w))
    /\ effects w' = effects w ++ [Trigger]
    /\ pending w' = pending w.
Proof.
  intros w Hth Htid Hdraft Hin.
  apply (unpersist_fast_path_spec w th item); try done.
  apply reachable_invariants.
Qed.

Lemma unpersist_fast_path_removes_item_witness :
  let w := run Unpersist.loading initial_world in
  let w' := _onDataChanged (mkChange unpersist (MessageObjects [Sample.d2])) w in
  exists idx removed,
    _items (store w) !! idx = Some removed /\ msg_id removed = msg_id Sample.d2
    /\ (forall j y, (j < idx)%nat -> _items (store w) !! j = Some y ->
          msg_id y <> msg_id Sample.d2)
    /\ _items (store w') = delete idx (_items (store w))
    /\ items_not_hidden w'
    /\ _itemsExpanded (store w')
       = expand_defaults (items (viewing w') (store w')) (_itemsExpanded (store w))
    /\ effects w' = effects w ++ [Trigger]
    /\ pending w' = pending w.
Proof.
  apply (unpersist_fast_path_removes_item Unpersist.loading Sample.threadA Sample.d2).
  - reflexivity.
  - reflexivity.
  - reflexivity.
  - vm_compute. tauto.
Defined.

(** C7, as worded, fails on the sort: the loaded list is in date order,
    [m1; m2; d1; d2], with the draft [d1] in reply to [m1]; taking [d2] out
    leaves [m1; m2; d1], whereas a re-sort would move [d1] next to [m1]. *)
Lemma unpersist_fast_path_does_not_resort :
  ~ unpersist_removes_and_resorts
      Unpersist.loaded Sample.d2.
Proof.
  unfold unpersist_removes_and_resorts. cbv zeta.
  intros (idx & removed & Hk & Hid & Heq).
  assert (_items (store Unpersist.loaded)
          = [Sample.m1; Sample.m2; Sample.d1; Sample.d2]) as Hitems
    by (vm_compute; reflexivity).
  rewrite Hitems in Hk, Heq.
  destruct idx as [|[|[|[|idx]]]]; cbn in Hk; try discriminate Hk;
    injection Hk as <-; try discriminate Hid.
  vm_compute in Heq. discriminate Heq.
Qed.


(** ** The placeholder body *)

Lemma fill_body_cases (m : Message) :
  (has_body m = true -> fill_body m = m)
  /\ (has_body m = false -> forall s, snippet m = Some s -> s <> "" ->
        fill_body m = set_body (Some ("SNIPPET: " +:+ s)) m)
  /\ (has_body m = false -> truthy (snippet m) = false ->
        fill_body m = set_body (Some "MESSAGE TOO OLD") m).
Proof.
  unfold has_body, fill_body. split; [|split].
  - by intros ->.
  - intros -> s -> Hs. cbn. by destruct (String.eqb_spec s "").
  - intros -> Hs. destruct (snippet m) as [s|]; [|done]. by rewrite Hs.
Qed.

(** C9, as amended. When a message query of a fetch answers, every
    message it delivers goes through [fill_body]: a message with a body
    is kept as it is; one without (null or empty) gets the text
    "SNIPPET: " followed by its snippet when the snippet is not empty, and
    "MESSAGE TOO OLD" otherwise. The delivered messages that are not
    hidden are in the loaded list with that body, and no message of the
    loaded list has a null body. *)
Theorem fetched_messages_carry_a_body (evs : list (Z * Event)) (k pile index : nat)
    (ofThread : string) (found : list Message) :
  let w := run evs initial_world in
  pending w !! k = Some (KMessages pile index ofThread) ->
  let w' := resolve k (RMessages found) w in
  (forall m, In m (_items (store w')) -> has_body m = true /\ body m <> None)
  /\ (forall m, In m found -> not_hidden m = true ->
        In (fill_body m) (_items (store w')))
  /\ (forall m, In m found ->
        (has_body m = true -> fill_body m = m)
        /\ (has_body m = false -> forall s, snippet m = Some s -> s <> "" ->
              fill_body m = set_body (Some ("SNIPPET: " +:+ s)) m)
        /\ (has_body m = false -> truthy (snippet m) = false ->
              fill_body m = set_body (Some "MESSAGE TOO OLD") m)).
Proof.
  intros w Hk w'. subst w'. unfold resolve. rewrite Hk.
  destruct (reachable_invariants evs) as [_ Hpb]. fold w in Hpb.
  destruct (part2_then_spec pile found (set_pending (delete k (pending w)) w))
    as (-> & _). cbn [set_pending piles].
  set (l := default [] (piles w !! pile) ++ map fill_body found).
  assert (forall m, In m (sort_by_date (_sortItemsForDisplay (List.filter not_hidden l)))
                    <-> In m l /\ not_hidden m = true) as Hin.
  { intros m. rewrite <- List.filter_In. split; intros H.
    - eapply Permutation_in; [apply sortItemsForDisplay_perm|].
      eapply Permutation_in; [apply sort_by_date_perm|done].
    - eapply Permutation_in; [symmetry; apply sort_by_date_perm|].
      eapply Permutation_in; [symmetry; apply sortItemsForDisplay_perm|done]. }
  split; [|split].
  - intros m Hm. apply Hin in Hm as [Hm _].
    assert (has_body m = true) as Hb.
    { subst l. apply in_app_or in Hm as [Hm|Hm].
      - destruct (piles w !! pile) as [l0|] eqn:Hl; [|destruct Hm].
        eapply Forall_lookup_1 in Hpb; [|done].
        by eapply (proj1 (List.Forall_forall _ _)) in Hpb.
      - apply in_map_iff in Hm as (m0 & <- & _). apply fill_body_has_body. }
    split; [done|]. intros Hnone. unfold has_body in Hb. by rewrite Hnone in Hb.
  - intros m Hm Hnh. apply Hin. split.
    + subst l. apply in_or_app. right. by apply in_map.
    + by rewrite fill_body_not_hidden.
  - intros m _. apply fill_body_cases.
Qed.

Lemma fetched_messages_carry_a_body_witness :
  let w' := resolve 0 (RMessages [Sample.bare; Sample.old])
              (run (Sample.focus_A [Sample.threadA]) initial_world) in
  (forall m, In m (_items (store w')) -> has_body m = true /\ body m <> None)
  /\ (forall m, In m [Sample.bare; Sample.old] -> not_hidden m = true ->
        In (fill_body m) (_items (store w')))
  /\ (forall m, In m [Sample.bare; Sample.old] ->
        (has_body m = true -> fill_body m = m)
        /\ (has_body m = false -> forall s, snippet m = Some s -> s <> "" ->
              fill_body m = set_body (Some ("SNIPPET: " +:+ s)) m)
        /\ (has_body m = false -> truthy (snippet m) = false ->
              fill_body m = set_body (Some "MESSAGE TOO OLD") m)).
Proof.
  apply (fetched_messages_carry_a_body (Sample.focus_A [Sample.threadA]) 0 0 0 "A").
  reflexivity.
Defined.

(** C9, as worded, fails on the text of the placeholder: the message
    [bare] arrives with no body and the snippet "hi"; it is listed with
    the body "SNIPPET: hi", not "hi". *)
Lemma placeholder_is_not_the_bare_snippet :
  _items (store (Sample.loaded_A [Sample.bare]))
    = [set_body (Some "SNIPPET: hi") Sample.bare]
  /\ ~ loads_snippet_as_body [Sample.bare] (Sample.loaded_A [Sample.bare]).
Proof.
  assert (_items (store (Sample.loaded_A [Sample.bare]))
          = [set_body (Some "SNIPPET: hi") Sample.bare]) as Hitems
    by (vm_compute; reflexivity).
  split; [done|]. intros H.
  specialize (H Sample.bare "hi" (or_introl eq_refl) eq_refl eq_refl).
  rewrite Hitems in H. destruct H as [H|[]]. discriminate H.
Qed.

(** ** The fetch and the focus *)

(** C1 (the code does not do this). The message query launched for thread
    A answers after the focus has moved to thread B, or to nothing: the
    continuation does not compare the thread it was launched for with the
    current one, so the messages of A become the displayed list of B (or
    of no thread), the loading flag is cleared and the observers are
    triggered. *)
Theorem stale_fetch_result_is_displayed :
  (pending Sample.fetching_A = [KMessages 0 0 "A"]
   /\ threadId_ (store Sample.fetching_A) = Some "A")
  /\ (threadId_ (store (Race.refocused (Some Sample.threadB))) = Some "B"
      /\ _items (store (Race.refocused (Some Sample.threadB))) = []
      /\ threadId_ (store (Race.late_answer (Some Sample.threadB))) = Some "B"
      /\ _items (store (Race.late_answer (Some Sample.threadB))) = [Sample.m1; Sample.m2]
      /\ items None (store (Race.late_answer (Some Sample.threadB))) = [Sample.m1; Sample.m2]
      /\ _itemsLoading (store (Race.late_answer (Some Sample.threadB))) = false
      /\ effects (Race.late_answer (Some Sample.threadB))
         = effects (Race.refocused (Some Sample.threadB)) ++ [Trigger])
  /\ (threadId_ (store (Race.refocused None)) = None
      /\ _items (store (Race.refocused None)) = []
      /\ threadId_ (store (Race.late_answer None)) = None
      /\ _items (store (Race.late_answer None)) = [Sample.m1; Sample.m2]
      /\ effects (Race.late_answer None) = effects (Race.refocused None) ++ [Trigger]).
Proof. vm_compute. repeat split. Qed.

(** C2 (the code does not do this). One fetch whose thread search finds
    two threads triggers the observers twice, once per message query and
    the first time with a partial list; one whose search finds no thread
    never triggers and leaves the loading flag set. *)
Theorem fetch_cycle_triggers_per_query :
  (pending Cycle.two_queries = [KMessages 0 0 "A"; KMessages 0 1 "A2"]
   /\ effects Cycle.first_answer = effects Cycle.two_queries ++ [Trigger]
   /\ _items (store Cycle.first_answer) = [Sample.m1; Sample.m2]
   /\ effects Cycle.second_answer = effects Cycle.two_queries ++ [Trigger; Trigger]
   /\ _items (store Cycle.second_answer) = [Sample.m1; Sample.m2; Sample.a2]
   /\ pending Cycle.second_answer = [])
  /\ (pending Cycle.no_query = []
      /\ effects Cycle.no_query = [Trigger; SetTitle "Mailspring · Lunch"]
      /\ _itemsLoading (store Cycle.no_query) = true).
Proof. vm_compute. repeat split. Qed.

(** The answer of a message query becomes the cached list whatever thread
    is focused by then: the focused thread is not read. *)
Lemma message_query_ignores_focus (w : World) (k pile index : nat) (ofThread : string)
    (found : list Message) :
  pending w !! k = Some (KMessages pile index ofThread) ->
  let w' := resolve k (RMessages found) w in
  _items (store w')
  = sort_by_date (_sortItemsForDisplay
      (List.filter not_hidden (default [] (piles w !! pile) ++ map fill_body found)))
  /\ _thread (store w') = _thread (store w)
  /\ _itemsLoading (store w') = false.
Proof.
  intros Hk. cbv zeta. unfold resolve. rewrite Hk.
  by destruct (part2_then_spec pile found (set_pending (delete k (pending w)) w))
    as (-> & _ & _ & -> & -> & _).
Qed.

(** Each message query of a fetch triggers exactly once when it answers,
    whatever thread is focused by then. *)
Lemma message_query_triggers_once (w : World) (k pile index : nat) (ofThread : string)
    (found : list Message) :
  pending w !! k = Some (KMessages pile index ofThread) ->
  count_triggers (effects (resolve k (RMessages found) w))
  = S (count_triggers (effects w)).
Proof.
  intros Hk. unfold resolve. rewrite Hk.
  by destruct (part2_then_spec pile found (set_pending (delete k (pending w)) w))
    as (_ & _ & _ & _ & _ & _ & ->).
Qed.

(** The read marker on the sample: loading an unread thread arms a timer,
    which queues the task once the delay has passed. *)
Example mark_as_read_after_delay :
  timers Unread.loaded
  = [mkTimer 0 100 TFocus; mkTimer 1 530 (TMarkAsRead "U")]
  /\ effects Unread.later = effects Unread.loaded ++ [QueueTask Unread.threadU]
  /\ timers Unread.later = [].
Proof. vm_compute. repeat split. Qed.

(** ** The debounce *)

Lemma filter_filter {A} (p q : A -> bool) (l : list A) :
  List.filter q (List.filter p l) = List.filter (fun x => p x && q x) l.
Proof.
  induction l as [|x l IH]; cbn [List.filter]; [done|].
  destruct (p x); cbn [List.filter andb]; [|done]. destruct (q x); by rewrite IH.
Qed.

Lemma insert_by_deadline_perm (tm : Timer) (l : list Timer) :
  Permutation (insert_by_deadline tm l) (tm :: l).
Proof.
  induction l as [|x l IH]; cbn [insert_by_deadline]; [done|].
  destruct (deadline tm <? deadline x)%Z; [done|]. rewrite IH. apply perm_swap.
Qed.

Lemma due_timers_In (t : Z) (l : list Timer) (tm : Timer) :
  In tm (due_timers t l) <-> In tm l /\ (deadline tm <= t)%Z.
Proof.
  unfold due_timers.
  assert (forall l0 acc, Permutation
            (fold_left (fun acc tm => insert_by_deadline tm acc) l0 acc) (l0 ++ acc)) as H.
  { induction l0 as [|x l0 IH]; intros acc; cbn [fold_left app]; [done|].
    rewrite IH, insert_by_deadline_perm. by rewrite Permutation_middle. }
  specialize (H (List.filter (fun tm => (deadline tm <=? t)%Z) l) []).
  rewrite app_nil_r in H. split.
  - intros Hin. eapply Permutation_in in Hin; [|exact H].
    apply List.filter_In in Hin as [? ?]. split; [done|lia].
  - intros [Hin Hd]. eapply Permutation_in; [symmetry; exact H|].
    apply List.filter_In. split; [done|]. lia.
Qed.

(** A timer of [_markAsRead] that runs out leaves alone what [view] shows. *)
Lemma fire_mark (tm : Timer) (w : World) :
  is_focus_timer tm = false ->
  view (fire tm w) = view w /\ focused (fire tm w) = focused w
  /\ now (fire tm w) = now w /\ next_handle (fire tm w) = next_handle w
  /\ _onFocusChangedTimer (store (fire tm w)) = _onFocusChangedTimer (store w)
  /\ timers (fire tm w)
     = List.filter (fun x => negb (handle x =? handle tm)%nat) (timers w).
Proof.
  unfold is_focus_timer, fire. destruct (callback tm) as [|markAsReadId]; [done|].
  intros _. destruct (existsb _ (timers w)) eqn:Hex.
  - cbn [run_callback]. unfold markAsRead_timeout.
    cbn [clearTimeout set_timers store]. destruct (_thread (store w)) as [th|]; [|done].
    destruct (negb (markAsReadId =? thread_id th)%string || negb (thread_unread th));
      [done|].
    unfold view. cbn. rewrite List.filter_app. cbn. by rewrite app_nil_r.
  - repeat split. symmetry. apply filter_all.
    apply List.Forall_forall. intros x Hx.
    destruct (handle x =? handle tm)%nat eqn:Heq; [|done].
    assert (existsb (fun x => (handle x =? handle tm)%nat) (timers w) = true) as Hex'
      by (apply existsb_exists; eauto).
    congruence.
Qed.

Lemma fold_fire_marks (due : list Timer) (w : World) :
  Forall (fun tm => is_focus_timer tm = false) due ->
  let w' := fold_left (fun w tm => fire tm w) due w in
  view w' = view w /\ focused w' = focused w /\ now w' = now w
  /\ next_handle w' = next_handle w
  /\ _onFocusChangedTimer (store w') = _onFocusChangedTimer (store w)
  /\ timers w'
     = List.filter (fun x => negb (existsb (fun tm => (handle x =? handle tm)%nat) due))
         (timers w).
Proof.
  intros H. revert w. induction H as [|tm due Htm _ IH]; intros w; cbn [fold_left].
  - repeat split. symmetry. by apply filter_all, List.Forall_forall.
  - destruct (fire_mark tm w Htm) as (Hv & Hf & Hn & Hh & Ht & Htm').
    destruct (IH (fire tm w)) as (-> & -> & -> & -> & -> & ->).
    rewrite Htm', filter_filter. repeat split; try done.
    apply List.filter_ext. intros x. cbn [existsb]. by rewrite negb_orb.
Qed.

Lemma advance_marks (t : Z) (w : World) :
  Forall (fun tm => is_focus_timer tm = true -> (t < deadline tm)%Z) (timers w) ->
  view (advance t w) = view w /\ focused (advance t w) = focused w
  /\ now (advance t w) = Z.max (now w) t
  /\ next_handle (advance t w) = next_handle w
  /\ _onFocusChangedTimer (store (advance t w)) = _onFocusChangedTimer (store w)
  /\ exists keep, timers (advance t w) = List.filter keep (timers w)
       /\ forall tm, (t < deadline tm)%Z ->
            (forall x, In x (timers w) -> (deadline x <= t)%Z -> handle x <> handle tm) ->
            keep tm = true.
Proof.
  intros Hfocus. unfold advance.
  assert (Forall (fun tm => is_focus_timer tm = false) (due_timers t (timers w))) as Hdue.
  { apply List.Forall_forall. intros tm Htm. apply due_timers_In in Htm as [Hin Hd].
    eapply (proj1 (List.Forall_forall _ _)) in Hfocus; [|exact Hin].
    destruct (is_focus_timer tm); [|done]. specialize (Hfocus eq_refl). lia. }
  destruct (fold_fire_marks _ w Hdue) as (Hv & Hf & Hn & Hh & Ht & Htm).
  cbv zeta in Hv, Hf, Hn, Hh, Ht, Htm.
  set (w' := fold_left (fun w tm => fire tm w) (due_timers t (timers w)) w) in *.
  change (view w' = view w /\ focused w' = focused w
          /\ Z.max (now w) t = Z.max (now w) t
          /\ next_handle w' = next_handle w
          /\ _onFocusChangedTimer (store w') = _onFocusChangedTimer (store w)
          /\ exists keep, timers w' = List.filter keep (timers w)
               /\ forall tm, (t < deadline tm)%Z ->
                    (forall x, In x (timers w) -> (deadline x <= t)%Z ->
                       handle x <> handle tm) ->
                    keep tm = true).
  rewrite Htm. do 5 (split; [done|]).
  eexists. split; [done|]. intros tm Hlate Huniq. cbn.
  apply negb_true_iff. apply not_true_iff_false. intros Hex.
  apply existsb_exists in Hex as (x & Hx & Heq). apply due_timers_In in Hx as [Hx Hd].
  apply Nat.eqb_eq in Heq. by eapply Huniq.
Qed.

Lemma filter_idem {A} (p : A -> bool) (l : list A) :
  List.filter p (List.filter p l) = List.filter p l.
Proof.
  rewrite filter_filter. apply List.filter_ext. intros x. by destruct (p x).
Qed.

(** [_onApplyFocusChange] reads the focused thread and what [view] shows,
    nothing else. *)
Lemma onApplyFocusChange_view (w w' : World) :
  view w = view w' -> focused w = focused w' ->
  view (_onApplyFocusChange w) = view (_onApplyFocusChange w').
Proof.
  pose (rebuilt := fun '(s, es, p, ps) f =>
          {| store := s; focused := f; viewing := None; markAsReadDelay := 0;
             now := 0; next_handle := 0; timers := []; pending := p;
             piles := ps; effects := es |}).
  assert (forall w0, view (_onApplyFocusChange w0)
                     = view (_onApplyFocusChange (rebuilt (view w0) (focused w0)))) as H.
  { intros w0. unfold _onApplyFocusChange, view, rebuilt, threadId_.
    cbn [focused store upd_store set_lastMarkedAsReadThreadId set_onFocusChangedTimer
           _thread].
    destruct (focused w0) as [th|];
      cbn [store upd_store set_lastMarkedAsReadThreadId _thread];
      (destruct (decide (thread_id <$> _thread (store w0) = thread_id <$> Some th))
         as [Heq|Hne]
       || destruct (decide (thread_id <$> _thread (store w0) = thread_id <$> None))
            as [Heq|Hne]);
      [rewrite !bool_decide_true by exact Heq
      |rewrite !bool_decide_false by exact Hne
      |rewrite !bool_decide_true by exact Heq
      |rewrite !bool_decide_false by exact Hne];
      unfold _fetchFromCache, _setWindowTitle, trigger;
      cbn [store upd_store emit query_then set_pending effects pending piles _thread
             set_itemsExpanded set_showingHiddenItems set_itemsLoading set_items
             set_thread set_onFocusChangedTimer set_lastMarkedAsReadThreadId];
      rewrite ?List.filter_app, ?filter_idem; reflexivity. }
  intros Hv Hf. by rewrite (H w), (H w'), Hv, Hf.
Qed.

Lemma debouncing_calm (t t' : Z) (X : option Thread) v (w : World) :
  debouncing t X v w -> (t' < t + 100)%Z -> calm t' w.
Proof.
  intros (_ & _ & _ & h & rest & Hh & Hn & Htm & Hrest) Ht'.
  unfold calm, handles_fresh. rewrite Htm, Hn, Hh. split.
  - apply Forall_app. split.
    + eapply Forall_impl; [exact Hrest|]. cbn. intros tm [_ Hlt]. lia.
    + constructor; [cbn; lia|constructor].
  - apply Forall_app. split.
    + eapply Forall_impl; [exact Hrest|]. cbn. intros tm [Hf _] Hf'. congruence.
    + constructor; [|constructor]. by intros _.
Qed.

(** A focus change that finds the timer running only re-arms it. *)
Lemma focus_change_while_pending (t : Z) (X : option Thread) (w : World) (h : nat) :
  _onFocusChangedTimer (store w) = Some h ->
  calm t w -> (now w <= t)%Z ->
  debouncing t X (view w) (deliver t (FocusChanged true X) w).
Proof.
  intros Hh [Hfresh Hfocus] Hnow. unfold deliver.
  destruct (advance_marks t w) as (Hv & _ & Hn & Hnh & Ht & keep & Htm & _).
  { eapply Forall_impl; [exact Hfocus|]. cbn. intros tm H Hf. by apply H. }
  cbn [handle_event]. unfold _onFocusChanged. cbn [negb set_focused store].
  rewrite Ht, Hh. unfold debouncing.
  cbn [setTimeout clearTimeout set_timers upd_store store focused now next_handle
         timers set_focused].
  split; [by rewrite <- Hv|]. split; [done|]. split.
  { rewrite Hn. lia. }
  eexists _, _. split; [reflexivity|]. split; [reflexivity|]. split.
  { rewrite Hn, Z.max_r by done. reflexivity. }
  rewrite Htm, Hnh. apply List.Forall_forall. intros tm Hin.
  apply List.filter_In in Hin as [Hin Hne]. apply List.filter_In in Hin as [Hin _].
  split.
  - destruct (is_focus_timer tm) eqn:Hf; [|done].
    eapply (proj1 (List.Forall_forall _ _)) in Hfocus; [|exact Hin].
    destruct (Hfocus Hf) as [Heq _]. rewrite Hh in Heq. injection Heq as ->.
    by rewrite Nat.eqb_refl in Hne.
  - by eapply (proj1 (List.Forall_forall _ _)) in Hfresh; [|exact Hin].
Qed.

(** A focus change that finds no timer is applied at once, and arms it. *)
Lemma focus_change_while_idle (t : Z) (X : option Thread) (w : World) :
  _onFocusChangedTimer (store w) = None ->
  calm t w -> (now w <= t)%Z ->
  debouncing t X (view (_onApplyFocusChange (set_focused X w)))
    (deliver t (FocusChanged true X) w).
Proof.
  intros Hh [Hfresh Hfocus] Hnow. unfold deliver.
  destruct (advance_marks t w) as (Hv & _ & Hn & Hnh & Ht & keep & Htm & _).
  { eapply Forall_impl; [exact Hfocus|]. cbn. intros tm H Hf. by apply H. }
  cbn [handle_event]. unfold _onFocusChanged. cbn [negb set_focused store].
  rewrite Ht, Hh.
  destruct (onApplyFocusChange_spec (set_focused X (advance t w)))
    as (_ & Htm1 & Hnh1 & Hf1 & Hn1 & _).
  cbv zeta in Htm1, Hnh1, Hf1, Hn1. cbn [set_focused timers next_handle now focused] in *.
  assert (view (_onApplyFocusChange (set_focused X (advance t w)))
          = view (_onApplyFocusChange (set_focused X w)))
    as Hv1 by (by apply onApplyFocusChange_view).
  unfold debouncing.
  cbn [setTimeout upd_store store focused now timers set_timers next_handle].
  rewrite Htm1, Hnh1, Hn1, Hf1, Hn, Htm, Hnh, Z.max_r by done.
  split; [by rewrite <- Hv1|]. split; [done|]. split; [done|].
  eexists _, _. split; [reflexivity|]. split; [reflexivity|]. split; [reflexivity|].
  apply List.Forall_forall. intros tm Hin.
  apply List.filter_In in Hin as [Hin _]. split.
  - destruct (is_focus_timer tm) eqn:Hf; [|done].
    eapply (proj1 (List.Forall_forall _ _)) in Hfocus; [|exact Hin].
    destruct (Hfocus Hf) as [Heq _]. by rewrite Hh in Heq.
  - by eapply (proj1 (List.Forall_forall _ _)) in Hfresh; [|exact Hin].
Qed.

(** Once the focus timer has run, the due timers left change nothing
    that [view] shows. *)
Lemma fold_fire_after_focus (h : nat) (due : list Timer) (w : World) :
  Forall (fun x => handle x <> h) (timers w) ->
  Forall (fun tm => handle tm = h \/ is_focus_timer tm = false) due ->
  view (fold_left (fun w tm => fire tm w) due w) = view w.
Proof.
  intros Hw Hdue. revert w Hw.
  induction Hdue as [|tm due Htm _ IH]; intros w Hw; cbn [fold_left]; [done|].
  destruct Htm as [Hh|Hmark].
  - assert (fire tm w = w) as ->; [|by apply IH].
    unfold fire. rewrite Hh. destruct (existsb _ (timers w)) eqn:Hex; [|done].
    apply existsb_exists in Hex as (x & Hx & Heq). apply Nat.eqb_eq in Heq.
    by eapply (proj1 (List.Forall_forall _ _)) in Hw; [|exact Hx].
  - destruct (fire_mark tm w Hmark) as (Hv & _ & _ & _ & _ & Htm').
    rewrite IH; [done|]. rewrite Htm'.
    apply List.Forall_forall. intros x Hx. apply List.filter_In in Hx as [Hx _].
    by eapply (proj1 (List.Forall_forall _ _)) in Hw; [|exact Hx].
Qed.

(** Among the due timers the focus timer applies the focus change; the
    others are timers of [_markAsRead]. *)
Lemma fold_fire_focus (h : nat) (d : Z) (due : list Timer) (w : World) :
  In (mkTimer h d TFocus) (timers w) ->
  Forall (fun tm => tm = mkTimer h d TFocus
                    \/ (is_focus_timer tm = false /\ handle tm <> h)) due ->
  In (mkTimer h d TFocus) due ->
  view (fold_left (fun w tm => fire tm w) due w) = view (_onApplyFocusChange w).
Proof.
  intros Hw Hdue. revert w Hw.
  induction Hdue as [|tm due Htm Hdue IH]; intros w Hw Hin; cbn [fold_left]; [destruct Hin|].
  destruct Htm as [->|[Hmark Hne]].
  - clear IH Hin.
    assert (fire (mkTimer h d TFocus) w
            = _onApplyFocusChange
                (upd_store (set_onFocusChangedTimer None) (clearTimeout h w))) as Hfire.
    { unfold fire. cbn [handle callback run_callback].
      assert (existsb (fun x => (handle x =? h)%nat) (timers w) = true) as ->; [|done].
      apply existsb_exists. eexists. split; [exact Hw|]. apply Nat.eqb_refl. }
    rewrite (fold_fire_after_focus h).
    + rewrite Hfire. by apply onApplyFocusChange_view.
    + rewrite Hfire.
      destruct (onApplyFocusChange_spec
                  (upd_store (set_onFocusChangedTimer None) (clearTimeout h w)))
        as (_ & -> & _).
      cbn. apply List.Forall_forall. intros x Hx. apply List.filter_In in Hx as [_ Hx].
      intros Heq. by rewrite Heq, Nat.eqb_refl in Hx.
    + eapply Forall_impl; [exact Hdue|]. cbn. intros tm [->|[? _]]; [by left|by right].
  - destruct Hin as [->|Hin]; [done|].
    destruct (fire_mark tm w Hmark) as (Hv & Hf & _ & _ & _ & Htm').
    rewrite IH; [by apply onApplyFocusChange_view| |done].
    rewrite Htm'. apply List.filter_In. split; [done|]. cbn.
    apply negb_true_iff, Nat.eqb_neq. congruence.
Qed.

(** When the timer runs out, the focus change that armed it is applied. *)
Lemma focus_timer_fires (T t : Z) (X : option Thread) v (w w0 : World) :
  debouncing t X v w -> (t + 100 <= T)%Z -> view w0 = v ->
  view (deliver T Idle w) = view (_onApplyFocusChange (set_focused X w0)).
Proof.
  intros (Hv & Hf & Hn & h & rest & Hh & Hnh & Htm & Hrest) HtT Hv0.
  unfold deliver, advance. cbn [handle_event].
  transitivity (view (fold_left (fun w tm => fire tm w) (due_timers T (timers w)) w));
    [done|].
  rewrite (fold_fire_focus h (t + 100)).
  - apply onApplyFocusChange_view; [|exact Hf].
    transitivity (view w0); [by rewrite Hv, Hv0|reflexivity].
  - rewrite Htm. apply in_or_app. right. by left.
  - apply List.Forall_forall. intros tm Hin. apply due_timers_In in Hin as [Hin _].
    rewrite Htm in Hin. apply in_app_or in Hin as [Hin|[<-|[]]]; [|by left].
    eapply (proj1 (List.Forall_forall _ _)) in Hrest; [|exact Hin].
    right. destruct Hrest. split; [done|lia].
  - apply due_timers_In. split; [|done]. rewrite Htm. apply in_or_app. right. by left.
Qed.

(** Three focus changes in a burst, from any calm world: what can be seen
    follows the leading edge, if there is one, until the timer of the
    last change runs out and applies it. *)
Lemma focus_burst_from_calm (w : World) (t1 t2 t3 T : Z) (A B C : option Thread) :
  calm t1 w -> (now w <= t1)%Z ->
  (t1 <= t2 < t1 + 100)%Z -> (t2 <= t3 < t2 + 100)%Z -> (t3 + 100 <= T)%Z ->
  let w1 := deliver t1 (FocusChanged true A) w in
  let w2 := deliver t2 (FocusChanged true B) w1 in
  let w3 := deliver t3 (FocusChanged true C) w2 in
  let w4 := deliver T Idle w3 in
  let lead := match _onFocusChangedTimer (store w) with
              | Some _ => w
              | None => _onApplyFocusChange (set_focused A w)
              end in
  view w1 = view lead /\ view w2 = view lead /\ view w3 = view lead
  /\ view w4 = view (_onApplyFocusChange (set_focused C lead)).
Proof.
  intros Hcalm Hnow H12 H23 HT w1 w2 w3 w4 lead.
  assert (debouncing t1 A (view lead) w1) as D1.
  { subst w1 lead. destruct (_onFocusChangedTimer (store w)) as [h|] eqn:Hh.
    - by eapply focus_change_while_pending.
    - by apply focus_change_while_idle. }
  assert (debouncing t2 B (view lead) w2) as D2.
  { destruct D1 as (Hv & Hf & Hn & h & rest & Hh & Hnh & Htm & Hq) eqn:HD1.
    rewrite <- Hv. subst w2. eapply focus_change_while_pending; [exact Hh| |lia].
    eapply debouncing_calm; [exact D1|lia]. }
  assert (debouncing t3 C (view lead) w3) as D3.
  { destruct D2 as (Hv & Hf & Hn & h & rest & Hh & Hnh & Htm & Hq) eqn:HD2.
    rewrite <- Hv. subst w3. eapply focus_change_while_pending; [exact Hh| |lia].
    eapply debouncing_calm; [exact D2|lia]. }
  split; [apply D1|]. split; [apply D2|]. split; [apply D3|].
  subst w4. eapply focus_timer_fires; [exact D3|lia|done].
Qed.

(** ** The timers of reachable worlds *)

Lemma sound_filter (p : Timer -> bool) (l : list Timer) (n : nat) (held : option nat) :
  sound (l, n, held) -> sound (List.filter p l, n, held).
Proof.
  intros (Hf & Hd & Ho). split; [|split].
  - apply List.Forall_forall. intros tm Htm. apply List.filter_In in Htm as [Htm _].
    by eapply (proj1 (List.Forall_forall _ _)) in Hf; [|exact Htm].
  - clear Hf Ho. induction l as [|x l IH]; cbn [List.filter map]; [constructor|].
    apply NoDup_cons_iff in Hd as [Hx Hd]. destruct (p x); [|by apply IH].
    cbn [map]. apply NoDup_cons_iff. split; [|by apply IH].
    intros Hin. apply Hx. apply in_map_iff in Hin as (y & Hy & Hin).
    apply List.filter_In in Hin as [Hin _]. apply in_map_iff. eauto.
  - apply List.Forall_forall. intros tm Htm. apply List.filter_In in Htm as [Htm _].
    by eapply (proj1 (List.Forall_forall _ _)) in Ho; [|exact Htm].
Qed.

Lemma sound_arm (cb : TimerCallback) (d : Z) (l : list Timer) (n : nat)
    (held held' : option nat) :
  sound (l, n, held) ->
  (cb = TFocus -> held' = Some n /\ Forall (fun tm => is_focus_timer tm = false) l) ->
  (cb <> TFocus -> held' = held) ->
  sound (l ++ [mkTimer n d cb], S n, held').
Proof.
  intros (Hf & Hd & Ho) Hfocus Hmark. split; [|split].
  - apply Forall_app. split.
    + eapply Forall_impl; [exact Hf|]. cbn. lia.
    + constructor; [cbn; lia|constructor].
  - rewrite map_app. cbn [map].
    eapply Permutation_NoDup; [apply Permutation_cons_append|].
    apply NoDup_cons_iff. split; [|done].
    intros Hin. apply in_map_iff in Hin as (tm & Heq & Hin). cbn in Heq.
    eapply (proj1 (List.Forall_forall _ _)) in Hf; [|exact Hin]. lia.
  - apply Forall_app. split.
    + apply List.Forall_forall. intros tm Htm Htf.
      destruct cb as [|id].
      * destruct (Hfocus eq_refl) as [_ Hnone].
        eapply (proj1 (List.Forall_forall _ _)) in Hnone; [|exact Htm]. congruence.
      * rewrite Hmark by done.
        eapply (proj1 (List.Forall_forall _ _)) in Ho; [|exact Htm]. by apply Ho.
    + constructor; [|constructor]. unfold is_focus_timer. cbn.
      destruct cb; [|done]. intros _. by destruct (Hfocus eq_refl).
Qed.

Lemma sound_no_focus_timer (l : list Timer) (n : nat) :
  sound (l, n, None) -> Forall (fun tm => is_focus_timer tm = false) l.
Proof.
  intros (_ & _ & Ho). eapply Forall_impl; [exact Ho|]. cbn. intros tm H.
  destruct (is_focus_timer tm); [|done]. by specialize (H eq_refl).
Qed.

Lemma sound_focus_cleared (l : list Timer) (n h : nat) (held' : option nat) :
  sound (l, n, Some h) ->
  sound (List.filter (fun tm => negb (handle tm =? h)%nat) l, n, held').
Proof.
  intros Hs. destruct (sound_filter (fun tm => negb (handle tm =? h)%nat) _ _ _ Hs)
    as (Hf & Hd & _). split; [done|]. split; [done|].
  destruct Hs as (_ & _ & Ho).
  apply List.Forall_forall. intros tm Htm Htf. apply List.filter_In in Htm as [Htm Hne].
  eapply (proj1 (List.Forall_forall _ _)) in Ho; [|exact Htm].
  specialize (Ho Htf). injection Ho as ->. by rewrite Nat.eqb_refl in Hne.
Qed.

Lemma fetchFromCache_timer_state (w : World) :
  timer_state (_fetchFromCache w) = timer_state w.
Proof. unfold _fetchFromCache. by destruct (_thread (store w)). Qed.

Lemma onDataChanged_timer_state (change : DatabaseChangeRecord) (w : World) :
  timer_state (_onDataChanged change w) = timer_state w.
Proof.
  unfold _onDataChanged. destruct (_thread (store w)) as [th|]; [|done].
  destruct change as [ty [objs|objs|]]; cbn [objects change_type]; [| |done].
  - destruct (negb (existsb _ objs)); [done|].
    destruct objs as [|item [|item' objs]]; try apply fetchFromCache_timer_state.
    destruct (draft item); [|apply fetchFromCache_timer_state].
    destruct (findIndex _ (_items (store w))), ty;
      (apply fetchFromCache_timer_state || done).
  - destruct (List.find _ objs); [|done]. by rewrite fetchFromCache_timer_state.
Qed.

Lemma expandItem_fold_timer_state (l : list Message) (w : World) :
  timer_state (fold_left (fun w i => _expandItem i w) l w) = timer_state w.
Proof.
  revert w. induction l as [|x l IH]; intros w; cbn [fold_left]; [done|].
  by rewrite IH.
Qed.

Lemma collapseItem_fold_timer_state (l : list Message) (w : World) :
  timer_state (fold_left (fun w i => _collapseItem i w) l w) = timer_state w.
Proof.
  revert w. induction l as [|x l IH]; intros w; cbn [fold_left]; [done|].
  by rewrite IH.
Qed.

Lemma fetchFromCache_then_timer_state (cals : list Calendar) (w : World) :
  timer_state (fetchFromCache_then cals w) = timer_state w.
Proof.
  unfold fetchFromCache_then. cbn [store upd_store _thread set_ownEmailAddresses].
  destruct (_thread (store w)) as [th|]; [|done].
  match goal with |- context [fold_left ?f ?l ?w0] =>
    assert (forall l0 w1, timer_state (fold_left f l0 w1) = timer_state w1) as H
  end.
  { induction l0 as [|c l0 IH]; intros w1; cbn [fold_left]; [done|].
    rewrite IH. by destruct (negb _). }
  unfold fetchThreads.
  match goal with |- context [String.eqb ?e ""] => destruct (String.eqb e "") end.
  - by rewrite H.
  - etransitivity;
      [|exact (H (participants th)
                 (upd_store (set_ownEmailAddresses (map cal_name cals)) w))].
    reflexivity.
Qed.

Lemma fetchFromCachePart2_timer_state (threads : list Thread) (w : World) :
  timer_state (_fetchFromCachePart2 threads w) = timer_state w.
Proof.
  unfold _fetchFromCachePart2, timer_state.
  match goal with |- context [part2_loop ?p ?n ?l ?w0] =>
    destruct (part2_loop_frame p l n w0) as (-> & _ & _ & -> & _) end.
  cbn [set_piles timers store].
  assert (forall p l n w0, next_handle (part2_loop p n l w0) = next_handle w0) as H.
  { intros p l. induction l as [|x l IH]; intros n w0; cbn [part2_loop]; [done|].
    by rewrite IH. }
  by rewrite H.
Qed.

Lemma markAsRead_timer_state (w : World) :
  timer_state (_markAsRead w) = timer_state w
  \/ exists d id,
       timer_state (_markAsRead w)
       = (timers w ++ [mkTimer (next_handle w) d (TMarkAsRead id)],
          S (next_handle w), _onFocusChangedTimer (store w)).
Proof.
  unfold _markAsRead. destruct (_thread (store w)) as [th|]; [|by left].
  case_bool_decide; [by left|]. destruct (thread_unread th); [|by left].
  cbn [upd_store markAsReadDelay]. destruct (markAsReadDelay w <? 0)%Z; [by left|].
  right. by eexists _, _.
Qed.

Lemma part2_then_timer_state (pile : nat) (found : list Message) (w : World) :
  timer_state (part2_then pile found w) = timer_state w
  \/ exists d id,
       timer_state (part2_then pile found w)
       = (timers w ++ [mkTimer (next_handle w) d (TMarkAsRead id)],
          S (next_handle w), _onFocusChangedTimer (store w)).
Proof.
  unfold part2_then.
  match goal with |- context [_markAsRead ?w0] =>
    assert (timer_state w0 = timer_state w) as H0;
    [|destruct (markAsRead_timer_state w0) as [H|(d & id & H)]]
  end.
  - unfold _fetchMissingBodies. by repeat case_match.
  - left. etransitivity; [exact H|exact H0].
  - right. exists d, id.
    etransitivity; [exact H|]. unfold timer_state in H0. injection H0 as E1 E2 E3.
    f_equal; [f_equal|exact E3]; [f_equal; [exact E1|]|f_equal; exact E2].
    f_equal. f_equal. exact E2.
Qed.

Lemma onFocusChanged_sound (impactsThread : bool) (w : World) :
  sound (timer_state w) -> sound (timer_state (_onFocusChanged impactsThread w)).
Proof.
  intros Hs. unfold _onFocusChanged. destruct impactsThread; cbn [negb]; [|done].
  destruct (_onFocusChangedTimer (store w)) as [h|] eqn:Hh.
  - unfold timer_state in *. rewrite Hh in Hs.
    cbn [setTimeout clearTimeout set_timers upd_store store timers next_handle
           set_onFocusChangedTimer _onFocusChangedTimer].
    apply (sound_arm TFocus _ _ _ None); [|split; [done|]|done].
    + by apply sound_focus_cleared.
    + eapply sound_no_focus_timer. by apply sound_focus_cleared.
  - destruct (onApplyFocusChange_spec w) as (_ & Htm & Hnh & _ & _ & Ht & _).
    cbv zeta in Htm, Hnh, Ht. unfold timer_state in *. rewrite Hh in Hs.
    cbn [setTimeout set_timers upd_store store timers next_handle
           set_onFocusChangedTimer _onFocusChangedTimer].
    rewrite Htm, Hnh.
    apply (sound_arm TFocus _ _ _ None); [done|split; [done|]|done].
    by eapply sound_no_focus_timer.
Qed.

Lemma handle_event_sound (e : Event) (w : World) :
  sound (timer_state w) -> sound (timer_state (handle_event e w)).
Proof.
  intros Hs. destruct e as [change|imp f|v|id| | |k r|]; cbn [handle_event].
  - by rewrite onDataChanged_timer_state.
  - by apply onFocusChanged_sound.
  - done.
  - unfold _onToggleMessageIdExpanded.
    destruct (List.find _ (_items (store w))); [|done].
    by destruct (truthy_property (_itemsExpanded (store w)) id).
  - unfold _onToggleAllMessagesExpanded.
    change (timer_state (trigger ?w0)) with (timer_state w0).
    destruct (hasCollapsedItems (store w)).
    + by rewrite expandItem_fold_timer_state.
    + by rewrite collapseItem_fold_timer_state.
  - done.
  - unfold resolve.
    destruct (pending w !! k) as [[|search|pile index ofThread]|]; [| | |done];
      destruct r as [cals|threads|found]; try done.
    + by rewrite fetchFromCache_then_timer_state.
    + by rewrite fetchFromCachePart2_timer_state.
    + destruct (part2_then_timer_state pile found (set_pending (delete k (pending w)) w))
        as [->|(d & id & ->)]; [done|].
      cbn [set_pending timers next_handle store].
      apply (sound_arm (TMarkAsRead id) _ _ _ (_onFocusChangedTimer (store w)));
        [done|discriminate|done].
  - done.
Qed.

Lemma NoDup_map_eq {A B} (f : A -> B) (l : list A) (x y : A) :
  List.NoDup (map f l) -> In x l -> In y l -> f x = f y -> x = y.
Proof.
  induction l as [|z l IH]; cbn [map]; intros Hd Hx Hy Heq; [destruct Hx|].
  apply NoDup_cons_iff in Hd as [Hz Hd].
  destruct Hx as [->|Hx], Hy as [->|Hy]; [done| | |by apply IH].
  - destruct Hz. rewrite Heq. by apply in_map.
  - destruct Hz. rewrite <- Heq. by apply in_map.
Qed.

Lemma fire_sound (tm : Timer) (w : World) :
  sound (timer_state w) ->
  (forall x, In x (timers w) -> handle x = handle tm -> x = tm) ->
  sound (timer_state (fire tm w))
  /\ forall x, In x (timers (fire tm w)) -> In x (timers w).
Proof.
  intros Hs Huniq. unfold fire.
  destruct (existsb _ (timers w)) eqn:Hex; [|done].
  apply existsb_exists in Hex as (x & Hx & Heq). apply Nat.eqb_eq in Heq.
  pose proof (Huniq x Hx Heq) as ->.
  destruct (callback tm) as [|markAsReadId] eqn:Hcb; cbn [run_callback].
  - unfold focusChanged_timeout.
    destruct (onApplyFocusChange_spec
                (upd_store (set_onFocusChangedTimer None) (clearTimeout (handle tm) w)))
      as (_ & Htm & Hnh & _ & _ & Ht & _).
    cbv zeta in Htm, Hnh, Ht. unfold timer_state in *. rewrite Htm, Hnh, Ht.
    cbn [upd_store clearTimeout set_timers store timers next_handle
           set_onFocusChangedTimer _onFocusChangedTimer].
    assert (_onFocusChangedTimer (store w) = Some (handle tm)) as Hheld.
    { destruct Hs as (_ & _ & Ho).
      eapply (proj1 (List.Forall_forall _ _)) in Ho; [|exact Hx].
      apply Ho. unfold is_focus_timer. by rewrite Hcb. }
    rewrite Hheld in Hs. split; [by apply sound_focus_cleared|].
    intros y Hy. by apply List.filter_In in Hy as [Hy _].
  - unfold markAsRead_timeout. cbn [clearTimeout set_timers store].
    assert (forall w0, timer_state w0
              = (List.filter (fun x => negb (handle x =? handle tm)%nat) (timers w),
                 next_handle w, _onFocusChangedTimer (store w)) ->
            sound (timer_state w0) /\ forall y, In y (timers w0) -> In y (timers w)) as H.
    { intros w0 H0. rewrite H0. split; [by apply sound_filter|].
      unfold timer_state in H0. injection H0 as -> _ _.
      intros y Hy. by apply List.filter_In in Hy as [Hy _]. }
    destruct (_thread (store w)) as [th|]; [|by apply H].
    destruct (negb _ || negb _); by apply H.
Qed.

Lemma advance_sound (t : Z) (w : World) :
  sound (timer_state w) -> sound (timer_state (advance t w)).
Proof.
  intros Hs. unfold advance.
  change (timer_state (set_now ?x ?w0)) with (timer_state w0).
  assert (forall tm, In tm (due_timers t (timers w)) ->
            forall x, In x (timers w) -> handle x = handle tm -> x = tm) as Huniq.
  { intros tm Htm x Hx Heq. apply due_timers_In in Htm as [Htm _].
    destruct Hs as (_ & Hd & _). by eapply NoDup_map_eq. }
  revert Hs Huniq. generalize (due_timers t (timers w)). intros due. revert w.
  induction due as [|tm due IH]; intros w Hs Huniq; cbn [fold_left]; [done|].
  destruct (fire_sound tm w Hs) as [Hs' Hsub].
  { intros x Hx. apply Huniq; [by left|done]. }
  apply IH; [done|]. intros tm' Htm' x Hx. apply Huniq; [by right|by apply Hsub].
Qed.

Lemma reachable_sound (evs : list (Z * Event)) :
  sound (timer_state (run evs initial_world)).
Proof.
  assert (forall w, sound (timer_state w) -> sound (timer_state (run evs w))) as H.
  { induction evs as [|[t e] evs IH]; intros w Hs; cbn [run]; [done|].
    apply IH. unfold deliver. by apply handle_event_sound, advance_sound. }
  apply H. repeat split; constructor.
Qed.

(** In a reachable world the store is [calm] as soon as its focus timer,
    if armed, is not due. *)
Lemma reachable_calm (evs : list (Z * Event)) (t : Z) :
  Forall (fun tm => is_focus_timer tm = true -> (t < deadline tm)%Z)
    (timers (run evs initial_world)) ->
  calm t (run evs initial_world).
Proof.
  intros Hlate. destruct (reachable_sound evs) as (Hf & _ & Ho).
  split; [done|]. apply List.Forall_forall. intros tm Htm Hfocus.
  eapply (proj1 (List.Forall_forall _ _)) in Hlate, Ho; [|exact Htm..].
  split; [by apply Ho|by apply Hlate].
Qed.

(** ** The burst of focus changes *)

(** C4, as amended. In every state the store can reach, let three focus
    changes arrive, each less than 100 ms after the one before. If the
    debounce timer is running when the first arrives, nothing that can be
    seen of the store changes during the burst -- no target is applied, no
    query is launched -- and when the timer armed by the last change runs
    out, the entity of the last change is applied, once. If no timer is
    running when the first arrives, the entity of the first change is
    applied at once, on the leading edge, and the rest is the same: the
    second is never applied nor fetched, the third is applied when the
    timer runs out. (Applying the thread that is already shown changes
    nothing.) *)
Theorem focus_burst_is_coalesced (evs : list (Z * Event)) (t1 t2 t3 T : Z)
    (A B C : option Thread) :
  let w := run evs initial_world in
  Forall (fun tm => is_focus_timer tm = true -> (t1 < deadline tm)%Z) (timers w) ->
  (now w <= t1)%Z ->
  (t1 <= t2 < t1 + 100)%Z -> (t2 <= t3 < t2 + 100)%Z -> (t3 + 100 <= T)%Z ->
  let w1 := deliver t1 (FocusChanged true A) w in
  let w2 := deliver t2 (FocusChanged true B) w1 in
  let w3 := deliver t3 (FocusChanged true C) w2 in
  let w4 := deliver T Idle w3 in
  let lead := match _onFocusChangedTimer (store w) with
              | Some _ => w
              | None => _onApplyFocusChange (set_focused A w)
              end in
  view w1 = view lead /\ view w2 = view lead /\ view w3 = view lead
  /\ view w4 = view (_onApplyFocusChange (set_focused C lead)).
Proof.
  intros w Hlate. apply focus_burst_from_calm. by apply reachable_calm.
Qed.

Lemma focus_burst_is_coalesced_witness :
  view Burst.second' = view Burst.first /\ view Burst.third' = view Burst.first
  /\ view Burst.fourth' = view Burst.first
  /\ view Burst.settled'
     = view (_onApplyFocusChange (set_focused (Some Sample.threadA2) Burst.first)).
Proof.
  apply (focus_burst_is_coalesced [(0%Z, FocusChanged true (Some Sample.threadA))]
           40 80 120 300
           (Some Sample.threadB) (Some Sample.threadC) (Some Sample.threadA2)).
  - vm_compute. constructor; [|constructor]. intros _. reflexivity.
  - vm_compute. discriminate.
  - lia.
  - lia.
  - lia.
Defined.

(** C4, as worded, fails when the burst finds the store idle: the first of
    the three focus changes (to thread A) is applied and fetched at once,
    the last (to thread C) when the timer runs out; two transitions are
    applied, not one. The middle one (to thread B) is never applied. *)
Lemma focus_burst_applies_first_and_last :
  ~ applies_only_the_last initial_world 0 50 100 300
      (Some Sample.threadA) (Some Sample.threadB) (Some Sample.threadC)
  /\ threadId_ (store Burst.first) = Some "A"
  /\ pending Burst.first = [KCalendars]
  /\ view Burst.second = view Burst.first
  /\ view Burst.third = view Burst.first
  /\ effects Burst.settled
     = [Trigger; SetTitle "Mailspring · Lunch"; Trigger; SetTitle "Mailspring · Minutes"]
  /\ threadId_ (store Burst.settled) = Some "C".
Proof.
  split.
  - intros (H1 & _). vm_compute in H1. discriminate H1.
  - vm_compute. repeat split.
Qed.

(** * Further properties *)

(** ** Re-threading keeps the messages *)

Lemma insert_after_target_stays (d : Message) (l : list Message) :
  isReplyDraft d = true ->
  List.filter stays_put (insert_after_target d l) = List.filter stays_put l.
Proof.
  intros Hd. unfold stays_put.
  induction l as [|x l IH]; cbn [insert_after_target List.filter].
  - by rewrite Hd.
  - case_bool_decide; cbn [List.filter]; rewrite ?Hd, ?IH; cbn [negb]; done.
Qed.

Lemma fold_insert_after_target_stays (drafts base : list Message) :
  Forall (fun d => isReplyDraft d = true) drafts ->
  List.filter stays_put (fold_left (fun acc d => insert_after_target d acc) drafts base)
  = List.filter stays_put base.
Proof.
  intros H. revert base. induction H as [|d drafts Hd _ IH]; intros base;
    cbn [fold_left]; [done|].
  by rewrite IH, insert_after_target_stays.
Qed.

(** X1. [_sortItemsForDisplay] neither loses nor duplicates a message,
    moves only the drafts that carry a reply reference -- the other
    messages keep their order -- and returns a list without such drafts
    as it is. *)
Theorem sortItemsForDisplay_moves_only_reply_drafts (items : list Message) :
  Permutation (_sortItemsForDisplay items) items
  /\ List.filter stays_put (_sortItemsForDisplay items) = List.filter stays_put items
  /\ (Forall (fun m => isReplyDraft m = false) items ->
      _sortItemsForDisplay items = items).
Proof.
  split; [apply sortItemsForDisplay_perm|]. split.
  - rewrite sortItemsForDisplay_rethread. unfold rethread.
    rewrite fold_insert_after_target_stays.
    + apply filter_idem.
    + apply Forall_rev, filter_Forall.
  - intros Hnone. rewrite sortItemsForDisplay_rethread. unfold rethread.
    rewrite (filter_none isReplyDraft) by done. cbn [rev fold_left].
    apply filter_all. eapply Forall_impl; [exact Hnone|]. cbn. by intros m ->.
Qed.

Lemma sortItemsForDisplay_moves_only_reply_drafts_witness :
  _sortItemsForDisplay [Sample.m1; Sample.m2; Sample.d2]
  = [Sample.m1; Sample.m2; Sample.d2].
Proof.
  apply (proj2 (proj2 (sortItemsForDisplay_moves_only_reply_drafts
                         [Sample.m1; Sample.m2; Sample.d2]))).
  repeat constructor.
Defined.

(** ** The date order of a loaded list *)

Lemma insert_by_date_sorted (a : Message) (l : list Message) :
  StronglySorted by_date l -> StronglySorted by_date (insert_by_date a l).
Proof.
  induction 1 as [|b l Hl IH Hb]; cbn [insert_by_date].
  - repeat constructor.
  - destruct (Z.gtb_spec (date a) (date b)) as [Hgt|Hle].
    + constructor; [done|].
      eapply Permutation_Forall; [symmetry; apply insert_by_date_perm|].
      constructor; [unfold by_date; lia|done].
    + constructor; [by constructor|]. constructor; [done|].
      eapply Forall_impl; [exact Hb|]. unfold by_date. cbn. lia.
Qed.

Lemma sort_by_date_sorted (l : list Message) : StronglySorted by_date (sort_by_date l).
Proof.
  unfold sort_by_date.
  assert (forall acc, StronglySorted by_date acc ->
            StronglySorted by_date (fold_left (fun acc a => insert_by_date a acc) l acc))
    as H.
  { induction l as [|a l IH]; intros acc Hacc; cbn [fold_left]; [done|].
    by apply IH, insert_by_date_sorted. }
  apply H. constructor.
Qed.

(** Two date-sorted lists with the same messages are the same list when
    no two messages share a date. *)
Lemma sorted_by_date_unique (l l' : list Message) :
  StronglySorted by_date l -> StronglySorted by_date l' ->
  Permutation l l' -> List.NoDup (map date l) -> l = l'.
Proof.
  revert l'. induction l as [|a l IH]; intros l' Hs Hs' Hp Hd.
  - by apply Permutation_nil in Hp.
  - destruct l' as [|b l']; [by apply Permutation_sym, Permutation_nil in Hp|].
    apply StronglySorted_inv in Hs as [Hs Ha], Hs' as [Hs' Hb].
    cbn [map] in Hd. apply NoDup_cons_iff in Hd as [Hna Hd].
    assert (a = b) as <-.
    { assert (In a (b :: l')) as Hin by (eapply Permutation_in; [exact Hp|by left]).
      assert (In b (a :: l)) as Hin'
        by (eapply Permutation_in; [symmetry; exact Hp|by left]).
      destruct Hin as [->|Hin]; [done|]. destruct Hin' as [->|Hin']; [done|].
      eapply (proj1 (List.Forall_forall _ _)) in Ha, Hb; [|exact Hin|exact Hin'].
      unfold by_date in Ha, Hb. destruct Hna.
      replace (date a) with (date b) by lia. by apply in_map. }
    f_equal. apply IH; try done. by apply Permutation_cons_inv in Hp.
Qed.

Lemma loaded_list_perm (l : list Message) :
  Permutation (sort_by_date (_sortItemsForDisplay (List.filter not_hidden l)))
    (List.filter not_hidden l).
Proof. by rewrite sort_by_date_perm, sortItemsForDisplay_perm. Qed.

(** X2. When a message query answers, the cached list becomes the
    messages accumulated so far that are not hidden, each exactly once.
    When no two of them share a date they stand in ascending date order:
    the date sort comes after the re-threading and overrides it. (On a
    tie the comparator [(a.date > b.date) ? 1 : -1] is not consistent and
    the order of the tied messages is left to the engine.) *)
Theorem answered_list_is_in_date_order (w : World) (k pile index : nat)
    (ofThread : string) (found : list Message) :
  pending w !! k = Some (KMessages pile index ofThread) ->
  let w' := resolve k (RMessages found) w in
  let accumulated := default [] (piles w !! pile) ++ map fill_body found in
  Permutation (_items (store w')) (List.filter not_hidden accumulated)
  /\ piles w' = <[pile := accumulated]> (piles w)
  /\ (List.NoDup (map date (List.filter not_hidden accumulated)) ->
      StronglySorted by_date (_items (store w'))).
Proof.
  intros Hk. cbv zeta. unfold resolve. rewrite Hk.
  destruct (part2_then_spec pile found (set_pending (delete k (pending w)) w))
    as (-> & -> & _).
  split; [apply loaded_list_perm|]. split; [done|]. intros _. apply sort_by_date_sorted.
Qed.

Lemma answered_list_is_in_date_order_witness :
  let w' := resolve 0 (RMessages [Sample.d1; Sample.m2; Sample.m1]) Sample.fetching_A in
  let accumulated :=
    default [] (piles Sample.fetching_A !! 0%nat)
    ++ map fill_body [Sample.d1; Sample.m2; Sample.m1] in
  Permutation (_items (store w')) (List.filter not_hidden accumulated)
  /\ StronglySorted by_date (_items (store w')).
Proof.
  pose proof (answered_list_is_in_date_order Sample.fetching_A 0 0 0 "A"
                [Sample.d1; Sample.m2; Sample.m1] eq_refl) as H.
  cbv zeta in H. destruct H as (Hperm & _ & Hsorted).
  split; [exact Hperm|]. apply Hsorted. clear Hperm Hsorted.
  vm_compute. repeat constructor; cbn; intuition discriminate.
Defined.

Lemma piles_set_pending (p : list Cont) (w : World) :
  piles (set_pending p w) = piles w.
Proof. reflexivity. Qed.

Lemma resolve_message_query (w : World) (k pile index : nat) (ofThread : string)
    (found : list Message) :
  pending w !! k = Some (KMessages pile index ofThread) ->
  resolve k (RMessages found) w
  = part2_then pile found (set_pending (delete k (pending w)) w).
Proof. intros Hk. unfold resolve. by rewrite Hk. Qed.

Lemma resolve_two_message_queries (w : World) (pile k j ia ib : nat) (ta tb : string)
    (fa fb : list Message) :
  (pile < length (piles w))%nat ->
  pending w !! k = Some (KMessages pile ia ta) ->
  delete k (pending w) !! j = Some (KMessages pile ib tb) ->
  _items (store (resolve j (RMessages fb) (resolve k (RMessages fa) w)))
  = sort_by_date (_sortItemsForDisplay (List.filter not_hidden
      ((default [] (piles w !! pile) ++ map fill_body fa) ++ map fill_body fb))).
Proof.
  intros Hpile Hk Hj.
  rewrite (resolve_message_query w k pile ia ta fa Hk).
  pose proof (part2_then_spec pile fa (set_pending (delete k (pending w)) w))
    as (_ & Hpiles & _ & _ & _ & Hpend & _).
  rewrite (resolve_message_query _ j pile ib tb fb) by (by rewrite Hpend).
  pose proof (part2_then_spec pile fb
                (set_pending (delete j (pending (part2_then pile fa
                   (set_pending (delete k (pending w)) w))))
                   (part2_then pile fa (set_pending (delete k (pending w)) w))))
    as (Hitems & _).
  rewrite Hitems, !piles_set_pending, Hpiles, !piles_set_pending.
  by rewrite list_lookup_insert_eq by done.
Qed.

(** X3. The message queries of one fetch may answer in either order: when
    no two of the accumulated visible messages share a date, the cached
    list after both answers is the same. *)
Theorem answers_commute (w : World) (pile i1 i2 : nat) (t1 t2 : string)
    (rest : list Cont) (found1 found2 : list Message) :
  pending w = KMessages pile i1 t1 :: KMessages pile i2 t2 :: rest ->
  (pile < length (piles w))%nat ->
  List.NoDup (map date (List.filter not_hidden
    (default [] (piles w !! pile) ++ map fill_body found1 ++ map fill_body found2))) ->
  _items (store (resolve 0 (RMessages found2) (resolve 0 (RMessages found1) w)))
  = _items (store (resolve 0 (RMessages found1) (resolve 1 (RMessages found2) w))).
Proof.
  intros Hp Hpile Hd.
  rewrite (resolve_two_message_queries w pile 0 0 i1 i2 t1 t2 found1 found2)
    by (done || by rewrite Hp).
  rewrite (resolve_two_message_queries w pile 1 0 i2 i1 t2 t1 found2 found1)
    by (done || by rewrite Hp).
  apply sorted_by_date_unique; try apply sort_by_date_sorted.
  - rewrite !loaded_list_perm, <- !app_assoc, !List.filter_app.
    apply Permutation_app_head, Permutation_app_comm.
  - eapply Permutation_NoDup; [|exact Hd]. apply Permutation_map.
    rewrite loaded_list_perm. by rewrite <- app_assoc.
Qed.

Lemma answers_commute_witness :
  _items (store (resolve 0 (RMessages [Sample.a2])
                   (resolve 0 (RMessages [Sample.m1; Sample.m2]) Cycle.two_queries)))
  = _items (store (resolve 0 (RMessages [Sample.m1; Sample.m2])
                     (resolve 1 (RMessages [Sample.a2]) Cycle.two_queries))).
Proof.
  apply (answers_commute Cycle.two_queries 0 0 1 "A" "A2" []).
  - reflexivity.
  - vm_compute. lia.
  - vm_compute. repeat constructor; cbn; intuition discriminate.
Defined.

(** ** Expansion *)

Lemma expand_defaults_idem (visible : list Message) (m : gmap string Expansion) :
  expand_defaults visible (expand_defaults visible m) = expand_defaults visible m.
Proof.
  apply map_eq. intros i. unfold expand_defaults at 1.
  destruct (expand_loop_lookup (Z.of_nat (length visible))
              (lastDraftIdx_loop 0 visible (-1)) visible 0
              (expand_defaults visible m) i)
    as [[(k & item & Hk & Hi & He) Hr]|[_ Hr]]; rewrite Hr; [|done].
  rewrite Z.add_0_l in He. apply (expands_by_default_rule visible k item Hk) in He.
  symmetry. rewrite <- Hi. by eapply expand_defaults_marks.
Qed.

(** X4. Recomputing the expansion defaults a second time changes nothing,
    and the recomputation touches nothing but the expansion map: the
    visible list, the effects and the queries stay as they are. *)
Theorem expandItemsToDefault_idempotent (w : World) :
  _expandItemsToDefault (_expandItemsToDefault w) = _expandItemsToDefault w
  /\ items (viewing w) (store (_expandItemsToDefault w)) = items (viewing w) (store w)
  /\ set_itemsExpanded (_itemsExpanded (store w)) (store (_expandItemsToDefault w))
     = store w
  /\ effects (_expandItemsToDefault w) = effects w
  /\ pending (_expandItemsToDefault w) = pending w.
Proof.
  split; [|split; [done|split; [by destruct w as [[]]|done]]].
  unfold _expandItemsToDefault, upd_store.
  cbn [store focused viewing markAsReadDelay now next_handle timers pending piles
       effects].
  f_equal. unfold set_itemsExpanded, items.
  cbn [_showingHiddenItems _items _thread _itemsExpanded _itemsLoading
       _lastMarkedAsReadThreadId _onFocusChangedTimer ownEmailAddresses
       strangerEmailAddress].
  f_equal. apply expand_defaults_idem.
Qed.

(** X5. [hasCollapsedItems] compares two counts. It answers whether some
    listed message is collapsed as long as the ids of the list are
    pairwise different and every entry of the expansion map belongs to a
    listed message. *)
Theorem hasCollapsedItems_finds_collapsed (s : Store) :
  List.NoDup (itemIds s) ->
  (forall i, is_Some (_itemsExpanded s !! i) -> In i (itemIds s)) ->
  hasCollapsedItems s = true
  <-> exists m, In m (_items s) /\ _itemsExpanded s !! msg_id m = None.
Proof.
  intros Hnd Hwithin. unfold hasCollapsedItems. rewrite Nat.ltb_lt.
  set (D := dom (_itemsExpanded s) : gset string).
  set (I := list_to_set (itemIds s) : gset string).
  assert (size (_itemsExpanded s) = size D) as -> by (symmetry; apply size_dom).
  assert (length (_items s) = size I) as ->.
  { subst I. rewrite size_list_to_set by (by apply NoDup_ListNoDup).
    unfold itemIds. by rewrite length_map. }
  assert (D ⊆ I) as Hsub.
  { intros i Hi. apply elem_of_dom in Hi. apply elem_of_list_to_set, list_elem_of_In.
    by apply Hwithin. }
  split.
  - intros Hlt.
    destruct (List.find (fun m => bool_decide (_itemsExpanded s !! msg_id m = None))
                (_items s)) as [m|] eqn:Hfind.
    + apply List.find_some in Hfind as [Hin Hnone]. apply bool_decide_eq_true in Hnone.
      by exists m.
    + assert (I ⊆ D) as Hsup.
      { intros i Hi. apply elem_of_list_to_set, list_elem_of_In in Hi.
        apply in_map_iff in Hi as (m & <- & Hm).
        eapply List.find_none in Hfind; [|exact Hm].
        apply bool_decide_eq_false in Hfind. apply elem_of_dom.
        by destruct (_itemsExpanded s !! msg_id m); [eexists|]. }
      assert (D = I) as Heq by (apply set_eq; intros i; split; [apply Hsub|apply Hsup]).
      rewrite Heq in Hlt. lia.
  - intros (m & Hm & Hnone). apply subset_size. split; [done|].
    intros Hsup. assert (msg_id m ∈ D) as Hd.
    { apply Hsup, elem_of_list_to_set, list_elem_of_In. by apply in_map. }
    apply elem_of_dom in Hd. rewrite Hnone in Hd. by destruct Hd.
Qed.

Lemma hasCollapsedItems_finds_collapsed_witness :
  hasCollapsedItems (store Unpersist.loaded) = true
  <-> exists m, In m (_items (store Unpersist.loaded))
                /\ _itemsExpanded (store Unpersist.loaded) !! msg_id m = None.
Proof.
  apply hasCollapsedItems_finds_collapsed.
  - vm_compute. repeat constructor; cbn; intuition discriminate.
  - intros i Hi.
    assert (_itemsExpanded (store Unpersist.loaded) = {["d2" := Default]}) as Hm
      by (vm_compute; reflexivity).
    rewrite Hm in Hi. destruct (decide (i = "d2")) as [->|Hne].
    + vm_compute. tauto.
    + rewrite lookup_singleton_ne in Hi by done. destruct Hi as [x Hx]. discriminate Hx.
Defined.

(** ** The toggles *)

Lemma find_by_id (id : string) (l : list Message) :
  (~ In id (map msg_id l) -> List.find (fun i => String.eqb (msg_id i) id) l = None)
  /\ (In id (map msg_id l) ->
      exists item, List.find (fun i => String.eqb (msg_id i) id) l = Some item
                   /\ In item l /\ msg_id item = id).
Proof.
  split.
  - intros Hnot. destruct (List.find _ l) as [item|] eqn:Hfind; [|done].
    apply List.find_some in Hfind as [Hin Hid]. apply String.eqb_eq in Hid.
    destruct Hnot. rewrite <- Hid. by apply in_map.
  - intros Hin. destruct (List.find _ l) as [item|] eqn:Hfind.
    + apply List.find_some in Hfind as [Hitem Hid]. apply String.eqb_eq in Hid.
      by exists item.
    + apply in_map_iff in Hin as (m & <- & Hm).
      eapply List.find_none in Hfind; [|exact Hm]. by rewrite String.eqb_refl in Hfind.
Qed.

Lemma expandItem_spec (item : Message) (w : World) :
  _itemsExpanded (store (_expandItem item w))
  = <[msg_id item := Explicit]> (_itemsExpanded (store w))
  /\ _items (store (_expandItem item w)) = _items (store w)
  /\ effects (_expandItem item w) = effects w ++ map FetchFile (files item).
Proof.
  unfold _expandItem, _fetchExpandedAttachments, truthy_property.
  cbn [emit upd_store store effects set_itemsExpanded _itemsExpanded _items flat_map].
  by rewrite lookup_insert_eq, app_nil_r.
Qed.

Lemma collapseItem_spec (item : Message) (w : World) :
  _itemsExpanded (store (_collapseItem item w))
  = delete (msg_id item) (_itemsExpanded (store w))
  /\ _items (store (_collapseItem item w)) = _items (store w)
  /\ effects (_collapseItem item w) = effects w.
Proof. done. Qed.

Lemma trigger_spec (w : World) :
  store (trigger w) = store w /\ effects (trigger w) = effects w ++ [Trigger].
Proof. done. Qed.

(** X6. Toggling the expansion of an id that is not in the list does
    nothing at all, without a trigger. For a listed id the toggle reads
    [this._itemsExpanded[id]] for its truthiness. When that is truthy --
    the id has an entry of either kind, or it names a property that the
    plain object inherits from [Object.prototype], such as
    ["constructor"] -- the message is collapsed: its entry, if any, is
    removed and no attachment is requested. Otherwise the message gets the
    entry ['explicit'] and its attachments are requested, and toggling
    again gives the expansion map back. Either way every other id and the
    list are left alone and the observers are triggered once. *)
Theorem toggleMessageIdExpanded_toggles_one (id : string) (w : World) :
  (~ In id (itemIds (store w)) -> _onToggleMessageIdExpanded id w = w)
  /\ (In id (itemIds (store w)) ->
      exists item, In item (_items (store w)) /\ msg_id item = id /\
        let w' := _onToggleMessageIdExpanded id w in
        let before := _itemsExpanded (store w) in
        let after := _itemsExpanded (store w') in
        _items (store w') = _items (store w)
        /\ (forall j, j <> id -> after !! j = before !! j)
        /\ (is_Some (before !! id) \/ inherited id = true ->
            after !! id = None /\ effects w' = effects w ++ [Trigger])
        /\ (before !! id = None -> inherited id = false ->
            after !! id = Some Explicit
            /\ effects w' = effects w ++ map FetchFile (files item) ++ [Trigger]
            /\ _itemsExpanded (store (_onToggleMessageIdExpanded id w')) = before)).
Proof.
  unfold itemIds. destruct (find_by_id id (_items (store w))) as [Hno Hyes]. split.
  - intros Hnot. unfold _onToggleMessageIdExpanded. by rewrite Hno.
  - intros Hin. destruct (Hyes Hin) as (item & Hfind & Hitem & Hid).
    exists item. split; [done|]. split; [done|]. cbv zeta.
    destruct (expandItem_spec item w) as (Hxm & Hxi & Hxe).
    destruct (collapseItem_spec item w) as (Hcm & Hci & Hce).
    rewrite Hid in Hxm, Hcm.
    destruct (truthy_property (_itemsExpanded (store w)) id) eqn:Htruthy.
    + assert (_onToggleMessageIdExpanded id w = trigger (_collapseItem item w)) as ->
        by (unfold _onToggleMessageIdExpanded; by rewrite Hfind, Htruthy).
      destruct (trigger_spec (_collapseItem item w)) as [-> ->].
      rewrite Hcm, Hci, Hce. split; [done|]. split; [|split].
      * intros j Hj. by apply lookup_delete_ne.
      * intros _. split; [apply lookup_delete_eq|done].
      * intros Hnone Hown. unfold truthy_property in Htruthy.
        rewrite Hnone in Htruthy. congruence.
    + assert (_itemsExpanded (store w) !! id = None /\ inherited id = false)
        as [Hnone Hown].
      { unfold truthy_property in Htruthy.
        by destruct (_itemsExpanded (store w) !! id). }
      assert (_onToggleMessageIdExpanded id w = trigger (_expandItem item w)) as Hon
        by (unfold _onToggleMessageIdExpanded; by rewrite Hfind, Htruthy).
      rewrite Hon.
      destruct (trigger_spec (_expandItem item w)) as [Hts Hte].
      rewrite Hts, Hte, Hxm, Hxi, Hxe. split; [done|]. split; [|split].
      * intros j Hj. by apply lookup_insert_ne.
      * intros [[e He]|Hinh]; congruence.
      * intros _ _. split; [apply lookup_insert_eq|]. split; [by rewrite <- app_assoc|].
        assert (_onToggleMessageIdExpanded id (trigger (_expandItem item w))
                = trigger (_collapseItem item (trigger (_expandItem item w)))) as ->.
        { unfold _onToggleMessageIdExpanded, truthy_property.
          rewrite Hts, Hxi, Hfind, Hxm. by rewrite lookup_insert_eq. }
        destruct (trigger_spec (_collapseItem item (trigger (_expandItem item w))))
          as [-> _].
        destruct (collapseItem_spec item (trigger (_expandItem item w))) as (-> & _).
        rewrite Hts, Hid, Hxm. by rewrite delete_insert_id.
Qed.

Lemma toggleMessageIdExpanded_toggles_one_witness :
  let named := upd_store (set_items [Sample.message "constructor" "A" 1 false false None])
                 initial_world in
  _onToggleMessageIdExpanded "nobody" Unpersist.loaded = Unpersist.loaded
  /\ _itemsExpanded (store (_onToggleMessageIdExpanded "m1"
        (_onToggleMessageIdExpanded "m1" Unpersist.loaded)))
     = _itemsExpanded (store Unpersist.loaded)
  /\ effects (_onToggleMessageIdExpanded "constructor" named) = effects named ++ [Trigger].
Proof.
  split; [|split].
  - apply (proj1 (toggleMessageIdExpanded_toggles_one "nobody" Unpersist.loaded)).
    vm_compute. intuition discriminate.
  - destruct (proj2 (toggleMessageIdExpanded_toggles_one "m1" Unpersist.loaded))
      as (item & _ & _ & H).
    + vm_compute. tauto.
    + cbv zeta in H. destruct H as (_ & _ & _ & H). apply H; reflexivity.
  - destruct (proj2 (toggleMessageIdExpanded_toggles_one "constructor"
                (upd_store (set_items [Sample.message "constructor" "A" 1 false false None])
                   initial_world)))
      as (item & _ & _ & H).
    + vm_compute. tauto.
    + cbv zeta in H. destruct H as (_ & _ & H & _). apply H. right. reflexivity.
Defined.


Lemma collapseItem_fold_lookup (l : list Message) (w : World) :
  let w' := fold_left (fun w i => _collapseItem i w) l w in
  (forall m, In m l -> _itemsExpanded (store w') !! msg_id m = None)
  /\ (forall i, ~ In i (map msg_id l) ->
        _itemsExpanded (store w') !! i = _itemsExpanded (store w) !! i)
  /\ effects w' = effects w.
Proof.
  revert w. induction l as [|x l IH]; intros w; cbn [fold_left]; [by auto|].
  destruct (IH (_collapseItem x w)) as (Hin & Hout & Heff). cbv zeta.
  split; [|split].
  - intros m [->|Hm]; [|by apply Hin].
    destruct (in_dec String.string_dec (msg_id m) (map msg_id l)) as [Hl|Hl].
    + apply in_map_iff in Hl as (m' & Heq & Hm'). rewrite <- Heq. by apply Hin.
    + rewrite Hout by done. destruct (collapseItem_spec m w) as (-> & _).
      apply lookup_delete_eq.
  - intros i Hi. rewrite Hout by (intros Hl; apply Hi; by right).
    destruct (collapseItem_spec x w) as (-> & _).
    apply lookup_delete_ne. intros Heq. apply Hi. by left.
  - by rewrite Heff.
Qed.



(** ** Applying a focus change *)

Lemma onApplyFocusChange_forgets (w : World) :
  focused w = None ->
  _lastMarkedAsReadThreadId (store (_onApplyFocusChange w)) = None.
Proof.
  intros Hf. unfold _onApplyFocusChange. rewrite Hf. by case_bool_decide.
Qed.

Lemma onApplyFocusChange_same (w : World) :
  threadId_ (store w) = (thread_id <$> focused w) ->
  (focused w = None -> _lastMarkedAsReadThreadId (store w) = None) ->
  _onApplyFocusChange w = w.
Proof.
  intros Hsame Hnone. unfold _onApplyFocusChange.
  destruct (focused w) as [th|] eqn:Hf.
  - by rewrite bool_decide_true.
  - assert (upd_store (set_lastMarkedAsReadThreadId None) w = w) as ->.
    { specialize (Hnone eq_refl). destruct w as [[] ? ? ? ? ? ? ? ? ?].
      cbn in Hnone. by subst. }
    by rewrite bool_decide_true.
Qed.

Lemma onApplyFocusChange_idem (w : World) :
  _onApplyFocusChange (_onApplyFocusChange w) = _onApplyFocusChange w.
Proof.
  destruct (onApplyFocusChange_spec w)
    as (_ & _ & _ & Hf & _ & _ & [(Heq & _ & _ & Ht & _)|(_ & _ & _ & Ht & _)]);
    cbv zeta in Hf, Ht.
  - apply onApplyFocusChange_same.
    + rewrite Hf. unfold threadId_. rewrite Ht. exact Heq.
    + rewrite Hf. apply onApplyFocusChange_forgets.
  - apply onApplyFocusChange_same.
    + rewrite Hf. unfold threadId_. by rewrite Ht.
    + rewrite Hf. apply onApplyFocusChange_forgets.
Qed.

(** X8. [_onApplyFocusChange] compares thread ids. When the focused
    thread has the id of the thread shown it changes neither the list,
    the expansion, the effects nor the queries, and keeps the thread
    object it had. Otherwise it takes the focused thread, empties the list
    and the expansion map, sets the loading flag, clears the show-hidden
    toggle, triggers, sets the window title and starts a fetch -- the
    fetch only if the focused thread is not null. Focusing nothing
    forgets which thread was last marked as read. Applying twice is
    applying once. *)
Theorem onApplyFocusChange_resets_or_keeps (w : World) :
  let w' := _onApplyFocusChange w in
  _onApplyFocusChange w' = w'
  /\ (focused w = None -> _lastMarkedAsReadThreadId (store w') = None)
  /\ (threadId_ (store w) = (thread_id <$> focused w) ->
      _thread (store w') = _thread (store w)
      /\ _items (store w') = _items (store w)
      /\ _itemsExpanded (store w') = _itemsExpanded (store w)
      /\ effects w' = effects w /\ pending w' = pending w)
  /\ (threadId_ (store w) <> (thread_id <$> focused w) ->
      _thread (store w') = focused w
      /\ _items (store w') = []
      /\ _itemsExpanded (store w') = ∅
      /\ _itemsLoading (store w') = true
      /\ _showingHiddenItems (store w') = false
      /\ effects w' = effects w ++
           [Trigger; SetTitle ("Mailspring" +:+
              match focused w with
              | Some th => " · " +:+ subject th
              | None => ""
              end)]
      /\ pending w' = pending w ++
           match focused w with Some _ => [KCalendars] | None => [] end).
Proof.
  cbv zeta. split; [apply onApplyFocusChange_idem|]. split.
  - apply onApplyFocusChange_forgets.
  - destruct (onApplyFocusChange_spec w)
      as (_ & _ & _ & _ & _ & _ & [(Heq & Hi & Hm & Ht & He & Hp)
                                   |(Hne & Hi & Hm & Ht & Hl & Hh & He & Hp)]).
    + split; [done|]. by intros Hne.
    + split; [by intros Heq|done].
Qed.

Lemma onApplyFocusChange_resets_or_keeps_witness :
  let w := set_focused
             (Some (mkThread "A" "Lunch, moved" (participants Sample.threadA) true))
             Unpersist.loaded in
  _thread (store (_onApplyFocusChange w)) = Some Sample.threadA
  /\ _items (store (_onApplyFocusChange w)) = _items (store w)
  /\ _itemsExpanded (store (_onApplyFocusChange w)) = _itemsExpanded (store w)
  /\ effects (_onApplyFocusChange w) = effects w
  /\ pending (_onApplyFocusChange w) = pending w.
Proof.
  pose proof (onApplyFocusChange_resets_or_keeps
                (set_focused
                   (Some (mkThread "A" "Lunch, moved" (participants Sample.threadA) true))
                   Unpersist.loaded)) as H.
  cbv zeta in H. destruct H as (_ & _ & H & _). apply H. reflexivity.
Defined.

(** ** The read marker *)

Lemma markAsRead_handled (w : World) (th : Thread) :
  _thread (store w) = Some th ->
  _lastMarkedAsReadThreadId (store w) = Some (thread_id th) ->
  _markAsRead w = w.
Proof. intros Hth Hlast. unfold _markAsRead. by rewrite Hth, bool_decide_true. Qed.

Lemma markAsRead_records (w : World) (th : Thread) :
  _thread (store w) = Some th ->
  _lastMarkedAsReadThreadId (store (_markAsRead w)) = Some (thread_id th).
Proof.
  intros Hth. unfold _markAsRead. rewrite Hth. case_bool_decide as Hlast; [done|].
  destruct (thread_unread th); [|done].
  cbn [upd_store markAsReadDelay]. by destruct (markAsReadDelay w <? 0)%Z.
Qed.

(** X9. [_markAsRead] records the focused thread as handled and arms one
    timer for it, after the configured delay, when the thread is unread,
    was not the last one handled and the delay is not negative. In every
    other case it arms nothing -- but a thread that is read, or met with
    a negative delay, is recorded as handled all the same. It queues
    nothing itself, and calling it again changes nothing. *)
Theorem markAsRead_arms_at_most_once (w : World) :
  _markAsRead (_markAsRead w) = _markAsRead w
  /\ effects (_markAsRead w) = effects w
  /\ (forall th, _thread (store w) = Some th ->
        _lastMarkedAsReadThreadId (store (_markAsRead w)) = Some (thread_id th))
  /\ (forall th, _thread (store w) = Some th ->
        _lastMarkedAsReadThreadId (store w) <> Some (thread_id th) ->
        thread_unread th = true -> (0 <= markAsReadDelay w)%Z ->
        timers (_markAsRead w)
        = timers w ++ [mkTimer (next_handle w) (now w + markAsReadDelay w)
                         (TMarkAsRead (thread_id th))])
  /\ (_thread (store w) = None
      \/ (exists th, _thread (store w) = Some th
            /\ (_lastMarkedAsReadThreadId (store w) = Some (thread_id th)
                \/ thread_unread th = false \/ (markAsReadDelay w < 0)%Z)) ->
      timers (_markAsRead w) = timers w).
Proof.
  split; [|split; [by destruct (markAsRead_frame w) as (_ & _ & _ & _ & _ & _ & -> & _)|]].
  { destruct (_thread (store w)) as [th|] eqn:Hth.
    - apply (markAsRead_handled _ th); [|by apply markAsRead_records].
      destruct (markAsRead_frame w) as (_ & _ & -> & _). exact Hth.
    - unfold _markAsRead at 2. rewrite Hth. unfold _markAsRead. by rewrite Hth. }
  split; [intros th Hth; by apply markAsRead_records|].
  unfold _markAsRead. split.
  - intros th -> Hlast Hu Hd. rewrite bool_decide_false, Hu by done.
    cbn [upd_store markAsReadDelay].
    destruct (Z.ltb_spec (markAsReadDelay w) 0) as [Hneg|_]; [lia|]. reflexivity.
  - intros [->|(th & -> & H)]; [done|]. case_bool_decide as Hlast; [done|].
    destruct (thread_unread th) eqn:Hu; [|done]. cbn [upd_store markAsReadDelay].
    destruct (Z.ltb_spec (markAsReadDelay w) 0) as [Hneg|Hpos]; [done|].
    destruct H as [?|[?|?]]; [done|done|lia].
Qed.

Lemma markAsRead_arms_at_most_once_witness :
  let w := upd_store (set_thread (Some Unread.threadU)) initial_world in
  timers (_markAsRead w) = [mkTimer 0 500 (TMarkAsRead "U")]
  /\ timers (_markAsRead (upd_store (set_thread (Some Sample.threadA)) initial_world))
     = [].
Proof.
  split.
  - apply (proj1 (proj2 (proj2 (proj2 (markAsRead_arms_at_most_once
             (upd_store (set_thread (Some Unread.threadU)) initial_world)))))
             Unread.threadU); try reflexivity; discriminate.
  - apply (proj2 (proj2 (proj2 (proj2 (markAsRead_arms_at_most_once
             (upd_store (set_thread (Some Sample.threadA)) initial_world)))))).
    right. exists Sample.threadA. split; [reflexivity|]. right. left. reflexivity.
Defined.

(** ** What the store asks of its collaborators *)

Lemma fetchMissingBodies_none (l : list Message) (w : World) :
  Forall (fun m => has_body m = true) l -> _fetchMissingBodies l w = w.
Proof.
  intros H. unfold _fetchMissingBodies. rewrite filter_none; [done|].
  eapply Forall_impl; [exact H|]. cbn. intros m Hb. unfold has_body in Hb.
  apply bool_decide_eq_false. intros Hnone. by rewrite Hnone in Hb.
Qed.

Lemma part2_then_effects (pile : nat) (found : list Message) (w : World) :
  piles_have_bodies w ->
  let w' := part2_then pile found w in
  effects w'
  = effects w ++ expanded_files (_itemsExpanded (store w')) (_items (store w'))
      ++ [Trigger].
Proof.
  intros Hpb. cbv zeta.
  assert (Forall (fun m => has_body m = true)
            (sort_by_date (_sortItemsForDisplay (List.filter not_hidden
               (default [] (piles w !! pile) ++ map fill_body found))))) as Hbodies.
  { eapply Permutation_Forall; [symmetry; apply loaded_list_perm|].
    apply List.Forall_forall. intros m Hm. apply List.filter_In in Hm as [Hm _].
    apply in_app_or in Hm as [Hm|Hm].
    - destruct (piles w !! pile) as [l0|] eqn:Hl; [|destruct Hm].
      eapply Forall_lookup_1 in Hpb; [|done].
      by eapply (proj1 (List.Forall_forall _ _)) in Hpb.
    - apply in_map_iff in Hm as (m0 & <- & _). apply fill_body_has_body. }
  unfold part2_then.
  set (w1 := _expandItemsToDefault _).
  assert (_items (store w1)
          = sort_by_date (_sortItemsForDisplay (List.filter not_hidden
              (default [] (piles w !! pile) ++ map fill_body found)))) as Hitems
    by reflexivity.
  assert (effects w1 = effects w) as Heff by reflexivity.
  assert ((if _itemsLoading (store w1) then _fetchMissingBodies (_items (store w1)) w1
           else w1) = w1) as ->.
  { destruct (_itemsLoading (store w1)); [|done].
    apply fetchMissingBodies_none. by rewrite Hitems. }
  set (w4 := upd_store (set_itemsLoading false) _).
  destruct (markAsRead_frame w4) as (Hi & Hm & _ & _ & _ & _ & He & _).
  cbn [trigger emit store effects]. rewrite Hi, Hm, He. subst w4.
  cbn [upd_store store effects _fetchExpandedAttachments emit set_itemsLoading
         _items _itemsExpanded].
  rewrite Heff. unfold expanded_files. by rewrite <- app_assoc.
Qed.

(** X10. In every state the store can reach, a message query that answers
    requests the attachments of the expanded messages of the new list, in
    list order, and then triggers once; it never requests a message body,
    loading or not, because every delivered message was given a body. *)
Theorem answer_requests_files_then_triggers (evs : list (Z * Event)) (k pile index : nat)
    (ofThread : string) (found : list Message) :
  let w := run evs initial_world in
  pending w !! k = Some (KMessages pile index ofThread) ->
  let w' := resolve k (RMessages found) w in
  effects w'
  = effects w ++ expanded_files (_itemsExpanded (store w')) (_items (store w'))
      ++ [Trigger].
Proof.
  intros w Hk. cbv zeta. unfold resolve. rewrite Hk.
  apply (part2_then_effects pile found (set_pending (delete k (pending w)) w)).
  apply reachable_invariants.
Qed.

Lemma answer_requests_files_then_triggers_witness :
  let w := run (Sample.focus_A [Sample.threadA]) initial_world in
  let w' := resolve 0 (RMessages [Sample.bare; Sample.old]) w in
  effects w'
  = effects w ++ expanded_files (_itemsExpanded (store w')) (_items (store w'))
      ++ [Trigger].
Proof.
  apply (answer_requests_files_then_triggers (Sample.focus_A [Sample.threadA]) 0 0 0 "A").
  reflexivity.
Defined.

Lemma expanded_files_clean (m : gmap string Expansion) (l : list Message) :
  Forall (fun e => never_emitted e = false) (expanded_files m l).
Proof.
  apply List.Forall_forall. intros e He. unfold expanded_files in He.
  apply in_flat_map in He as (x & _ & He).
  destruct (truthy_property m (msg_id x)); [|destruct He].
  by apply in_map_iff in He as (f & <- & _).
Qed.

Lemma files_clean (l : list File) :
  Forall (fun e => never_emitted e = false) (map FetchFile l).
Proof. by induction l; constructor. Qed.

Lemma apply_clean (w : World) :
  Forall (fun e => never_emitted e = false) (effects w) ->
  Forall (fun e => never_emitted e = false) (effects (_onApplyFocusChange w)).
Proof.
  intros H. destruct (onApplyFocusChange_spec w)
    as (_ & _ & _ & _ & _ & _ & [(_ & _ & _ & _ & -> & _)
                                 |(_ & _ & _ & _ & _ & _ & -> & _)]); [done|].
  apply Forall_app. split; [done|]. by repeat constructor.
Qed.

Lemma fire_clean (tm : Timer) (w : World) :
  Forall (fun e => never_emitted e = false) (effects w) ->
  Forall (fun e => never_emitted e = false) (effects (fire tm w)).
Proof.
  intros H. unfold fire. destruct (existsb _ (timers w)); [|done].
  destruct (callback tm) as [|id]; cbn [run_callback].
  - by apply apply_clean.
  - unfold markAsRead_timeout. cbn [clearTimeout set_timers store].
    destruct (_thread (store w)) as [th|]; [|done].
    destruct (thread_unread th) eqn:Hu; cbn [negb]; [|by rewrite orb_true_r].
    rewrite orb_false_r. destruct (negb _); [done|].
    apply Forall_app. split; [done|]. constructor; [|constructor]. cbn. by rewrite Hu.
Qed.

Lemma expandItem_fold_clean (l : list Message) (w : World) :
  Forall (fun e => never_emitted e = false) (effects w) ->
  Forall (fun e => never_emitted e = false)
    (effects (fold_left (fun w i => _expandItem i w) l w)).
Proof.
  revert w. induction l as [|x l IH]; intros w H; cbn [fold_left]; [done|].
  apply IH. destruct (expandItem_spec x w) as (_ & _ & ->).
  apply Forall_app. split; [done|]. apply files_clean.
Qed.

Lemma fetchFromCache_then_effects (cals : list Calendar) (w : World) :
  effects (fetchFromCache_then cals w)
  = effects w ++ match _thread (store w) with Some _ => [] | None => [Uncaught] end.
Proof.
  unfold fetchFromCache_then. cbn [store upd_store _thread set_ownEmailAddresses].
  destruct (_thread (store w)) as [th|] eqn:Hth; [|by rewrite ?Hth].
  unfold fetchThreads.
  match goal with |- context [fold_left ?f ?l ?w0] =>
    pose proof (stranger_fold_frame l w0) as H; cbv zeta in H;
    set (w' := fold_left f l w0) in * end.
  destruct H as (_ & _ & _ & _ & H5 & _).
  destruct (String.eqb (strangerEmailAddress (store w')) ""); cbn;
    rewrite ?H5, app_nil_r; done.
Qed.

Lemma handle_event_clean (e : Event) (w : World) :
  piles_have_bodies w ->
  Forall (fun e => never_emitted e = false) (effects w) ->
  Forall (fun e => never_emitted e = false) (effects (handle_event e w)).
Proof.
  intros Hpb H. destruct e as [change|imp f|v|id| | |k r|]; cbn [handle_event].
  - destruct (onDataChanged_spec change w)
      as (_ & _ & _ & _ & [(_ & _ & ->)|[(item & _ & _ & _ & _ & -> & _)
                                        |(item & idx & _ & _ & _ & _ & -> & _)]]);
      [done| |]; (apply Forall_app; split; [done|by repeat constructor]).
  - unfold _onFocusChanged. destruct imp; cbn [negb]; [|done].
    destruct (_onFocusChangedTimer (store (set_focused f w))); [done|].
    cbn [setTimeout upd_store effects set_timers]. by apply apply_clean.
  - apply Forall_app. split; [done|by repeat constructor].
  - unfold _onToggleMessageIdExpanded.
    destruct (List.find _ (_items (store w))) as [item|]; [|done].
    destruct (truthy_property (_itemsExpanded (store w)) id).
    + apply Forall_app. split; [done|by repeat constructor].
    + destruct (trigger_spec (_expandItem item w)) as [_ ->].
      destruct (expandItem_spec item w) as (_ & _ & ->).
      apply Forall_app. split; [|by repeat constructor].
      apply Forall_app. split; [done|]. apply files_clean.
  - unfold _onToggleAllMessagesExpanded. cbn [trigger emit effects].
    apply Forall_app. split; [|by repeat constructor].
    destruct (hasCollapsedItems (store w)).
    + by apply expandItem_fold_clean.
    + by destruct (collapseItem_fold_lookup
                     (take (length (_items (store w)) - 1) (_items (store w))) w)
        as (_ & _ & ->).
  - unfold _onToggleHiddenMessages.
    cbn [trigger emit effects _fetchExpandedAttachments upd_store _expandItemsToDefault].
    apply Forall_app. split; [|by repeat constructor].
    apply Forall_app. split; [done|]. apply expanded_files_clean.
  - unfold resolve.
    destruct (pending w !! k) as [[|search|pile index ofThread]|]; [| | |done];
      destruct r as [cals|threads|found]; try done.
    + rewrite fetchFromCache_then_effects. cbn [set_pending store effects].
      apply Forall_app. split; [done|]. destruct (_thread (store w)); by repeat constructor.
    + unfold _fetchFromCachePart2.
      match goal with |- context [part2_loop ?p ?n ?l ?w0] =>
        by destruct (part2_loop_frame p l n w0) as (_ & _ & -> & _) end.
    + rewrite (part2_then_effects pile found (set_pending (delete k (pending w)) w))
        by done.
      cbn [set_pending effects]. apply Forall_app. split; [done|].
      apply Forall_app. split; [apply expanded_files_clean|by repeat constructor].
  - done.
Qed.

Lemma advance_clean (t : Z) (w : World) :
  Forall (fun e => never_emitted e = false) (effects w) ->
  Forall (fun e => never_emitted e = false) (effects (advance t w)).
Proof.
  unfold advance. cbn [set_now effects]. generalize (due_timers t (timers w)).
  intros due. revert w. induction due as [|tm due IH]; intros w H; cbn [fold_left];
    [done|]. by apply IH, fire_clean.
Qed.

(** X11. Whatever the events, the store never requests message bodies
    ([Actions.fetchBodies]) and never queues a mark-as-read task for a
    thread that is read. *)
Theorem never_fetches_bodies_nor_marks_read_threads (evs : list (Z * Event)) :
  Forall (fun e => never_emitted e = false) (effects (run evs initial_world)).
Proof.
  assert (forall w, items_not_hidden w -> piles_have_bodies w ->
            Forall (fun e => never_emitted e = false) (effects w) ->
            Forall (fun e => never_emitted e = false) (effects (run evs w))) as H.
  { induction evs as [|[t e] evs IH]; intros w Hnh Hpb Hc; cbn [run]; [done|].
    destruct (deliver_invariants t e w Hnh Hpb). apply IH; try done.
    unfold deliver. apply handle_event_clean.
    - unfold piles_have_bodies. by destruct (advance_spec t w) as (-> & _).
    - by apply advance_clean. }
  apply H; by constructor.
Qed.

(** ** The start of a fetch *)

Lemma default_last_cons {A} (a d : A) (l : list A) :
  default d (last (a :: l)) = default a (last l).
Proof. rewrite last_cons. by destruct (last l). Qed.

Lemma stranger_fold_last (l : list Contact) (w : World) :
  let w' := fold_left (fun w value =>
              if negb (existsb (String.eqb (email value)) (ownEmailAddresses (store w)))
              then upd_store (set_strangerEmailAddress (email value)) w
              else w) l w in
  strangerEmailAddress (store w')
  = default (strangerEmailAddress (store w))
      (last (map email (List.filter
         (fun value => negb (existsb (String.eqb (email value))
                               (ownEmailAddresses (store w)))) l)))
  /\ ownEmailAddresses (store w') = ownEmailAddresses (store w).
Proof.
  revert w. induction l as [|value l IH]; intros w; cbn [fold_left List.filter]; [done|].
  cbv zeta in IH.
  destruct (negb (existsb (String.eqb (email value)) (ownEmailAddresses (store w))))
    eqn:Hs.
  - destruct (IH (upd_store (set_strangerEmailAddress (email value)) w)) as [-> ->].
    cbn [map]. by rewrite default_last_cons.
  - apply IH.
Qed.

(** X12. When the calendar query answers, the names of the calendars
    become the user's own addresses, and the sender to search for becomes
    the last participant of the focused thread that is none of them --
    if every participant is one, the sender found for an earlier thread
    stays. One thread search for that sender is launched unless the sender
    is empty; then nothing is launched. If the thread has meanwhile become
    null, reading its participants throws and nothing is launched. *)
Theorem calendar_answer_searches_last_stranger (cals : list Calendar) (w : World) :
  let own := map cal_name cals in
  let w' := fetchFromCache_then cals w in
  ownEmailAddresses (store w') = own
  /\ (_thread (store w) = None ->
      effects w' = effects w ++ [Uncaught] /\ pending w' = pending w
      /\ strangerEmailAddress (store w') = strangerEmailAddress (store w))
  /\ (forall th, _thread (store w) = Some th ->
      let sender := default (strangerEmailAddress (store w))
                      (last (map email (strangers own th))) in
      strangerEmailAddress (store w') = sender
      /\ effects w' = effects w
      /\ pending w' = pending w ++
           (if String.eqb sender "" then [] else [KThreads ("from:" +:+ sender)])).
Proof.
  cbv zeta. unfold fetchFromCache_then.
  cbn [upd_store store _thread set_ownEmailAddresses].
  destruct (_thread (store w)) as [th0|] eqn:Hth.
  - match goal with |- context [fold_left ?g ?l ?w0] =>
      destruct (stranger_fold_last l w0) as [Hs Ho];
      destruct (stranger_fold_frame l w0) as (_ & _ & _ & _ & He & Hp & _);
      cbv zeta in Hs, Ho, He, Hp; set (w1 := fold_left g l w0) in *
    end.
    cbn [upd_store store ownEmailAddresses strangerEmailAddress
           set_ownEmailAddresses effects pending] in Hs, Ho, He, Hp.
    assert (ownEmailAddresses (store (fetchThreads w1)) = map cal_name cals
            /\ strangerEmailAddress (store (fetchThreads w1))
               = strangerEmailAddress (store w1)
            /\ effects (fetchThreads w1) = effects w
            /\ pending (fetchThreads w1)
               = pending w ++ (if String.eqb (strangerEmailAddress (store w1)) ""
                               then [] else
                                 [KThreads ("from:" +:+ strangerEmailAddress (store w1))]))
      as (H1 & H2 & H3 & H4).
    { unfold fetchThreads. destruct (String.eqb (strangerEmailAddress (store w1)) "");
        cbn; rewrite ?Ho, ?He, ?Hp, ?app_nil_r; done. }
    split; [done|]. split; [discriminate|].
    intros th [= <-]. unfold strangers. rewrite <- Hs. by rewrite H2.
  - split; [done|]. split; [done|]. discriminate.
Qed.

Lemma calendar_answer_searches_last_stranger_witness :
  let w := upd_store (set_thread (Some Sample.threadB)) Unpersist.loaded in
  strangerEmailAddress (store (fetchFromCache_then [Sample.me] w)) = "eve@example.com"
  /\ pending (fetchFromCache_then
                [Sample.me; mkCalendar "eve@example.com"] w)
     = [KThreads "from:bob@example.com"].
Proof.
  split.
  - apply (proj2 (proj2 (calendar_answer_searches_last_stranger [Sample.me]
             (upd_store (set_thread (Some Sample.threadB)) Unpersist.loaded)))
             Sample.threadB).
    reflexivity.
  - apply (proj2 (proj2 (calendar_answer_searches_last_stranger
             [Sample.me; mkCalendar "eve@example.com"]
             (upd_store (set_thread (Some Sample.threadB)) Unpersist.loaded)))
             Sample.threadB).
    reflexivity.
Defined.

(** ** Queries and the lists they fill *)

Lemma starts_at_most_a_fetch_allocated (w w' : World) :
  starts_at_most_a_fetch w w' -> piles_allocated w -> piles_allocated w'.
Proof.
  unfold piles_allocated. intros [Hp [Hq|Hq]] H; rewrite Hp, Hq; [done|].
  apply Forall_app. split; [done|]. constructor; [|constructor]. discriminate.
Qed.

Lemma starts_at_most_a_fetch_refl (w : World) : starts_at_most_a_fetch w w.
Proof. split; [done|by left]. Qed.

Lemma fetchFromCache_starts (w : World) : starts_at_most_a_fetch w (_fetchFromCache w).
Proof.
  unfold _fetchFromCache. destruct (_thread (store w)); [|apply starts_at_most_a_fetch_refl].
  split; [done|by right].
Qed.

Lemma onDataChanged_starts (change : DatabaseChangeRecord) (w : World) :
  starts_at_most_a_fetch w (_onDataChanged change w).
Proof.
  unfold _onDataChanged.
  destruct (_thread (store w)) as [th|]; [|apply starts_at_most_a_fetch_refl].
  destruct change as [ty [objs|objs|]]; cbn [objects change_type];
    [| |apply starts_at_most_a_fetch_refl].
  - destruct (negb (existsb _ objs)); [apply starts_at_most_a_fetch_refl|].
    destruct objs as [|item [|item' objs]]; try apply fetchFromCache_starts.
    destruct (draft item); [|apply fetchFromCache_starts].
    destruct (findIndex _ (_items (store w))), ty;
      (apply fetchFromCache_starts || (split; [done|by left])).
  - destruct (List.find _ objs) as [updatedThread|]; [|apply starts_at_most_a_fetch_refl].
    destruct (fetchFromCache_starts (upd_store (set_thread (Some updatedThread)) w))
      as [Hp Hq]. split; [exact Hp|exact Hq].
Qed.

Lemma onApplyFocusChange_starts (w : World) :
  starts_at_most_a_fetch w (_onApplyFocusChange w).
Proof.
  destruct (onApplyFocusChange_spec w)
    as (Hp & _ & _ & Hf & _ & _ & [(_ & _ & _ & _ & _ & Hq)
                                   |(_ & _ & _ & _ & _ & _ & _ & Hq)]);
    cbv zeta in Hp, Hq; (split; [done|]); [by left|].
  rewrite Hq. destruct (focused w); [by right|left; by rewrite app_nil_r].
Qed.

Lemma onFocusChanged_starts (impactsThread : bool) (w : World) :
  starts_at_most_a_fetch w (_onFocusChanged impactsThread w).
Proof.
  unfold _onFocusChanged.
  destruct impactsThread; cbn [negb]; [|apply starts_at_most_a_fetch_refl].
  destruct (_onFocusChangedTimer (store w)) as [h|]; [by split; [|left]|].
  destruct (onApplyFocusChange_starts w) as [Hp Hq]. split; [exact Hp|exact Hq].
Qed.

Lemma fire_starts (tm : Timer) (w : World) : starts_at_most_a_fetch w (fire tm w).
Proof.
  unfold fire. destruct (existsb _ (timers w)); [|apply starts_at_most_a_fetch_refl].
  destruct (callback tm) as [|markAsReadId]; cbn [run_callback].
  - destruct (onApplyFocusChange_starts
                (upd_store (set_onFocusChangedTimer None) (clearTimeout (handle tm) w)))
      as [Hp Hq]. split; [exact Hp|exact Hq].
  - unfold markAsRead_timeout. cbn [clearTimeout set_timers store].
    destruct (_thread (store w)); [|by split; [|left]].
    case_match; by split; [|left].
Qed.

Lemma advance_allocated (t : Z) (w : World) :
  piles_allocated w -> piles_allocated (advance t w).
Proof.
  unfold advance.
  change (piles_allocated (set_now ?x ?w0)) with (piles_allocated w0).
  generalize (due_timers t (timers w)). intros due. revert w.
  induction due as [|tm due IH]; intros w H; cbn [fold_left]; [done|].
  apply IH. eapply starts_at_most_a_fetch_allocated; [apply fire_starts|done].
Qed.

Lemma expandItem_fold_queries (l : list Message) (w : World) :
  pending (fold_left (fun w i => _expandItem i w) l w) = pending w.
Proof.
  revert w. induction l as [|x l IH]; intros w; cbn [fold_left]; [done|].
  by rewrite IH.
Qed.

Lemma collapseItem_fold_queries (l : list Message) (w : World) :
  pending (fold_left (fun w i => _collapseItem i w) l w) = pending w.
Proof.
  revert w. induction l as [|x l IH]; intros w; cbn [fold_left]; [done|].
  by rewrite IH.
Qed.

Lemma fetchFromCache_then_queries (cals : list Calendar) (w : World) :
  pending (fetchFromCache_then cals w) = pending w
  \/ exists search, pending (fetchFromCache_then cals w) = pending w ++ [KThreads search].
Proof.
  unfold fetchFromCache_then. cbn [store upd_store _thread set_ownEmailAddresses].
  destruct (_thread (store w)) as [th|] eqn:Hth; [|by left].
  unfold fetchThreads.
  match goal with |- context [fold_left ?f ?l ?w0] =>
    pose proof (stranger_fold_frame l w0) as H; cbv zeta in H;
    set (w' := fold_left f l w0) in * end.
  destruct H as (_ & _ & _ & _ & _ & H6 & _).
  destruct (String.eqb (strangerEmailAddress (store w')) "").
  - left. exact H6.
  - right. eexists. cbn [query_then set_pending pending]. by rewrite H6.
Qed.

Lemma resolve_allocated (k : nat) (r : QueryResult) (w : World) :
  piles_allocated w -> piles_allocated (resolve k r w).
Proof.
  intros H. unfold resolve.
  destruct (pending w !! k) as [[|search|pile index ofThread]|]; [| | |done];
    destruct r as [cals|threads|found]; try done.
  - unfold piles_allocated.
    destruct (fetchFromCache_then_frame cals (set_pending (delete k (pending w)) w))
      as (_ & _ & _ & -> & _).
    destruct (fetchFromCache_then_queries cals (set_pending (delete k (pending w)) w))
      as [->|[search ->]]; cbn [set_pending pending piles].
    + by apply Forall_delete.
    + apply Forall_app. split; [by apply Forall_delete|].
      constructor; [|constructor]. discriminate.
  - unfold piles_allocated, _fetchFromCachePart2.
    match goal with |- context [part2_loop ?p ?n ?l ?w0] =>
      destruct (part2_loop_frame p l n w0) as (_ & -> & _ & _ & ->) end.
    cbn [set_pending set_piles pending piles]. rewrite length_app. cbn [length].
    apply Forall_app. split.
    + apply Forall_delete. eapply Forall_impl; [exact H|].
      intros q Hq pile Hw. specialize (Hq pile Hw). lia.
    + apply Forall_forall. intros q Hq.
      apply elem_of_lookup_imap in Hq as (i & th & -> & _).
      intros pile Hw. cbn [writes_to] in Hw. apply Nat.eqb_eq in Hw. lia.
  - unfold piles_allocated.
    destruct (part2_then_spec pile found (set_pending (delete k (pending w)) w))
      as (_ & -> & _ & _ & _ & -> & _).
    cbn [set_pending pending piles]. rewrite length_insert. by apply Forall_delete.
Qed.

Lemma handle_event_allocated (e : Event) (w : World) :
  piles_allocated w -> piles_allocated (handle_event e w).
Proof.
  intros H. destruct e as [change|imp f|v|id| | |k r|]; cbn [handle_event].
  - eapply starts_at_most_a_fetch_allocated; [apply onDataChanged_starts|done].
  - eapply starts_at_most_a_fetch_allocated;
      [apply (onFocusChanged_starts imp (set_focused f w))|done].
  - done.
  - unfold _onToggleMessageIdExpanded.
    destruct (List.find _ (_items (store w))); [|done].
    by destruct (truthy_property (_itemsExpanded (store w)) id).
  - unfold _onToggleAllMessagesExpanded, piles_allocated.
    cbn [trigger emit pending piles].
    destruct (hasCollapsedItems (store w)).
    + destruct (expandItem_fold_spec (_items (store w)) w) as (_ & -> & _).
      by rewrite expandItem_fold_queries.
    + destruct (collapseItem_fold_spec
                  (take (length (_items (store w)) - 1) (_items (store w))) w)
        as (_ & -> & _).
      by rewrite collapseItem_fold_queries.
  - done.
  - by apply resolve_allocated.
  - done.
Qed.

Lemma reachable_allocated (evs : list (Z * Event)) :
  piles_allocated (run evs initial_world).
Proof.
  assert (forall w, piles_allocated w -> piles_allocated (run evs w)) as H.
  { induction evs as [|[t e] evs IH]; intros w Hw; cbn [run]; [done|].
    apply IH. unfold deliver. by apply handle_event_allocated, advance_allocated. }
  apply H. constructor.
Qed.

(** X13. In every state the store can reach, the answer to the thread
    search starts a new, empty [messagesToList] and launches one message
    query per found thread, in the order found, all of them appending to
    that list; it changes nothing else and triggers nothing. No query
    launched earlier appends to the new list: the answers of two fetches
    never pile up in the same list. *)
Theorem thread_answer_queries_each_thread (evs : list (Z * Event)) (k : nat)
    (search : string) (foundThreads : list Thread) :
  let w := run evs initial_world in
  pending w !! k = Some (KThreads search) ->
  let w' := resolve k (RThreads foundThreads) w in
  let pile := length (piles w) in
  store w' = store w /\ effects w' = effects w /\ timers w' = timers w
  /\ piles w' = piles w ++ [[]]
  /\ pending w'
     = delete k (pending w)
       ++ imap (fun index thread => KMessages pile index (thread_id thread)) foundThreads
  /\ Forall (fun q => writes_to pile q = false) (delete k (pending w)).
Proof.
  intros w Hk. cbv zeta. unfold resolve. rewrite Hk. unfold _fetchFromCachePart2.
  match goal with |- context [part2_loop ?p ?n ?l ?w0] =>
    destruct (part2_loop_frame p l n w0) as (-> & -> & -> & -> & ->) end.
  do 5 (split; [done|]).
  apply Forall_delete. eapply Forall_impl; [exact (reachable_allocated evs)|].
  intros q Hq. destruct (writes_to (length (piles w)) q) eqn:Hw; [|done].
  specialize (Hq _ Hw). fold w in Hq. lia.
Qed.

Lemma thread_answer_queries_each_thread_witness :
  let w := run [(0%Z, FocusChanged true (Some Sample.threadA));
                (10%Z, Resolve 0 (RCalendars [Sample.me]))] initial_world in
  pending (resolve 0 (RThreads [Sample.threadB; Sample.threadC]) w)
  = [KMessages 0 0 "B"; KMessages 0 1 "C"].
Proof.
  pose proof (thread_answer_queries_each_thread
                [(0%Z, FocusChanged true (Some Sample.threadA));
                 (10%Z, Resolve 0 (RCalendars [Sample.me]))] 0 "from:bob@example.com"
                [Sample.threadB; Sample.threadC] eq_refl) as H.
  cbv zeta in H. destruct H as (_ & _ & _ & _ & H & _). exact H.
Defined.

(** ** Data changes *)

Lemma existsb_none {A} (p : A -> bool) (l : list A) :
  Forall (fun x => p x = false) l -> existsb p l = false.
Proof. induction 1 as [|x l Hx _ IH]; [done|]. cbn. by rewrite Hx, IH. Qed.

Lemma find_none_all {A} (p : A -> bool) (l : list A) :
  Forall (fun x => p x = false) l -> List.find p l = None.
Proof. induction 1 as [|x l Hx _ IH]; [done|]. cbn. by rewrite Hx, IH. Qed.

Lemma find_first {A} (p : A -> bool) (before after : list A) (x : A) :
  Forall (fun y => p y = false) before -> p x = true ->
  List.find p (before ++ x :: after) = Some x.
Proof.
  intros Hbefore Hx. induction Hbefore as [|y before Hy _ IH]; cbn.
  - by rewrite Hx.
  - by rewrite Hy.
Qed.

(** X14. A data change never changes which thread the store shows. It
    is ignored altogether -- no trigger, no query -- when no thread is
    shown, when it is about neither messages nor threads, when none of its
    messages belongs to the thread shown, or when none of its threads is
    the thread shown. A change of messages of the thread shown that is not
    about one single draft starts a fetch and nothing else; a change of
    the thread shown takes the first changed thread with that id as the
    new thread object and starts a fetch, keeping the list and triggering
    nothing. *)
Theorem onDataChanged_ignores_or_fetches (change : DatabaseChangeRecord) (w : World) :
  let w' := _onDataChanged change w in
  threadId_ (store w') = threadId_ (store w)
  /\ (_thread (store w) = None -> w' = w)
  /\ (objects change = OtherObjects -> w' = w)
  /\ (forall th objs, _thread (store w) = Some th ->
        objects change = MessageObjects objs ->
        Forall (fun obj => threadId obj <> thread_id th) objs -> w' = w)
  /\ (forall th objs, _thread (store w) = Some th ->
        objects change = ThreadObjects objs ->
        Forall (fun t => thread_id t <> thread_id th) objs -> w' = w)
  /\ (forall th objs, _thread (store w) = Some th ->
        objects change = MessageObjects objs ->
        Exists (fun obj => threadId obj = thread_id th) objs ->
        length objs <> 1%nat \/ Forall (fun obj => draft obj = false) objs ->
        w' = query_then KCalendars w)
  /\ (forall th before updatedThread after, _thread (store w) = Some th ->
        objects change = ThreadObjects (before ++ updatedThread :: after) ->
        Forall (fun t => thread_id t <> thread_id th) before ->
        thread_id updatedThread = thread_id th ->
        w' = query_then KCalendars (upd_store (set_thread (Some updatedThread)) w)).
Proof.
  cbv zeta. split; [|split; [|split; [|split; [|split; [|split]]]]].
  - unfold _onDataChanged. destruct (_thread (store w)) as [th|] eqn:Hth; [|done].
    assert (forall w0, threadId_ (store (_fetchFromCache w0)) = threadId_ (store w0))
      as Hfetch by (intros w0; by destruct (fetchFromCache_frame w0) as (-> & _)).
    destruct change as [ty [objs|objs|]]; cbn [objects change_type]; [| |done].
    + destruct (negb (existsb _ objs)); [done|].
      destruct objs as [|item [|item' objs]]; try apply Hfetch.
      destruct (draft item); [|apply Hfetch].
      destruct (findIndex _ (_items (store w))), ty; (apply Hfetch || done).
    + destruct (List.find _ objs) as [updatedThread|] eqn:Hfind; [|done].
      rewrite Hfetch. apply List.find_some in Hfind as [_ Hid].
      apply String.eqb_eq in Hid. unfold threadId_. cbn. by rewrite Hid, Hth.
  - intros Hth. unfold _onDataChanged. by rewrite Hth.
  - intros Hobj. unfold _onDataChanged. rewrite Hobj. by destruct (_thread (store w)).
  - intros th objs Hth Hobj Hnone. unfold _onDataChanged. rewrite Hth, Hobj.
    rewrite existsb_none; [done|]. eapply Forall_impl; [exact Hnone|].
    intros obj Hne. by apply String.eqb_neq.
  - intros th objs Hth Hobj Hnone. unfold _onDataChanged. rewrite Hth, Hobj.
    rewrite find_none_all; [done|]. eapply Forall_impl; [exact Hnone|].
    intros t Hne. by apply String.eqb_neq.
  - intros th objs Hth Hobj Hsome Hshape. unfold _onDataChanged. rewrite Hth, Hobj.
    assert (existsb (fun obj => String.eqb (threadId obj) (thread_id th)) objs = true)
      as ->.
    { apply existsb_exists. apply List.Exists_exists in Hsome as (obj & Hin & Hid).
      exists obj. split; [done|]. by apply String.eqb_eq. }
    cbn [negb].
    assert (_fetchFromCache w = query_then KCalendars w) as Hfetch
      by (unfold _fetchFromCache; by rewrite Hth).
    destruct objs as [|item [|item' objs]]; [done| |done].
    destruct Hshape as [Hlen|Hdraft]; [done|].
    apply List.Forall_cons_iff in Hdraft as [-> _]. done.
  - intros th before updatedThread after Hth Hobj Hbefore Hid.
    unfold _onDataChanged. rewrite Hth, Hobj.
    rewrite find_first; [done| |by apply String.eqb_eq].
    eapply Forall_impl; [exact Hbefore|]. intros t Hne. by apply String.eqb_neq.
Qed.

Lemma onDataChanged_ignores_or_fetches_witness :
  _onDataChanged (mkChange persist (MessageObjects [Sample.a2])) Unpersist.loaded
  = Unpersist.loaded
  /\ _onDataChanged (mkChange persist (MessageObjects [Sample.m1; Sample.d1]))
       Unpersist.loaded
     = query_then KCalendars Unpersist.loaded
  /\ _onDataChanged (mkChange persist
         (ThreadObjects [Sample.threadB;
                         mkThread "A" "Lunch, moved" (participants Sample.threadA) true]))
       Unpersist.loaded
     = query_then KCalendars
         (upd_store (set_thread
            (Some (mkThread "A" "Lunch, moved" (participants Sample.threadA) true)))
            Unpersist.loaded).
Proof.
  split; [|split].
  - apply (proj1 (proj2 (proj2 (proj2 (onDataChanged_ignores_or_fetches
             (mkChange persist (MessageObjects [Sample.a2])) Unpersist.loaded))))
             Sample.threadA [Sample.a2]); [reflexivity|reflexivity|].
    constructor; [discriminate|constructor].
  - apply (proj1 (proj2 (proj2 (proj2 (proj2 (proj2 (onDataChanged_ignores_or_fetches
             (mkChange persist (MessageObjects [Sample.m1; Sample.d1]))
             Unpersist.loaded))))))
             Sample.threadA [Sample.m1; Sample.d1]); [reflexivity|reflexivity| |].
    + constructor. reflexivity.
    + left. discriminate.
  - apply (proj2 (proj2 (proj2 (proj2 (proj2 (proj2 (onDataChanged_ignores_or_fetches
             (mkChange persist
                (ThreadObjects [Sample.threadB;
                   mkThread "A" "Lunch, moved" (participants Sample.threadA) true]))
             Unpersist.loaded))))))
             Sample.threadA [Sample.threadB]
             (mkThread "A" "Lunch, moved" (participants Sample.threadA) true) []);
      [reflexivity|reflexivity| |reflexivity].
    constructor; [discriminate|constructor].
Defined.

Lemma findIndex_absent (i : string) (l : list Message) :
  ~ In i (map msg_id l) ->
  findIndex (fun msg => String.eqb (msg_id msg) i) l = None.
Proof.
  intros Hnot. apply findIndex_None. apply filter_none.
  apply List.Forall_forall. intros m Hm. apply String.eqb_neq. intros Heq.
  apply Hnot. rewrite <- Heq. by apply in_map.
Qed.

Lemma sortItemsForDisplay_stays (l : list Message) :
  List.filter stays_put (_sortItemsForDisplay l) = List.filter stays_put l.
Proof.
  rewrite sortItemsForDisplay_rethread. unfold rethread.
  rewrite fold_insert_after_target_stays.
  - apply filter_idem.
  - apply Forall_rev, filter_Forall.
Qed.

(** X15. In every state the store can reach, a single-object [persist]
    notification for a draft of the thread shown whose id is not in the
    list appends the draft -- unless it is hidden -- and re-threads the
    whole list, also the reply drafts that a fetch had put in date order:
    no message is lost or doubled, the messages other than reply drafts
    keep their order with the new draft after them, the expansion
    defaults are recomputed, and the observers are triggered once without
    a query. *)
Theorem persist_fast_path_appends_and_rethreads (evs : list (Z * Event)) (th : Thread)
    (item : Message) :
  let w := run evs initial_world in
  _thread (store w) = Some th ->
  threadId item = thread_id th ->
  draft item = true ->
  ~ In (msg_id item) (itemIds (store w)) ->
  let w' := _onDataChanged (mkChange persist (MessageObjects [item])) w in
  let appended := _items (store w) ++ List.filter not_hidden [item] in
  _items (store w') = _sortItemsForDisplay appended
  /\ Permutation (_items (store w')) appended
  /\ List.filter stays_put (_items (store w')) = List.filter stays_put appended
  /\ _itemsExpanded (store w')
     = expand_defaults (items (viewing w) (store w')) (_itemsExpanded (store w))
  /\ effects w' = effects w ++ [Trigger]
  /\ pending w' = pending w.
Proof.
  intros w Hth Htid Hdraft Hnew. cbv zeta.
  assert (_onDataChanged (mkChange persist (MessageObjects [item])) w
          = trigger (_expandItemsToDefault
              (upd_store (fun s => set_items (_sortItemsForDisplay (_items s)) s)
                (upd_store (fun s =>
                   set_items (List.filter not_hidden (_items s ++ [item])) s) w))))
    as ->.
  { unfold _onDataChanged. rewrite Hth. cbn [objects change_type existsb].
    rewrite Htid, String.eqb_refl, Hdraft. cbn [orb negb].
    by rewrite (findIndex_absent _ _ Hnew). }
  assert (List.filter not_hidden (_items (store w) ++ [item])
          = _items (store w) ++ List.filter not_hidden [item]) as Hfilter.
  { rewrite List.filter_app. f_equal. apply filter_all.
    apply (proj1 (reachable_invariants evs)). }
  cbn [trigger emit _expandItemsToDefault upd_store store set_itemsExpanded set_items
         _items _itemsExpanded effects pending viewing].
  rewrite Hfilter. split; [done|]. split; [apply sortItemsForDisplay_perm|].
  split; [apply sortItemsForDisplay_stays|]. done.
Qed.

Lemma persist_fast_path_appends_and_rethreads_witness :
  let w := run Unpersist.loading initial_world in
  let reply := Sample.message "d3" "A" 9 true false (Some "h-m1") in
  let w' := _onDataChanged (mkChange persist (MessageObjects [reply])) w in
  _items (store w') = _sortItemsForDisplay (_items (store w) ++ [reply])
  /\ effects w' = effects w ++ [Trigger].
Proof.
  pose proof (persist_fast_path_appends_and_rethreads Unpersist.loading Sample.threadA
                (Sample.message "d3" "A" 9 true false (Some "h-m1"))
                eq_refl eq_refl eq_refl) as H.
  cbv zeta in H. destruct H as (Hitems & _ & _ & _ & Heff & _).
  - vm_compute. intuition discriminate.
  - split; [exact Hitems|exact Heff].
Defined.

(** ** The debounce, on its own *)

Lemma set_focused_same (X : option Thread) (w : World) :
  focused w = X -> set_focused X w = w.
Proof. intros <-. by destruct w. Qed.

Lemma idle_is_calm (evs : list (Z * Event)) (t : Z) :
  _onFocusChangedTimer (store (run evs initial_world)) = None ->
  calm t (run evs initial_world).
Proof.
  intros Hnone. apply reachable_calm.
  destruct (reachable_sound evs) as (_ & _ & Ho).
  eapply Forall_impl; [exact Ho|]. cbn. intros tm Hheld Hfocus.
  specialize (Hheld Hfocus). congruence.
Qed.

(** X16. In every state the store can reach, a focus change that finds no
    debounce timer running is applied at once. When its timer runs out,
    100 ms later or more, with no other event in between, the second
    application changes nothing that can be seen: no trigger, no title,
    no query, the list and the expansions as the first left them. *)
Theorem lone_focus_change_is_applied_once (evs : list (Z * Event)) (t T : Z)
    (X : option Thread) :
  let w := run evs initial_world in
  _onFocusChangedTimer (store w) = None ->
  (now w <= t)%Z -> (t + 100 <= T)%Z ->
  let w1 := deliver t (FocusChanged true X) w in
  let w2 := deliver T Idle w1 in
  view w1 = view (_onApplyFocusChange (set_focused X w))
  /\ view w2 = view w1.
Proof.
  intros w Hidle Hnow HT w1 w2.
  pose proof (focus_change_while_idle t X w Hidle (idle_is_calm evs t Hidle) Hnow) as D.
  fold w1 in D. split; [apply D|].
  transitivity (view (_onApplyFocusChange (set_focused X w))); [|symmetry; apply D].
  subst w2.
  rewrite (focus_timer_fires T t X _ w1 (_onApplyFocusChange (set_focused X w)) D HT eq_refl).
  rewrite set_focused_same.
  - by rewrite onApplyFocusChange_idem.
  - by destruct (onApplyFocusChange_spec (set_focused X w)) as (_ & _ & _ & -> & _).
Qed.

Lemma lone_focus_change_is_applied_once_witness :
  let w1 := deliver 0 (FocusChanged true (Some Sample.threadA)) (run [] initial_world) in
  view w1
  = view (_onApplyFocusChange (set_focused (Some Sample.threadA) (run [] initial_world)))
  /\ view (deliver 100 Idle w1) = view w1.
Proof.
  apply (lone_focus_change_is_applied_once [] 0 100 (Some Sample.threadA)).
  - reflexivity.
  - vm_compute. discriminate.
  - lia.
Defined.

(** ** What holds in every state *)

(** X17. In every state the store can reach, the cached list holds no
    message that [isHidden()], and so neither does the list that
    [items()] returns, whatever is being viewed. *)
Theorem cached_list_never_holds_hidden_messages (evs : list (Z * Event))
    (viewing : option string) :
  let s := store (run evs initial_world) in
  Forall (fun m => msg_isHidden m = false) (_items s)
  /\ Forall (fun m => msg_isHidden m = false) (items viewing s).
Proof.
  cbv zeta.
  assert (Forall (fun m => msg_isHidden m = false)
            (_items (store (run evs initial_world)))) as H.
  { eapply Forall_impl; [exact (proj1 (reachable_invariants evs))|].
    cbn. unfold not_hidden. intros m Hm. by destruct (msg_isHidden m). }
  split; [done|]. apply List.Forall_forall. intros m Hm.
  apply items_incl in Hm. by eapply (proj1 (List.Forall_forall _ _)) in H.
Qed.

Lemma NoDup_map_filter {A B} (f : A -> B) (p : A -> bool) (l : list A) :
  List.NoDup (map f l) -> List.NoDup (map f (List.filter p l)).
Proof.
  induction l as [|x l IH]; cbn [map List.filter]; [done|].
  intros Hnd. apply NoDup_cons_iff in Hnd as [Hx Hnd].
  destruct (p x); [|by apply IH]. cbn [map]. apply NoDup_cons_iff. split; [|by apply IH].
  intros Hin. apply Hx. apply in_map_iff in Hin as (y & Hy & Hin).
  apply List.filter_In in Hin as [Hin _]. rewrite <- Hy. by apply in_map.
Qed.

(** X18. In every state the store can reach, the armed timers have
    pairwise different handles, all handed out before; at most one of them
    is a debounce timer of [_onFocusChanged], and its handle is the one
    the store holds: when the store holds none, no debounce timer is
    armed. *)
Theorem at_most_one_debounce_timer (evs : list (Z * Event)) :
  let w := run evs initial_world in
  List.NoDup (map handle (timers w))
  /\ Forall (fun tm => (handle tm < next_handle w)%nat) (timers w)
  /\ Forall (fun tm => _onFocusChangedTimer (store w) = Some (handle tm))
       (List.filter is_focus_timer (timers w))
  /\ (length (List.filter is_focus_timer (timers w)) <= 1)%nat.
Proof.
  cbv zeta. destruct (reachable_sound evs) as (Hfresh & Hnd & Hheld).
  set (w := run evs initial_world) in *.
  assert (Forall (fun tm => _onFocusChangedTimer (store w) = Some (handle tm))
            (List.filter is_focus_timer (timers w))) as Hfocus.
  { apply List.Forall_forall. intros tm Hin. apply List.filter_In in Hin as [Hin Hf].
    by eapply (proj1 (List.Forall_forall _ _)) in Hheld; [apply Hheld|]. }
  split; [done|]. split; [done|]. split; [done|].
  pose proof (NoDup_map_filter handle is_focus_timer _ Hnd) as Hnd'.
  destruct (List.filter is_focus_timer (timers w)) as [|a [|b rest]]; cbn [length];
    [lia|lia|].
  apply List.Forall_cons_iff in Hfocus as [Ha Hfocus].
  apply List.Forall_cons_iff in Hfocus as [Hb _].
  cbn [map] in Hnd'. apply NoDup_cons_iff in Hnd' as [Hnot _]. destruct Hnot.
  left. congruence.
Qed.

(** ** What is shown and what is hidden *)

Lemma filter_length_all {A} (p : A -> bool) (l : list A) :
  length (List.filter p l) = length l -> List.filter p l = l.
Proof.
  induction l as [|x l IH]; cbn [List.filter length]; [done|].
  pose proof (List.filter_length_le p l) as Hle.
  destruct (p x); cbn [length]; intros Hlen; [|lia].
  f_equal. apply IH. lia.
Qed.

Lemma filter_sublist {A} (p : A -> bool) (l : list A) : sublist (List.filter p l) l.
Proof.
  induction l as [|x l IH]; cbn [List.filter]; [constructor|].
  destruct (p x); by constructor.
Qed.

(** X19. [items()] returns the cached messages that pass the folder
    filter, in the order of the cached list, so [numberOfHiddenItems()]
    lies between 0 and the length of the cached list; it is 0 exactly
    when [items()] returns the whole cached list. A message that is not
    a draft passes the filter either while a folder hidden by default is
    viewed or while another one is, never both; a draft outside those
    folders passes it in both. *)
Theorem items_and_numberOfHiddenItems (viewing : option string) (s : Store) :
  sublist (items viewing s) (_items s)
  /\ (0 <= numberOfHiddenItems viewing s <= Z.of_nat (length (_items s)))%Z
  /\ (numberOfHiddenItems viewing s = 0%Z <-> items viewing s = _items s)
  /\ (forall elsewhere item,
        includes FolderNamesHiddenByDefault viewing = true ->
        includes FolderNamesHiddenByDefault elsewhere = false ->
        (draft item = false ->
         items_filter viewing item = negb (items_filter elsewhere item))
        /\ (draft item = true ->
            includes FolderNamesHiddenByDefault (Some (role (folder item))) = false ->
            items_filter viewing item = true /\ items_filter elsewhere item = true)).
Proof.
  assert (length (items viewing s) <= length (_items s))%nat as Hle.
  { unfold items. destruct (_showingHiddenItems s); [done|]. apply List.filter_length_le. }
  split; [|split; [|split]].
  - unfold items. destruct (_showingHiddenItems s); [done|]. apply filter_sublist.
  - unfold numberOfHiddenItems. lia.
  - unfold numberOfHiddenItems. split.
    + intros Hzero. unfold items in *. destruct (_showingHiddenItems s); [done|].
      apply filter_length_all. lia.
    + intros ->. lia.
  - intros elsewhere item Hhidden Hother. unfold items_filter. rewrite Hhidden, Hother.
    split.
    + intros ->. by rewrite orb_false_r, negb_involutive.
    + by intros -> ->.
Qed.

Lemma items_and_numberOfHiddenItems_witness :
  items_filter (Some "trash") Sample.junk
  = negb (items_filter (Some "inbox") Sample.junk)
  /\ items_filter (Some "trash") Sample.d2 = true
  /\ items_filter (Some "inbox") Sample.d2 = true.
Proof.
  destruct (proj2 (proj2 (proj2 (items_and_numberOfHiddenItems (Some "trash")
              _setStoreDefaults))) (Some "inbox") Sample.junk eq_refl eq_refl)
    as [Hjunk _].
  destruct (proj2 (proj2 (proj2 (items_and_numberOfHiddenItems (Some "trash")
              _setStoreDefaults))) (Some "inbox") Sample.d2 eq_refl eq_refl)
    as [_ Hdraft].
  split; [by apply Hjunk|by apply Hdraft].
Defined.

(** ** Showing the hidden messages *)



(** ** Where expansion entries come from *)

(** X21. Whatever the event and the state it meets, an id that is in the
    expansion map afterwards is the id of a message of the cached list as
    it is afterwards, or was in the map before: no event adds an entry
    for a message that is not listed. *)
Theorem expansion_entries_are_added_for_listed_messages (t : Z) (e : Event) (w : World)
    (i : string) :
  is_Some (_itemsExpanded (store (deliver t e w)) !! i) ->
  is_Some (_itemsExpanded (store w) !! i)
  \/ In i (itemIds (store (deliver t e w))).
Proof.
  intros H. unfold deliver in *.
  apply handle_event_expansion in H as [H|H]; [|by right].
  destruct (advance_spec t w) as (_ & [(_ & Hm)|(_ & Hm)]); rewrite Hm in H.
  - by left.
  - rewrite lookup_empty in H. destruct H as [x Hx]. discriminate Hx.
Qed.

Lemma expansion_entries_are_added_for_listed_messages_witness :
  is_Some (_itemsExpanded (store Unpersist.loaded) !! "d1")
  \/ In "d1" (itemIds (store Unpersist.draft_removed)).
Proof.
  apply (expansion_entries_are_added_for_listed_messages 40%Z
           (DataChanged (mkChange unpersist (MessageObjects [Sample.d2])))
           Unpersist.loaded "d1").
  vm_compute. eauto.
Defined.
